(** * Verification of the MCP tool-calling evaluation harness

    Shallow embedding of [evals/run_evaluation.py] and
    [evals/create_dataset.py].

    Conventions of the embedding:
    - a Python [str] is the list of its code points ([pystr]); string
      comparison is the lexicographic order on code points, as in CPython;
    - a Python [list] that is only read is a Rocq [list]; a [dict] that is
      only read is a [gmap];
    - Python floats that come out of [correct / total] are kept as exact
      rationals ([Q]);
    - objects that are mutated or aliased live in an explicit heap
      (module [Heap]);
    - calls that leave the process (providers, experiment platform) are
      fields of the class [Env] and thread an abstract [world]. *)

From Stdlib Require Import QArith.
From stdpp Require Import gmap strings list fin_maps sorting.

Open Scope Z_scope.
Open Scope nat_scope.

(* ===================================================================== *)
(** * Python strings *)
(* ===================================================================== *)

Abbreviation pystr := (list N).

(** A source-code literal, as the [str] of its code points. *)
Definition py (s : string) : pystr :=
  Ascii.N_of_ascii <$> String.list_ascii_of_string s.

(** [bool(s)] for a string: the empty string is falsy. *)
Definition truthy (s : pystr) : bool :=
  match s with [] => false | _ :: _ => true end.

(** The code points CPython treats as whitespace ([Py_UNICODE_ISSPACE]),
    which is what [str.strip()] without argument removes. *)
Definition is_space (c : N) : bool :=
  ((9 <=? c) && (c <=? 13) || (28 <=? c) && (c <=? 32)
   || (c =? 133) || (c =? 160) || (c =? 5760)
   || (8192 <=? c) && (c <=? 8202)
   || (c =? 8232) || (c =? 8233) || (c =? 8239) || (c =? 8287)
   || (c =? 12288))%N.

Fixpoint lstrip (s : pystr) : pystr :=
  match s with
  | [] => []
  | c :: s' => if is_space c then lstrip s' else s
  end.

Definition rstrip (s : pystr) : pystr := reverse (lstrip (reverse s)).

(** [s.strip()] *)
Definition strip (s : pystr) : pystr := rstrip (lstrip s).

(** [s.startswith(p)] *)
Fixpoint startswith (s p : pystr) {struct p} : bool :=
  match p, s with
  | [], _ => true
  | _ :: _, [] => false
  | a :: p', b :: s' => (a =? b)%N && startswith s' p'
  end.

(** [s.split(sep)] for a non-empty separator: the occurrences of [sep] are
    found from left to right and do not overlap.  [skip] counts the code
    points of a separator that was just recognised and is still to be
    consumed; [cur] is the piece being accumulated. *)
Fixpoint split_go (sep : pystr) (skip : nat) (cur s : pystr) : list pystr :=
  match s with
  | [] => [cur]
  | c :: s' =>
      match skip with
      | S k => split_go sep k cur s'
      | O =>
          if startswith s sep
          then cur :: split_go sep (length sep - 1) [] s'
          else split_go sep 0 (cur ++ [c]) s'
      end
  end.

Definition split (sep s : pystr) : list pystr := split_go sep 0 [] s.

(** [sep.join(l)] *)
Fixpoint join (sep : pystr) (l : list pystr) : pystr :=
  match l with
  | [] => []
  | [x] => x
  | x :: rest => x ++ sep ++ join sep rest
  end.

(** Lexicographic comparison of two strings by code point: [s <= t]. *)
Fixpoint str_leb (s t : pystr) : bool :=
  match s, t with
  | [], _ => true
  | _ :: _, [] => false
  | a :: s', b :: t' =>
      match (a ?= b)%N with
      | Lt => true
      | Gt => false
      | Eq => str_leb s' t'
      end
  end.

Definition str_le (s t : pystr) : Prop := str_leb s t = true.

Global Instance str_le_dec s t : Decision (str_le s t).
Proof. unfold str_le. apply _. Defined.

(** [sorted(l)] on a list of strings.  The built-in is a stable merge sort;
    on a total order whose equivalence is equality every sorting algorithm
    returns the same list ([sorted_unique] below). *)
Definition sorted (l : list pystr) : list pystr := merge_sort str_le l.

(* ===================================================================== *)
(** * The matcher: [tools_match] *)
(* ===================================================================== *)

(** Lines 103-105 of [tools_match], which parse the record:
    [expected.get('tool_calls', '')], the split on [', '] guarded by
    truthiness, and the strip/filter comprehension. *)
Definition expected_tools (expected : gmap pystr pystr) : list pystr :=
  let tool_calls := default [] (expected !! py "tool_calls") in
  let expected_tools :=
    if truthy tool_calls then split (py ", ") tool_calls else [] in
  strip <$> filter (λ tool, truthy (strip tool) = true) expected_tools.

Definition tools_match (expected : gmap pystr pystr) (output : list pystr)
  : bool :=
  bool_decide (sorted (expected_tools expected) = sorted output).

(** ** [create_dataset]: the row built for one test case *)

Record test_case := TestCase {
  tc_question : pystr;
  tc_expected_tools : list pystr;
  tc_category : pystr;
}.

Definition dataset_row (tc : test_case) : gmap pystr pystr :=
  {[ py "question" := tc_question tc;
     py "tool_calls" := join (py ", ") (tc_expected_tools tc);
     py "category" := tc_category tc ]}.

(** Rows are uploaded with [output_keys=['tool_calls']]: the record handed
    to the evaluator as [expected] holds that one key. *)
Definition expected_of_row (row : gmap pystr pystr) : gmap pystr pystr :=
  filter (λ kv, kv.1 = py "tool_calls") row.

(* ===================================================================== *)
(** * Exceptions and JSON values *)
(* ===================================================================== *)

Inductive exn :=
  | KeyError (k : pystr)
  | TypeError
  | AttributeError
  | IndexError
  | ZeroDivisionError
  | RecursionError
  | SystemError
  | ExternalError (msg : pystr).

Inductive result (A : Type) :=
  | Ok (a : A)
  | Raise (e : exn).
Arguments Ok {A} a.
Arguments Raise {A} e.

Global Instance result_ret : MRet result := λ A a, Ok a.
Global Instance result_bind : MBind result := λ A B k r,
  match r with
  | Ok a => k a
  | Raise e => Raise e
  end.

(** What [json.load] can return.  Numbers are kept as rationals. *)
#[warnings="-register-all"]
Inductive json :=
  | JNull
  | JBool (b : bool)
  | JNum (q : Q)
  | JStr (s : pystr)
  | JList (xs : list json)
  | JDict (kvs : list (pystr * json)).

(** ** Insertion-ordered dictionaries with string keys *)

Section dict.
Context {V : Type}.

(** [d.get(k)] / the lookup of [d[k]] *)
Fixpoint dict_get (d : list (pystr * V)) (k : pystr) : option V :=
  match d with
  | [] => None
  | (k', v) :: d' => if decide (k' = k) then Some v else dict_get d' k
  end.

Fixpoint dict_remove (d : list (pystr * V)) (k : pystr) : list (pystr * V) :=
  match d with
  | [] => []
  | (k', v) :: d' => if decide (k' = k) then d' else (k', v) :: dict_remove d' k
  end.

(** [d[k] = v]: an existing key keeps its place, a new key goes last. *)
Fixpoint dict_set (d : list (pystr * V)) (k : pystr) (v : V) : list (pystr * V) :=
  match d with
  | [] => [(k, v)]
  | (k', v') :: d' =>
      if decide (k' = k) then (k', v) :: d' else (k', v') :: dict_set d' k v
  end.

(** [d[k]] as an expression *)
Definition dict_item (d : list (pystr * V)) (k : pystr) : result V :=
  match dict_get d k with
  | Some v => Ok v
  | None => Raise (KeyError k)
  end.

(** [d.pop(k)]: the value and the remaining dictionary *)
Definition dict_pop (d : list (pystr * V)) (k : pystr)
  : result (V * list (pystr * V)) :=
  match dict_get d k with
  | Some v => Ok (v, dict_remove d k)
  | None => Raise (KeyError k)
  end.
End dict.

(* ===================================================================== *)
(** * The tool-schema contract of the specification *)
(* ===================================================================== *)

(** [tool[k]] on a loaded JSON value: only objects can be indexed by a
    string. *)
Definition json_item (tool : json) (k : pystr) : result json :=
  match tool with
  | JDict kvs => dict_item kvs k
  | _ => Raise TypeError
  end.

Fixpoint mapM {A B} (f : A → result B) (l : list A) : result (list B) :=
  match l with
  | [] => Ok []
  | a :: l' => b ← f a ; bs ← mapM f l' ; Ok (b :: bs)
  end.

(** The specification's [to_function_call_schema]: wrap each definition and
    rename [inputSchema] to [parameters]. *)
Definition function_call_tool (tool : json) : result json :=
  name ← json_item tool (py "name") ;
  description ← json_item tool (py "description") ;
  parameters ← json_item tool (py "inputSchema") ;
  Ok (JDict [(py "type", JStr (py "function"));
             (py "function",
              JDict [(py "name", name);
                     (py "description", description);
                     (py "parameters", parameters)])]).

Definition to_function_call_schema (tools : list json) : result (list json) :=
  mapM function_call_tool tools.

(** The specification's [to_native_tool_schema]: rename [inputSchema] to
    [input_schema], every other key kept. *)
Definition native_tool (tool : json) : result json :=
  match tool with
  | JDict kvs =>
      '(v, kvs') ← dict_pop kvs (py "inputSchema") ;
      Ok (JDict (dict_set kvs' (py "input_schema") v))
  | JList _ => Raise TypeError
  | _ => Raise AttributeError
  end.

Definition to_native_tool_schema (tools : list json) : result (list json) :=
  mapM native_tool tools.

(* ===================================================================== *)
(** * Provider adapters *)
(* ===================================================================== *)

(** A dataset example as the experiment platform hands it to a task and to
    an evaluator. *)
Record example := MkExample {
  input : gmap pystr pystr;
  output : gmap pystr pystr;
}.

(** ** OpenAI chat completions: request and response *)

Record chat_message := ChatMessage {
  role : pystr;
  content : option pystr;
}.

Record openai_request := OpenAIRequest {
  oa_model : pystr;
  oa_messages : list chat_message;
  oa_tools : list json;
}.

Record function_call := FunctionCall {
  fn_name : pystr;
  fn_arguments : pystr;
}.

Record tool_call := ToolCall {
  call_id : pystr;
  call_function : function_call;
}.

Record completion_message := CompletionMessage {
  msg_content : option pystr;
  msg_tool_calls : option (list tool_call);
}.

Record chat_completion := ChatCompletion {
  choices : list completion_message;
}.

(** ** Anthropic messages: request and response *)

Record anthropic_request := AnthropicRequest {
  an_model : pystr;
  an_system : pystr;
  an_messages : list chat_message;
  an_tools : list json;
  an_max_tokens : Z;
  an_timeout : Z;
}.

Inductive content_block :=
  | TextBlock (text : pystr)
  | ToolUseBlock (id name : pystr) (args : json)
  | ThinkingBlock (thinking : pystr).

(** [content.type] *)
Definition block_type (c : content_block) : pystr :=
  match c with
  | TextBlock _ => py "text"
  | ToolUseBlock _ _ _ => py "tool_use"
  | ThinkingBlock _ => py "thinking"
  end.

(** [content.name]: only tool-use blocks carry the attribute. *)
Definition block_name (c : content_block) : result pystr :=
  match c with
  | ToolUseBlock _ name _ => Ok name
  | _ => Raise AttributeError
  end.

Record anthropic_message := AnthropicMessage {
  an_content : list content_block;
}.

(** [bool(x)] for an attribute that is [None] or a list *)
Definition truthy_list {A} (x : option (list A)) : bool :=
  match x with
  | Some (_ :: _) => true
  | _ => false
  end.

(** The part of the OpenAI task after the provider has answered
    (lines 70-74): at most the first tool call is appended. *)
Definition openai_tool_calls (response : chat_completion) : result (list pystr) :=
  let tool_calls := [] in
  match choices response with
  | [] => Raise IndexError
  | choice0 :: _ =>
      if truthy_list (msg_tool_calls choice0) then
        match msg_tool_calls choice0 with
        | Some (call0 :: _) => Ok (tool_calls ++ [fn_name (call_function call0)])
        | _ => Raise IndexError
        end
      else Ok tool_calls
  end.

(** The part of the Anthropic task after the provider has answered
    (lines 91-96): the loop appends the name of every tool-use block. *)
Fixpoint anthropic_loop (tool_calls : list pystr) (contents : list content_block)
  : result (list pystr) :=
  match contents with
  | [] => Ok tool_calls
  | content :: rest =>
      if decide (block_type content = py "tool_use") then
        name ← block_name content;
        anthropic_loop (tool_calls ++ [name]) rest
      else anthropic_loop tool_calls rest
  end.

Definition anthropic_tool_calls (response : anthropic_message) : result (list pystr) :=
  anthropic_loop [] (an_content response).

(* ===================================================================== *)
(** * Aggregation and threshold gate *)
(* ===================================================================== *)

(** [a < b] on rationals, as a boolean *)
Definition Qltb (a b : Q) : bool := negb (Qle_bool b a).

(** One row of [experiment.get_evaluations()].  A missing score (NaN in
    the data frame) is [None]. *)
Record evaluation := Evaluation {
  score : option Q;
  label : option pystr;
}.

(** [evaluations_df['score'] > 0.5], row by row; NaN compares false. *)
Definition score_gt_half (e : evaluation) : bool :=
  match score e with
  | Some s => Qltb (1 # 2) s
  | None => false
  end.

(** [a / b] on integers *)
Definition truediv (a b : Z) : result Q :=
  if decide (b = 0%Z) then Raise ZeroDivisionError
  else Ok (inject_Z a / inject_Z b)%Q.

(** What [experiment.get_evaluations()] returns: a data frame, with the
    labels of its columns and its rows.  What a row holds under a label
    the frame does not have is never looked at. *)
Record data_frame := DataFrame {
  df_columns : list pystr;
  df_rows : list evaluation;
}.

(** [evaluations_df['score'] > 0.5]: the column is looked up first, and a
    frame without it raises [KeyError('score')], rows or no rows. *)
Definition score_mask (evaluations_df : data_frame) : result (list bool) :=
  if decide (py "score" ∈ df_columns evaluations_df)
  then Ok (score_gt_half <$> df_rows evaluations_df)
  else Raise (KeyError (py "score")).

(** [len(evaluations_df[mask])]: the rows the mask selects. *)
Definition count_true (mask : list bool) : nat :=
  length (filter (λ b, b = true) mask).

(** Lines 174-176, in the order they run: the length, the selection by
    score, and only then the guarded division. *)
Definition aggregate (evaluations_df : data_frame) : result (Q * Z * Z) :=
  let total_cases := Z.of_nat (length (df_rows evaluations_df)) in
  mask ← score_mask evaluations_df;
  let correct_cases := Z.of_nat (count_true mask) in
  accuracy ← (if decide (total_cases > 0)%Z
              then truediv correct_cases total_cases
              else Ok 0%Q);
  Ok (accuracy, correct_cases, total_cases).

(** The columns of the sample printed at line 184. *)
Definition sample_columns : list pystr :=
  [py "score"; py "label"; py "output"; py "expected"].

(** An entry of [results].  The two dictionary literals of [main] do not
    have the same keys: evaluated models are stored under ['model'] with an
    ['experiment_id'], skipped ones under ['model_name'] without it; a key
    that a literal does not have is [None] here. *)
Record model_summary := ModelSummary {
  model : option pystr;
  model_name : option pystr;
  accuracy : Q;
  correct : Z;
  total : Z;
  experiment_id : option pystr;
  error : option pystr;
}.

(** Line 201: [all(r.get('accuracy', 0) >= PASS_THRESHOLD for r in results
    if r.get('error') is None)].  Every entry has both keys, so the
    defaults of [get] are never used. *)
Definition all_passed (PASS_THRESHOLD : Q) (results : list model_summary) : bool :=
  forallb (λ r, Qle_bool PASS_THRESHOLD (accuracy r))
          (filter (λ r, error r = None) results).

(** The specification's per-model notion: a model passes iff it has no
    error and its accuracy reaches the threshold. *)
Definition passes (pass_threshold : Q) (r : model_summary) : Prop :=
  error r = None ∧ (pass_threshold <= accuracy r)%Q.

(** Line 209. *)
Definition exit_code_of (all_passed : bool) : Z :=
  if all_passed then 0%Z else 1%Z.

(* ===================================================================== *)
(** * The experiment runner: [main] *)
(* ===================================================================== *)

Record dataset := Dataset {
  ds_id : pystr;
  ds_examples : list example;
}.

(** What [run_experiment] returns, as far as [main] reads it:
    [experiment.id] and [experiment.get_evaluations()]. *)
Record experiment := Experiment {
  exp_id : pystr;
  exp_evaluations : data_frame;
}.

(** [len(v)] for a loaded JSON value: [None], a boolean or a number has
    no length. *)
Definition json_len (v : json) : result nat :=
  match v with
  | JList xs => Ok (length xs)
  | JDict kvs => Ok (length kvs)
  | JStr s => Ok (length s)
  | _ => Raise TypeError
  end.

(** What [for tool in tools] goes through: the items of a list, the keys
    of an object, the characters of a string. *)
Definition catalog_items (tools : json) : list json :=
  match tools with
  | JList xs => xs
  | JDict kvs => JStr <$> kvs.*1
  | JStr s => (λ c, JStr [c]) <$> s
  | _ => []
  end.

(** How a run of [main] ends. *)
Inductive outcome :=
  | Returned (code : Z)
  | SysExit (code : Z)
  | Uncaught (e : exn).

Inductive step (A : Type) :=
  | Next (a : A)
  | Stop (o : outcome).
Arguments Next {A} a.
Arguments Stop {A} o.

(** Everything [main] takes from outside the two files: the constants of
    [config.py], the file system, the two provider clients and the
    experiment platform.  Each call may fail and may change the [world].
    [json_load] gives whatever JSON value tools.json holds;
    [phoenix_client] is the constructor [PhoenixClient()];
    [not_in_index] is the text of the [KeyError] the data frame raises
    for the labels it does not have. *)
Class Env (world : Type) := {
  MODELS_TO_EVALUATE : list pystr;
  SYSTEM_PROMPT : pystr;
  DATASET_NAME : pystr;
  PASS_THRESHOLD : Q;
  validate_env_vars : world → bool * world;
  tools_path_exists : world → bool * world;
  json_load : world → result json * world;
  phoenix_client : world → result unit * world;
  not_in_index : list pystr → pystr;
  chat_completions_create : openai_request → world → result chat_completion * world;
  messages_create : anthropic_request → world → result anthropic_message * world;
  get_dataset : pystr → world → result dataset * world;
  run_experiment :
    dataset →
    (example → world → result (list pystr) * world) →
    (gmap pystr pystr → list pystr → bool) →
    pystr → pystr →
    world → result experiment * world;
}.

Section runner.
Context {world : Type} `{!Env world}.

(** [load_tools] *)
Definition load_tools (w : world) : step json * world :=
  let '(found, w) := tools_path_exists w in
  if negb found then (Stop (SysExit 1), w)
  else
    let '(r, w) := json_load w in
    match r with
    | Ok tools => (Next tools, w)
    | Raise e => (Stop (Uncaught e), w)
    end.

(** The closure returned by [create_openai_task].  The catalog is only
    read: [transform_tools_to_openai_format(tools)] is taken here at the
    level of JSON values, which [HeapFacts.openai_tree] relates to the
    transform on Python objects. *)
Definition create_openai_task (model_name : pystr) (tools : list json)
    (ex : example) (w : world) : result (list pystr) * world :=
  let messages :=
    [ ChatMessage (py "system") (Some SYSTEM_PROMPT);
      ChatMessage (py "user") (input ex !! py "question") ] in
  match to_function_call_schema tools with
  | Raise e => (Raise e, w)
  | Ok schema =>
      let '(r, w) :=
        chat_completions_create (OpenAIRequest model_name messages schema) w in
      match r with
      | Raise e => (Raise e, w)
      | Ok response => (openai_tool_calls response, w)
      end
  end.

(** The closure returned by [create_anthropic_task]; the schema is taken
    at the level of JSON values as above ([HeapFacts.anthropic_tree]).
    [Anthropic(timeout=10)] is kept with the request. *)
Definition create_anthropic_task (model_name : pystr) (tools : list json)
    (ex : example) (w : world) : result (list pystr) * world :=
  let messages := [ ChatMessage (py "user") (input ex !! py "question") ] in
  match to_native_tool_schema tools with
  | Raise e => (Raise e, w)
  | Ok schema =>
      let '(r, w) :=
        messages_create
          (AnthropicRequest model_name SYSTEM_PROMPT messages schema 2048 10) w in
      match r with
      | Raise e => (Raise e, w)
      | Ok response => (anthropic_tool_calls response, w)
      end
  end.

(** The entry appended for a model of unknown type (lines 154-156). *)
Definition unknown_model (model_name : pystr) : model_summary :=
  {| model := None; model_name := Some model_name;
     accuracy := 0; correct := 0; total := 0;
     experiment_id := None; error := Some (py "Unknown model type") |}.

(** Lines 182-184: the sample is printed when the frame has a row;
    selecting the four columns raises [KeyError] when one is missing. *)
Definition print_sample (evaluations_df : data_frame) : result unit :=
  if decide (0 < length (df_rows evaluations_df)) then
    match filter (λ c, c ∉ df_columns evaluations_df) sample_columns with
    | [] => Ok ()
    | missing => Raise (KeyError (not_in_index missing))
    end
  else Ok ().

(** Lines 159-198 for one model whose task function is known. *)
Definition evaluate_model (ds : dataset)
    (task_fnc : example → world → result (list pystr) * world)
    (model_name : pystr) (w : world) : result model_summary * world :=
  let error := None in
  let experiment_name := py "MCP tool calling eval " ++ model_name in
  let experiment_description :=
    py "Evaluation of " ++ model_name ++ py " on MCP tool calling" in
  let '(r, w) :=
    run_experiment ds task_fnc tools_match
      experiment_name experiment_description w in
  match r with
  | Raise e => (Raise e, w)
  | Ok experiment =>
      let evaluations_df := exp_evaluations experiment in
      match aggregate evaluations_df with
      | Raise e => (Raise e, w)
      | Ok (accuracy, correct_cases, total_cases) =>
          match print_sample evaluations_df with
          | Raise e => (Raise e, w)
          | Ok _ =>
              (Ok {| model := Some model_name; model_name := None;
                     accuracy := accuracy; correct := correct_cases;
                     total := total_cases;
                     experiment_id := Some (exp_id experiment);
                     error := error |}, w)
          end
      end
  end.

(** The loop over [MODELS_TO_EVALUATE] (lines 138-198). *)
Fixpoint run_models (ds : dataset) (tools : list json) (models : list pystr)
    (results : list model_summary) (w : world)
  : result (list model_summary) * world :=
  match models with
  | [] => (Ok results, w)
  | model_name :: rest =>
      if startswith model_name (py "gpt") then
        let '(r, w) :=
          evaluate_model ds (create_openai_task model_name tools) model_name w in
        match r with
        | Raise e => (Raise e, w)
        | Ok summary => run_models ds tools rest (results ++ [summary]) w
        end
      else if startswith model_name (py "claude") then
        let '(r, w) :=
          evaluate_model ds (create_anthropic_task model_name tools) model_name w in
        match r with
        | Raise e => (Raise e, w)
        | Ok summary => run_models ds tools rest (results ++ [summary]) w
        end
      else
        run_models ds tools rest (results ++ [unknown_model model_name]) w
  end.

(** [main] up to the gate (lines 112-198): the list [results], unless the
    run ends before.  [len(tools)] (line 121) and [PhoenixClient()]
    (line 124) are outside any [try]; the task functions get [tools] as
    it is, and their transforms go through [catalog_items tools]. *)
Definition collect_results (w : world) : step (list model_summary) * world :=
  let '(valid, w) := validate_env_vars w in
  if negb valid then (Stop (SysExit 1), w)
  else
    let '(t, w) := load_tools w in
    match t with
    | Stop o => (Stop o, w)
    | Next tools =>
        match json_len tools with
        | Raise e => (Stop (Uncaught e), w)
        | Ok _ =>
            let '(c, w) := phoenix_client w in
            match c with
            | Raise e => (Stop (Uncaught e), w)
            | Ok _ =>
                let '(d, w) := get_dataset DATASET_NAME w in
                match d with
                | Raise _ => (Stop (SysExit 1), w)
                | Ok ds =>
                    let '(r, w) :=
                      run_models ds (catalog_items tools)
                                 MODELS_TO_EVALUATE [] w in
                    match r with
                    | Raise e => (Stop (Uncaught e), w)
                    | Ok results => (Next results, w)
                    end
                end
            end
        end
    end.

(** [main]: lines 200-209 after [collect_results]. *)
Definition main (w : world) : outcome * world :=
  let '(s, w) := collect_results w in
  match s with
  | Stop o => (o, w)
  | Next results =>
      (Returned (exit_code_of (all_passed PASS_THRESHOLD results)), w)
  end.

(** The [__main__] block: [sys.exit(main())]; an exception that nothing
    catches ends the interpreter with status 1. *)
Definition process_exit_code (w : world) : Z :=
  match (main w).1 with
  | Returned code => code
  | SysExit code => code
  | Uncaught _ => 1%Z
  end.
End runner.

(* ===================================================================== *)
(** * Scripted environments for closed examples *)
(* ===================================================================== *)

(** The world of a scripted environment is the log of the calls that left
    the process. *)
Inductive event :=
  | OpenAICall (req : openai_request)
  | AnthropicCall (req : anthropic_request)
  | ExperimentRun (name : pystr).

Record script := Script {
  s_models : list pystr;
  s_threshold : Q;
  s_tools : list json;
  s_dataset : dataset;
  s_openai : openai_request → result chat_completion;
  s_anthropic : anthropic_request → result anthropic_message;
  (** does the platform turn a failed task into a row without score? *)
  s_isolating : bool;
}.

Section scripted.
Context {world : Type}.
Variable isolating : bool.
Variable task : example → world → result (list pystr) * world.
Variable evaluator : gmap pystr pystr → list pystr → bool.

(** One platform among the possible ones: the examples are run in
    order; the row of a successful task carries the evaluator's verdict
    as score 1 or 0. *)
Fixpoint run_examples (exs : list example) (w : world)
  : result (list evaluation) * world :=
  match exs with
  | [] => (Ok [], w)
  | ex :: rest =>
      let '(r, w) := task ex w in
      match r with
      | Ok out =>
          let row :=
            if evaluator (output ex) out
            then Evaluation (Some 1%Q) (Some (py "True"))
            else Evaluation (Some 0%Q) (Some (py "False")) in
          let '(rows, w) := run_examples rest w in
          (rows ← rows; Ok (row :: rows), w)
      | Raise e =>
          if isolating then
            let '(rows, w) := run_examples rest w in
            (rows ← rows; Ok (Evaluation None None :: rows), w)
          else (Raise e, w)
      end
  end.
End scripted.

(** The frame of the scripted platform: all four columns when there is
    a row, no column at all when there is none. *)
Definition frame_of (rows : list evaluation) : data_frame :=
  DataFrame (if rows is [] then [] else sample_columns) rows.

Definition scripted (s : script) : Env (list event) := {|
  MODELS_TO_EVALUATE := s_models s;
  SYSTEM_PROMPT := py "You are a helpful assistant";
  DATASET_NAME := ds_id (s_dataset s);
  PASS_THRESHOLD := s_threshold s;
  validate_env_vars w := (true, w);
  tools_path_exists w := (true, w);
  json_load w := (Ok (JList (s_tools s)), w);
  phoenix_client w := (Ok (), w);
  not_in_index missing := join (py ", ") missing ++ py " not in index";
  chat_completions_create req w := (s_openai s req, w ++ [OpenAICall req]);
  messages_create req w := (s_anthropic s req, w ++ [AnthropicCall req]);
  get_dataset name w := (Ok (s_dataset s), w);
  run_experiment ds task evaluator name description w :=
    let '(rows, w) :=
      run_examples (s_isolating s) task evaluator (ds_examples ds)
                   (w ++ [ExperimentRun name]) in
    (rows ← rows; Ok (Experiment name (frame_of rows)), w);
|}.

(** ** Sample data *)

Definition sample_tool : json :=
  JDict [(py "name", JStr (py "x"));
         (py "description", JStr (py "d"));
         (py "inputSchema", JDict [(py "type", JStr (py "object"))])].

Definition sample_example (question tool_calls : string) : example :=
  MkExample {[ py "question" := py question ]}
            {[ py "tool_calls" := py tool_calls ]}.

Definition sample_dataset : dataset :=
  Dataset (py "ds-1")
    [ sample_example "q1" "x"; sample_example "q2" "x";
      sample_example "q3" "y" ].

(** A provider that always asks for tool [x], twice in parallel. *)
Definition calls_x_twice (req : openai_request) : result chat_completion :=
  Ok (ChatCompletion
        [CompletionMessage None
           (Some [ToolCall (py "c1") (FunctionCall (py "x") (py "{}"));
                  ToolCall (py "c2") (FunctionCall (py "x") (py "{}"))])]).

(** A provider that answers with text and two tool-use blocks. *)
Definition uses_x_then_y (req : anthropic_request) : result anthropic_message :=
  Ok (AnthropicMessage
        [TextBlock (py "Let me look");
         ToolUseBlock (py "t1") (py "x") JNull;
         ThinkingBlock (py "hm");
         ToolUseBlock (py "t2") (py "y") JNull]).

(** A provider that is unreachable. *)
Definition unreachable {A B} (req : A) : result B :=
  Raise (ExternalError (py "connection refused")).

Definition sample_script (models : list string) (threshold : Q)
    (isolating : bool) : script :=
  Script (py <$> models) threshold [sample_tool] sample_dataset
         calls_x_twice uses_x_then_y isolating.

(* ===================================================================== *)
(** * Specification-level notions used in the statements *)
(* ===================================================================== *)

Global Instance Qlt_dec (a b : Q) : Decision (a < b)%Q.
Proof.
  destruct (Qlt_le_dec a b) as [H|H]; [by left|right].
  by apply Qle_not_lt.
Defined.

(** The number of rows whose score exceeds one half. *)
Fixpoint count_correct (rows : list evaluation) : nat :=
  match rows with
  | [] => 0
  | e :: rows' =>
      match score e with
      | Some s => if decide (1 # 2 < s)%Q then S (count_correct rows')
                  else count_correct rows'
      | None => count_correct rows'
      end
  end.

(** The names of the tool-use blocks of a response, in response order. *)
Fixpoint tool_use_names (contents : list content_block) : list pystr :=
  match contents with
  | [] => []
  | ToolUseBlock _ name _ :: rest => name :: tool_use_names rest
  | _ :: rest => tool_use_names rest
  end.

(** Does [sep] occur in [s]? *)
Fixpoint contains (s sep : pystr) : bool :=
  startswith s sep ||
  match s with
  | [] => false
  | _ :: s' => contains s' sep
  end.

(** A piece of a string joined by [', ']: it does not hold the
    separator. *)
Definition sep_free (p : pystr) : Prop := contains p (py ", ") = false.

(** The expected names read off the pieces of the stored string: the
    pieces that are not blank, each without its surrounding whitespace. *)
Definition names_of (pieces : list pystr) : list pystr :=
  strip <$> filter (λ p, strip p ≠ []) pieces.

(** The expected names as claim C1 words them: the entries of the
    string joined by comma and space, without those that are empty or
    all whitespace; the entries that are kept are left as they are. *)
Definition claimed_expected_tools (expected : gmap pystr pystr) : list pystr :=
  filter (λ tool, strip tool ≠ [])
         (split (py ", ") (default [] (expected !! py "tool_calls"))).

(** The matcher as claim C1 words it. *)
Definition claimed_tools_match (expected : gmap pystr pystr)
    (observed : list pystr) : bool :=
  bool_decide (sorted (claimed_expected_tools expected) = sorted observed).

(** The names claim C7 promises for a provider response: none when the
    response holds no tool call, else the name of the first one. *)
Definition claimed_tool_names (response : chat_completion) : list pystr :=
  match choices response with
  | choice0 :: _ =>
      match msg_tool_calls choice0 with
      | Some (call0 :: _) => [fn_name (call_function call0)]
      | _ => []
      end
  | [] => []
  end.

(** The record whose only key is ['tool_calls']. *)
Definition record_of (tool_calls : pystr) : gmap pystr pystr :=
  {[ py "tool_calls" := tool_calls ]}.

Definition str_eq_dec (s t : pystr) : {s = t} + {s ≠ t} := decide (s = t).

(** A tool name as dataset creation expects it: not empty, no comma, no
    whitespace at either end. *)
Definition clean_name (s : pystr) : Prop :=
  s ≠ [] ∧ (44%N ∉ s) ∧
  (∀ c, head s = Some c → is_space c = false) ∧
  (∀ c, last s = Some c → is_space c = false).

(* ===================================================================== *)
(** * The tool catalog as Python objects *)
(* ===================================================================== *)

Module Heap.

Abbreviation loc := positive.

(** A Python value: an immutable atom or a reference to a container. *)
Inductive val :=
  | VNone
  | VBool (b : bool)
  | VNum (q : Q)
  | VStr (s : pystr)
  | VRef (l : loc).

(** A mutable container. *)
Inductive obj :=
  | OList (items : list val)
  | ODict (entries : list (pystr * val)).

Abbreviation heap := (gmap loc obj).

(** Computations on the heap that may raise.  The heap is returned in
    both cases: what was written before an exception stays written. *)
Definition M (A : Type) : Type := heap → result A * heap.

Global Instance M_ret : MRet M := λ A a h, (Ok a, h).
Global Instance M_bind : MBind M := λ A B k m h,
  match m h with
  | (Ok a, h') => k a h'
  | (Raise e, h') => (Raise e, h')
  end.

Definition raise {A} (e : exn) : M A := λ h, (Raise e, h).

Definition lift {A} (r : result A) : M A := λ h, (r, h).

(** A new object at an address that is not in use. *)
Definition alloc (o : obj) : M loc := λ h,
  let l := fresh (dom h) in (Ok l, <[l := o]> h).

(** Dereference.  Python has no dangling references; on a heap that has
    one the model raises [SystemError]. *)
Definition deref (l : loc) : M obj := λ h,
  match h !! l with
  | Some o => (Ok o, h)
  | None => (Raise SystemError, h)
  end.

Definition store (l : loc) (o : obj) : M unit := λ h, (Ok (), <[l := o]> h).

Fixpoint mapH {A B} (f : A → M B) (l : list A) : M (list B) :=
  match l with
  | [] => mret []
  | a :: l' => b ← f a; bs ← mapH f l'; mret (b :: bs)
  end.

(** ** [json.load] *)

Definition atom (j : json) : option val :=
  match j with
  | JNull => Some VNone
  | JBool b => Some (VBool b)
  | JNum q => Some (VNum q)
  | JStr s => Some (VStr s)
  | JList _ | JDict _ => None
  end.

Fixpoint load (j : json) : M val :=
  match j with
  | JNull => mret VNone
  | JBool b => mret (VBool b)
  | JNum q => mret (VNum q)
  | JStr s => mret (VStr s)
  | JList xs =>
      vs ← (fix load_items (xs : list json) : M (list val) :=
              match xs with
              | [] => mret []
              | x :: xs' => v ← load x; vs ← load_items xs'; mret (v :: vs)
              end) xs;
      l ← alloc (OList vs);
      mret (VRef l)
  | JDict kvs =>
      vs ← (fix load_items (kvs : list (pystr * json)) : M (list val) :=
              match kvs with
              | [] => mret []
              | kv :: kvs' => v ← load kv.2; vs ← load_items kvs'; mret (v :: vs)
              end) kvs;
      l ← alloc (ODict (zip kvs.*1 vs));
      mret (VRef l)
  end.

(** ** Subscript, iteration, [pop] and item assignment *)

(** [x[k]] for a string [k] *)
Definition getitem (x : val) (k : pystr) : M val :=
  match x with
  | VRef l =>
      o ← deref l;
      match o with
      | ODict entries => lift (dict_item entries k)
      | OList _ => raise TypeError
      end
  | _ => raise TypeError
  end.

(** The items that [for a in x] goes through; the loops of this program
    never change [x] itself while they run. *)
Definition iter (x : val) : M (list val) :=
  match x with
  | VRef l =>
      o ← deref l;
      match o with
      | OList items => mret items
      | ODict entries => mret (VStr <$> entries.*1)
      end
  | VStr s => mret ((λ c, VStr [c]) <$> s)
  | _ => raise TypeError
  end.

(** [x.pop(k)] for a string [k] *)
Definition pop (x : val) (k : pystr) : M val :=
  match x with
  | VRef l =>
      o ← deref l;
      match o with
      | ODict entries =>
          '(v, entries') ← lift (dict_pop entries k);
          _ ← store l (ODict entries');
          mret v
      | OList _ => raise TypeError
      end
  | _ => raise AttributeError
  end.

(** [x[k] = v] for a string [k] *)
Definition setitem (x : val) (k : pystr) (v : val) : M unit :=
  match x with
  | VRef l =>
      o ← deref l;
      match o with
      | ODict entries => store l (ODict (dict_set entries k v))
      | OList _ => raise TypeError
      end
  | _ => raise TypeError
  end.

(** ** [copy.deepcopy] *)

Definition children (o : obj) : list val :=
  match o with
  | OList items => items
  | ODict entries => entries.*2
  end.

Definition with_children (o : obj) (vs : list val) : obj :=
  match o with
  | OList _ => OList vs
  | ODict entries => ODict (zip entries.*1 vs)
  end.

(** [deepcopy(x, memo)].  A container that is not in [memo] gets a new,
    empty copy [y], which is registered in [memo] before the items are
    copied in order; the copies are stored in [y] once all are there
    (CPython stores them one at a time, which nothing can see before
    [deepcopy] returns: [y] is reachable from [memo] only).  [depth] is
    what is left of the interpreter's recursion limit. *)
Fixpoint deepcopy_memo (depth : nat) (x : val) (memo : gmap loc loc)
  : M (val * gmap loc loc) :=
  match x with
  | VRef l =>
      match memo !! l with
      | Some y => mret (VRef y, memo)
      | None =>
          match depth with
          | 0 => raise RecursionError
          | S depth' =>
              o ← deref l;
              y ← alloc (with_children o []);
              '(vs, memo) ←
                (fix copy_items (items : list val) (memo : gmap loc loc)
                   : M (list val * gmap loc loc) :=
                   match items with
                   | [] => mret ([], memo)
                   | a :: items' =>
                       '(a', memo) ← deepcopy_memo depth' a memo;
                       '(vs, memo) ← copy_items items' memo;
                       mret (a' :: vs, memo)
                   end) (children o) (<[l := y]> memo);
              _ ← store y (with_children o vs);
              mret (VRef y, memo)
          end
      end
  | _ => mret (x, memo)
  end.

(** The loop over the items, on its own. *)
Fixpoint copy_items (depth : nat) (items : list val) (memo : gmap loc loc)
  : M (list val * gmap loc loc) :=
  match items with
  | [] => mret ([], memo)
  | a :: items' =>
      '(a', memo) ← deepcopy_memo depth a memo;
      '(vs, memo) ← copy_items depth items' memo;
      mret (a' :: vs, memo)
  end.

(** [deepcopy(x)] *)
Definition deepcopy (depth : nat) (x : val) : M val :=
  '(y, _) ← deepcopy_memo depth x ∅; mret y.

(** ** The two transforms *)

(** The element of the list comprehension of
    [transform_tools_to_openai_format]. *)
Definition openai_entry (tool : val) : M val :=
  name ← getitem tool (py "name");
  description ← getitem tool (py "description");
  parameters ← getitem tool (py "inputSchema");
  function ← alloc (ODict [(py "name", name);
                           (py "description", description);
                           (py "parameters", parameters)]);
  entry ← alloc (ODict [(py "type", VStr (py "function"));
                        (py "function", VRef function)]);
  mret (VRef entry).

Definition transform_tools_to_openai_format (tools : val) : M val :=
  items ← iter tools;
  entries ← mapH openai_entry items;
  l ← alloc (OList entries);
  mret (VRef l).

(** The body of the loop of [transform_tools_to_antrophic_format]. *)
Definition rename_input_schema (tool_ : val) : M unit :=
  v ← pop tool_ (py "inputSchema");
  setitem tool_ (py "input_schema") v.

Definition transform_tools_to_antrophic_format (depth : nat) (tools : val)
  : M val :=
  t ← deepcopy depth tools;
  items ← iter t;
  _ ← mapH rename_input_schema items;
  mret t.

(** ** What a value stands for *)

(** The container [json.load] builds for [j] once its items are there. *)
Definition build (j : json) (vs : list val) : obj :=
  match j with
  | JDict kjs => ODict (zip kjs.*1 vs)
  | _ => OList vs
  end.

Definition jchildren (j : json) : list json :=
  match j with
  | JList xs => xs
  | JDict kjs => kjs.*2
  | _ => []
  end.

(** Same kind of container, and for a dictionary the same keys in the
    same order. *)
Definition same_shape (o : obj) (j : json) : Prop :=
  match o, j with
  | OList _, JList _ => True
  | ODict entries, JDict kjs => entries.*1 = kjs.*1
  | _, _ => False
  end.

(** [tree h v j L]: in heap [h] the value [v] reads as the JSON value
    [j], and [L] lists, in prefix order, the addresses of the containers
    this reading goes through. *)
#[warnings="-register-all"]
Inductive tree (h : heap) : val → json → list loc → Prop :=
  | tree_atom j v : atom j = Some v → tree h v j []
  | tree_node l o j Ls :
      h !! l = Some o →
      same_shape o j →
      Forall3 (tree h) (children o) (jchildren j) Ls →
      tree h (VRef l) j (l :: concat Ls).

Definition repr (h : heap) (v : val) (j : json) : Prop :=
  ∃ L, tree h v j L.

(** The containers of the reading are all outside [h0]. *)
Definition repr_outside (h0 h : heap) (v : val) (j : json) : Prop :=
  ∃ L, tree h v j L ∧ ∀ l, l ∈ L → h0 !! l = None.

(** Nesting depth of containers. *)
Fixpoint height (j : json) : nat :=
  match j with
  | JList xs =>
      S ((fix go (xs : list json) : nat :=
            match xs with
            | [] => 0
            | x :: xs' => height x `max` go xs'
            end) xs)
  | JDict kjs =>
      S ((fix go (kjs : list (pystr * json)) : nat :=
            match kjs with
            | [] => 0
            | kj :: kjs' => height kj.2 `max` go kjs'
            end) kjs)
  | _ => 0
  end.

(** ** Notions used in the statements *)

(** A value that does not point into [h0]. *)
Definition new_val (h0 : heap) (v : val) : Prop :=
  match v with
  | VRef l => h0 !! l = None
  | _ => True
  end.

Definition memo_new (h0 : heap) (memo : gmap loc loc) : Prop :=
  ∀ l y, memo !! l = Some y → h0 !! y = None.

(** The items of the list a value stands for. *)
Definition items_of (h : heap) (x : val) : list val :=
  match x with
  | VRef l =>
      match h !! l with
      | Some (OList items) => items
      | _ => []
      end
  | _ => []
  end.

(** What a value has under a key, read off the heap. *)
Definition field (h : heap) (x : val) (k : pystr) : option val :=
  match x with
  | VRef l =>
      match h !! l with
      | Some (ODict entries) => dict_get entries k
      | _ => None
      end
  | _ => None
  end.

(** The entry built for [tool] wraps new dictionaries around the values
    the tool has: its [parameters] is the tool's own [inputSchema]. *)
Definition wraps (h h' : heap) (tool entry : val) : Prop :=
  new_val h entry ∧
  ∃ function parameters,
    field h' entry (py "function") = Some function ∧
    new_val h function ∧
    field h' function (py "parameters") = Some parameters ∧
    field h tool (py "inputSchema") = Some parameters.

(** [m] leaves every object of [h0] as it is. *)
Definition keeps {A} (h0 : heap) (m : M A) : Prop :=
  ∀ h r h', h0 ⊆ h → m h = (r, h') → h0 ⊆ h'.

(** A heap dictionary and a JSON object, entry by entry: same keys, and
    values related by [T]. *)
Definition entries_rel (T : val → json → list loc → Prop) :
  list (pystr * val) → list (pystr * json) → list (list loc) → Prop :=
  Forall3 (λ e kj L, e.1 = kj.1 ∧ T e.2 kj.2 L).

(** [json.load] of [j] builds a tree of new objects. *)
Definition loads_tree (j : json) : Prop :=
  ∀ h, ∃ v L h',
    load j h = (Ok v, h') ∧ h ⊆ h' ∧ tree h' v j L ∧ NoDup L ∧
    ∀ l, l ∈ L → h !! l = None.

(** [deepcopy] of a tree for [j] builds a tree of new objects. *)
Definition copies_tree (j : json) : Prop :=
  ∀ d v memo h L,
    tree h v j L → NoDup L → (∀ l, l ∈ L → memo !! l = None) →
    height j ≤ d →
    ∃ v' memo' h' L',
      deepcopy_memo d v memo h = (Ok (v', memo'), h') ∧ h ⊆ h' ∧
      tree h' v' j L' ∧ NoDup L' ∧ (∀ l, l ∈ L' → h !! l = None) ∧
      (∀ l, memo' !! l = None ↔ memo !! l = None ∧ l ∉ L).

(** [deepcopy] writes into the copies only, and what it returns does
    not point into the heap it started from. *)
Definition copy_sound (h0 : heap) (d : nat) : Prop :=
  ∀ x memo h r h',
    h0 ⊆ h → memo_new h0 memo → deepcopy_memo d x memo h = (r, h') →
    h0 ⊆ h' ∧
    match r with
    | Ok (v', memo') => memo_new h0 memo' ∧ new_val h0 v'
    | Raise _ => True
    end.

End Heap.

(* ===================================================================== *)
(** * Statements and environments of the examples *)
(* ===================================================================== *)

(** The exit contract as the specification words it: 0 iff every model
    without error reaches the threshold, and 1 as soon as a model carries
    an error. *)
Definition exit_code_as_claimed {world} `{!Env world} (w : world) : Prop :=
  ∀ results w',
    collect_results w = (Next results, w') →
    (process_exit_code w = 0%Z ↔
     ∀ r, r ∈ results → error r = None → (PASS_THRESHOLD <= accuracy r)%Q) ∧
    ((∃ r, r ∈ results ∧ error r ≠ None) → process_exit_code w = 1%Z).

(** Sample configurations. *)
Definition only_unknown : Env (list event) :=
  scripted (sample_script ["llama-3"] (8 # 10) true).

Definition three_models : Env (list event) :=
  scripted (sample_script ["gpt-4o"; "llama-3"; "claude-3"] (8 # 10) true).

(** The OpenAI endpoint cannot be reached. *)
Definition openai_down (isolating : bool) : Env (list event) :=
  scripted (Script [py "gpt-4o"; py "claude-3"] (8 # 10) [sample_tool]
              sample_dataset unreachable uses_x_then_y isolating).

(* ===================================================================== *)
(** * Notions for the further properties of [main] *)
(* ===================================================================== *)

(** The test of lines 148-152: does [main] have an adapter for the name? *)
Definition known_model (name : pystr) : bool :=
  startswith name (py "gpt") || startswith name (py "claude").

(** What the entry of an evaluated model looks like. *)
Definition evaluated_entry (name : pystr) (r : model_summary) : Prop :=
  model r = Some name ∧ model_name r = None ∧ error r = None ∧
  is_Some (experiment_id r) ∧
  (0 <= correct r <= total r)%Z ∧
  (accuracy r == if decide (total r = 0)%Z then 0
                 else correct r # Z.to_pos (total r))%Q ∧
  (0 <= accuracy r <= 1)%Q.

Section prelude.
Context {world : Type} `{!Env world}.

(** The environment is valid, tools.json exists and [json.load] has
    given [tools]; [w'] is the world then. *)
Definition has_loaded (w : world) (tools : json) (w' : world) : Prop :=
  ∃ wa wb,
    validate_env_vars w = (true, wa) ∧
    tools_path_exists wa = (true, wb) ∧
    json_load wb = (Ok tools, w').

(** [main] has come to the loop over the models: [tools] is loaded and
    has a length, the client is made and the dataset [ds] is fetched;
    [w0] is the world then. *)
Definition reaches_loop (w : world) (tools : json) (ds : dataset)
    (w0 : world) : Prop :=
  ∃ wc wd n,
    has_loaded w tools wc ∧ json_len tools = Ok n ∧
    phoenix_client wc = (Ok (), wd) ∧
    get_dataset DATASET_NAME wd = (Ok ds, w0).

(** How [main] can end before the loop over the models: through
    [sys.exit(1)] when the environment is not valid, tools.json is
    missing or the dataset cannot be fetched; with the exception of
    [json.load], of [len(tools)] or of [PhoenixClient()], which nothing
    catches. *)
Definition stops_early (w : world) (o : outcome) (w' : world) : Prop :=
  match o with
  | Returned _ => False
  | SysExit code =>
      code = 1%Z ∧
      (validate_env_vars w = (false, w') ∨
       (∃ wa, validate_env_vars w = (true, wa) ∧
              tools_path_exists wa = (false, w')) ∨
       (∃ tools wc n wd e,
          has_loaded w tools wc ∧ json_len tools = Ok n ∧
          phoenix_client wc = (Ok (), wd) ∧
          get_dataset DATASET_NAME wd = (Raise e, w')))
  | Uncaught e =>
      (∃ wa wb,
         validate_env_vars w = (true, wa) ∧
         tools_path_exists wa = (true, wb) ∧
         json_load wb = (Raise e, w')) ∨
      (∃ tools, has_loaded w tools w' ∧ json_len tools = Raise e) ∨
      (∃ tools wc n,
         has_loaded w tools wc ∧ json_len tools = Ok n ∧
         phoenix_client wc = (Raise e, w'))
  end.

(** The task function of lines 148-151 for a name [main] knows. *)
Definition task_fnc_of (model_name : pystr) (tools : list json)
  : example → world → result (list pystr) * world :=
  if startswith model_name (py "gpt")
  then create_openai_task model_name tools
  else create_anthropic_task model_name tools.

(** How [run_experiment] is called for a model (lines 160-170). *)
Definition run_experiment_for (ds : dataset) (tools : list json)
    (model_name : pystr) (w : world) : result experiment * world :=
  run_experiment ds (task_fnc_of model_name tools) tools_match
    (py "MCP tool calling eval " ++ model_name)
    (py "Evaluation of " ++ model_name ++ py " on MCP tool calling") w.
End prelude.

(** The entry stored for a model whose experiment gave no row. *)
Definition empty_entry (model_name : pystr) (experiment : experiment)
  : model_summary :=
  {| model := Some model_name; model_name := None;
     accuracy := 0; correct := 0; total := 0;
     experiment_id := Some (exp_id experiment); error := None |}.

(** An evaluated entry with two of three examples right. *)
Definition two_of_three : model_summary :=
  {| model := Some (py "gpt-4o"); model_name := None;
     accuracy := 2 # 3; correct := 2; total := 3;
     experiment_id := Some (py "exp-1"); error := None |}.

(** The entry [main] stores for a configured name. *)
Definition entry_for (name : pystr) (r : model_summary) : Prop :=
  if known_model name then evaluated_entry name r
  else r = unknown_model name.

(** Configurations at the edges of the threshold. *)
Definition threshold_zero : Env (list event) :=
  scripted (sample_script ["gpt-4o"; "llama-3"] 0 true).

Definition threshold_two : Env (list event) :=
  scripted (sample_script ["gpt-4o"; "llama-3"] 2 true).

(** A dataset without examples. *)
Definition empty_dataset_run : Env (list event) :=
  scripted (Script [py "gpt-4o"] (8 # 10) [sample_tool]
              (Dataset (py "ds-0") []) calls_x_twice uses_x_then_y true).

(** ** Tools as the transforms need them *)

(** [j] is a JSON object that has every key of [ks]. *)
Definition has_keys (ks : list pystr) (j : json) : Prop :=
  ∃ kvs, j = JDict kvs ∧ Forall (λ k, is_Some (dict_get kvs k)) ks.

(** How the native-tool entry [s] relates to the tool [tool] it comes
    from: the schema has moved from [inputSchema] to [input_schema], and
    every other key has kept its value. *)
Definition renamed (tool s : json) : Prop :=
  ∃ kvs kvs' v,
    tool = JDict kvs ∧ s = JDict kvs' ∧
    dict_get kvs (py "inputSchema") = Some v ∧
    dict_get kvs' (py "input_schema") = Some v ∧
    (∀ k, k ≠ py "inputSchema" → k ≠ py "input_schema" →
          dict_get kvs' k = dict_get kvs k) ∧
    (NoDup kvs.*1 → dict_get kvs' (py "inputSchema") = None) ∧
    length kvs' ≤ length kvs.

(** The function-call entry [s] for [tool]: two keys, and under
    [function] the three values read from the tool. *)
Definition wrapped (tool s : json) : Prop :=
  ∃ name description parameters,
    json_item tool (py "name") = Ok name ∧
    json_item tool (py "description") = Ok description ∧
    json_item tool (py "inputSchema") = Ok parameters ∧
    s = JDict [(py "type", JStr (py "function"));
               (py "function",
                JDict [(py "name", name);
                       (py "description", description);
                       (py "parameters", parameters)])].

(** [k] is the first key of [ks] that [kvs] does not have. *)
Definition first_missing {V} (ks : list pystr) (kvs : list (pystr * V))
    (k : pystr) : Prop :=
  ∃ pre post,
    ks = pre ++ k :: post ∧
    Forall (λ k', is_Some (dict_get kvs k')) pre ∧ dict_get kvs k = None.

(** The exception of the function-call transform at a tool it cannot
    read. *)
Definition function_call_error (tool : json) (e : exn) : Prop :=
  match tool with
  | JDict kvs =>
      ∃ k, e = KeyError k ∧
           first_missing [py "name"; py "description"; py "inputSchema"] kvs k
  | _ => e = TypeError
  end.

(** The exception of the native-tool transform at a tool it cannot
    rename. *)
Definition native_error (tool : json) (e : exn) : Prop :=
  match tool with
  | JDict kvs =>
      e = KeyError (py "inputSchema") ∧ dict_get kvs (py "inputSchema") = None
  | JList _ => e = TypeError
  | _ => e = AttributeError
  end.

(** The catalog is [pre ++ tool :: post], every tool of [pre] is fine and
    [tool] is the first that is not. *)
Definition first_bad (ks : list pystr) (bad : json → exn → Prop)
    (catalog : list json) (e : exn) : Prop :=
  ∃ pre tool post,
    catalog = pre ++ tool :: post ∧ Forall (has_keys ks) pre ∧ bad tool e.

(** A value that reads as [j] with no container reached twice, as
    [json.load] builds it. *)
Definition unshared (h : Heap.heap) (v : Heap.val) (j : json) : Prop :=
  ∃ L, Heap.tree h v j L ∧ NoDup L.

(** Catalogs for the examples: a tool without description, and one whose
    schema is nested. *)
Definition tool_without_description : json :=
  JDict [(py "name", JStr (py "y"));
         (py "inputSchema", JDict [(py "type", JStr (py "object"))])].

Definition tool_without_schema : json :=
  JDict [(py "name", JStr (py "y")); (py "description", JStr (py "d"))].

(** [deepcopy] of a value that reads as [j] hits the recursion limit
    when [j] is nested deeper than [d]. *)
Definition too_deep (j : json) : Prop :=
  ∀ d v memo h L,
    Heap.tree h v j L → NoDup L → (∀ l, l ∈ L → memo !! l = None) →
    d < Heap.height j →
    ∃ h', Heap.deepcopy_memo d v memo h = (Raise RecursionError, h').

(* ===================================================================== *)
(** * The dataset script: [create_dataset.py] *)
(* ===================================================================== *)

Module CreateDataset.

(** What [upload_dataset] is called with; the data frame is the list of
  rows it was built from. *)
Record upload_request := UploadRequest {
up_dataframe : list json;
up_dataset_name : pystr;
up_input_keys : list pystr;
up_output_keys : list pystr;
}.

(** Everything the script takes from outside: [validate_env_vars] of
  [config.py], the file system, the text Python prints for a value
  that is not a string, and the experiment platform.  Each call may
  fail and may change the [world]. *)
Class UploadEnv (world : Type) := {
validate_env_vars : world → bool * world;
test_cases_path_exists : world → bool * world;
json_load : world → result json * world;
str_of : json → pystr;
phoenix_client : world → result unit * world;
upload_dataset : upload_request → world → result pystr * world;
}.

(** [for x in v] and [len(v)] on a loaded JSON value: both raise
  [TypeError] on a value that is no container and no string. *)
Definition json_iter (v : json) : result (list json) :=
match v with
| JList xs => Ok xs
| JDict kvs => Ok (JStr <$> kvs.*1)
| JStr s => Ok ((λ c, JStr [c]) <$> s)
| _ => Raise TypeError
end.

Definition as_str (v : json) : result pystr :=
match v with
| JStr s => Ok s
| _ => Raise TypeError
end.

(** [sep.join(v)]: the items of [v] must all be strings. *)
Definition str_join (sep : pystr) (v : json) : result pystr :=
items ← json_iter v ;
strs ← mapM as_str items ;
Ok (join sep strs).

(** The dictionary of lines 48-52; its values are evaluated in the order
  they are written. *)
Definition row_of (test_case : json) : result json :=
question ← json_item test_case (py "question") ;
expected_tools ← json_item test_case (py "expected_tools") ;
tool_calls ← str_join (py ", ") expected_tools ;
category ← json_item test_case (py "category") ;
Ok (JDict [(py "question", question);
           (py "tool_calls", JStr tool_calls);
           (py "category", category)]).

(** Lines 40-53: [test_data['test_cases']], [len(test_cases)] and the
  loop. *)
Definition dataset_rows (test_data : json) : result (list json) :=
test_cases ← json_item test_data (py "test_cases") ;
cases ← json_iter test_cases ;
mapM row_of cases.

Section script.
Context {world : Type} `{!UploadEnv world}.

(** [f'{v}'] *)
Definition fstring (v : json) : pystr :=
match v with
| JStr s => s
| _ => str_of v
end.

(** [load_test_cases] *)
Definition load_test_cases (w : world) : step json * world :=
let '(found, w) := test_cases_path_exists w in
if negb found then (Stop (SysExit 1), w)
else
let '(r, w) := json_load w in
match r with
| Ok test_data => (Next test_data, w)
| Raise e => (Stop (Uncaught e), w)
end.

(** [create_dataset]: [Next ()] when it returns. *)
Definition create_dataset (w : world) : step unit * world :=
let '(valid, w) := validate_env_vars w in
if negb valid then (Stop (SysExit 1), w)
else
let '(t, w) := load_test_cases w in
match t with
| Stop o => (Stop o, w)
| Next test_data =>
    match dataset_rows test_data with
    | Raise e => (Stop (Uncaught e), w)
    | Ok rows =>
        let '(c, w) := phoenix_client w in
        match c with
        | Raise e => (Stop (Uncaught e), w)
        | Ok _ =>
            match json_item test_data (py "version") with
            | Raise e => (Stop (Uncaught e), w)
            | Ok version =>
                let dataset_name :=
                  py "mcp_tool_calling_ground_truth_v" ++ fstring version in
                let '(r, w) :=
                  upload_dataset
                    (UploadRequest rows dataset_name
                       [py "question"] [py "tool_calls"]) w in
                match r with
                | Raise _ => (Stop (SysExit 1), w)
                | Ok _ => (Next (), w)
                end
            end
        end
    end
end.

(** The request of lines 66-71. *)
Definition upload_of (rows : list json) (version : json) : upload_request :=
UploadRequest rows (py "mcp_tool_calling_ground_truth_v" ++ fstring version)
            [py "question"] [py "tool_calls"].

(** The script has read [test_data] from the file and is in world [w']. *)
Definition has_read (w : world) (test_data : json) (w' : world) : Prop :=
∃ wa wb,
validate_env_vars w = (true, wa) ∧
test_cases_path_exists wa = (true, wb) ∧
json_load wb = (Ok test_data, w').

(** The [__main__] block: the status the process ends with. *)
Definition script_exit_code (w : world) : Z :=
match (create_dataset w).1 with
| Next _ => 0%Z
| Stop (Returned code) => code
| Stop (SysExit code) => code
| Stop (Uncaught _) => 1%Z
end.
End script.

(** ** Notions used in the statements *)

(** A test case as the file is meant to have it. *)
Definition case_json (tc : test_case) : json :=
JDict [(py "question", JStr (tc_question tc));
       (py "expected_tools", JList (JStr <$> tc_expected_tools tc));
       (py "category", JStr (tc_category tc))].

(** [j] has the three fields of [tc], whatever else it has. *)
Definition case_of (tc : test_case) (j : json) : Prop :=
json_item j (py "question") = Ok (JStr (tc_question tc)) ∧
json_item j (py "expected_tools")
= Ok (JList (JStr <$> tc_expected_tools tc)) ∧
json_item j (py "category") = Ok (JStr (tc_category tc)).

(** The JSON row holds what the record [row] holds, key by key. *)
Definition row_holds (row : gmap pystr pystr) (j : json) : Prop :=
∃ kvs, j = JDict kvs ∧ ∀ k, dict_get kvs k = JStr <$> (row !! k).

(** The strings a value yields when it is iterated. *)
Definition strings_of (v : json) (strs : list pystr) : Prop :=
match v with
| JList xs => xs = JStr <$> strs
| JStr s => strs = (λ c, [c]) <$> s
| JDict kvs => strs = kvs.*1
| _ => False
end.

(** A scripted environment: the world is the log of uploads. *)
Definition logged (test_data : json) (reachable : bool)
: UploadEnv (list upload_request) := {|
validate_env_vars w := (true, w);
test_cases_path_exists w := (true, w);
json_load w := (Ok test_data, w);
str_of v := py "?";
phoenix_client w := (Ok (), w);
upload_dataset req w :=
  (if reachable then Ok (py "ds-1")
   else Raise (ExternalError (py "connection refused")),
   w ++ [req]);
|}.

Definition sample_case : test_case :=
TestCase (py "q1") [py "x"; py "y"] (py "basic").

Definition sample_test_data : json :=
JDict [(py "version", JStr (py "1.0"));
       (py "test_cases", JList [case_json sample_case])].

(** A file where [expected_tools] is a string, not a list. *)
Definition string_test_data : json :=
JDict [(py "version", JStr (py "1.0"));
       (py "test_cases",
        JList [JDict [(py "question", JStr (py "q1"));
                      (py "expected_tools", JStr (py "xy"));
                      (py "category", JStr (py "basic"))]])].

(** A file without [version] whose second test case has no category. *)
Definition broken_test_data : json :=
JDict [(py "test_cases",
        JList [case_json sample_case;
               JDict [(py "question", JStr (py "q2"));
                      (py "expected_tools", JList [])]])].

End CreateDataset.


(* ===================================================================== *)
(** * Strings and sorting *)
(* ===================================================================== *)

Lemma str_leb_refl s : str_leb s s = true.
Proof. induction s as [|a s IH]; simpl; [done|]. by rewrite N.compare_refl. Qed.

Lemma str_leb_total s t : str_leb s t = true ∨ str_leb t s = true.
Proof.
  revert t. induction s as [|a s IH]; intros [|b t]; simpl; auto.
  rewrite (N.compare_antisym a b).
  destruct (a ?= b)%N; simpl; auto.
Qed.

Lemma str_leb_trans s t u :
  str_leb s t = true → str_leb t u = true → str_leb s u = true.
Proof.
  revert t u. induction s as [|a s IH]; intros [|b t] [|c u]; simpl; try done.
  destruct (a ?= b)%N eqn:Hab; try done.
  - apply N.compare_eq in Hab as ->.
    destruct (b ?= c)%N; try done. apply IH.
  - destruct (b ?= c)%N eqn:Hbc; try done.
    + apply N.compare_eq in Hbc as <-. by rewrite Hab.
    + intros _ _. rewrite N.compare_lt_iff in Hab, Hbc.
      assert (a < c)%N as Hac by lia.
      apply N.compare_lt_iff in Hac. by rewrite Hac.
Qed.

Lemma str_leb_antisym s t :
  str_leb s t = true → str_leb t s = true → s = t.
Proof.
  revert t. induction s as [|a s IH]; intros [|b t]; simpl; try done.
  rewrite (N.compare_antisym a b).
  destruct (a ?= b)%N eqn:Hab; simpl; try done.
  apply N.compare_eq in Hab as ->. intros ??. f_equal. by apply IH.
Qed.

Global Instance str_le_total : Total str_le.
Proof. intros s t. apply str_leb_total. Qed.
Global Instance str_le_trans : Transitive str_le.
Proof. intros s t u. apply str_leb_trans. Qed.
Global Instance str_le_antisym : AntiSymm (=) str_le.
Proof. intros s t. apply str_leb_antisym. Qed.

Lemma sorted_Permutation l : sorted l ≡ₚ l.
Proof. apply merge_sort_Permutation. Qed.

Lemma sorted_Sorted l : Sorted str_le (sorted l).
Proof. apply (Sorted_merge_sort str_le). Qed.

(** [sorted] is determined by its contract: any ordered rearrangement of
    [l] is [sorted l]. *)
Lemma sorted_unique l l' : Sorted str_le l' → l' ≡ₚ l → l' = sorted l.
Proof.
  intros Hs Hp. apply (Sorted_unique str_le); [done|apply sorted_Sorted|].
  by rewrite Hp, sorted_Permutation.
Qed.

Lemma sorted_eq_iff l1 l2 : sorted l1 = sorted l2 ↔ l1 ≡ₚ l2.
Proof.
  split.
  - intros Heq. by rewrite <-(sorted_Permutation l1), Heq, sorted_Permutation.
  - intros Hp. apply sorted_unique; [apply sorted_Sorted|].
    by rewrite sorted_Permutation.
Qed.

Lemma lstrip_head s c s' : lstrip s = c :: s' → is_space c = false.
Proof.
  induction s as [|a s IH]; [done|]. simpl.
  destruct (is_space a) eqn:Ha; [done|]. by intros [= <- _].
Qed.

Lemma strip_has_name s : strip s ≠ [] → ∃ c, c ∈ strip s ∧ is_space c = false.
Proof.
  unfold strip, rstrip. intros Hne.
  destruct (lstrip (reverse (lstrip s))) as [|c u] eqn:Hu; [done|].
  exists c. split; [|by eapply lstrip_head].
  rewrite elem_of_reverse. by left.
Qed.


(* ===================================================================== *)
(** * The matcher *)
(* ===================================================================== *)

(** ** The pieces of a joined string *)

Lemma startswith_sep c s :
  startswith (c :: s) (py ", ")
  = (44 =? c)%N && match s with d :: _ => (32 =? d)%N | [] => false end.
Proof.
  change (py ", ") with [44%N; 32%N]. cbn [startswith].
  destruct s as [|d s']; [done|]. by rewrite andb_true_r.
Qed.

Lemma sep_free_cons c s :
  sep_free (c :: s) ↔ startswith (c :: s) (py ", ") = false ∧ sep_free s.
Proof. unfold sep_free. cbn [contains]. apply orb_false_iff. Qed.

Lemma sep_free_nil : sep_free [].
Proof. done. Qed.

(** Nothing that follows a piece makes the separator start inside it. *)
Lemma startswith_sep_app c x rest :
  startswith (c :: x) (py ", ") = false →
  startswith (c :: x ++ py ", " ++ rest) (py ", ") = false.
Proof.
  rewrite !startswith_sep. destruct (44 =? c)%N; [|done]. simpl.
  destruct x as [|d x']; [|done]. intros _. by vm_compute.
Qed.

Lemma split_go_piece_sep x cur rest :
  sep_free x →
  split_go (py ", ") 0 cur (x ++ py ", " ++ rest)
  = (cur ++ x) :: split_go (py ", ") 0 [] rest.
Proof.
  revert cur. induction x as [|c x IH]; intros cur Hx.
  - rewrite (right_id_L [] (++)). change (py ", ") with [44%N; 32%N]. by cbn.
  - apply sep_free_cons in Hx as [Hc Hx].
    change ((c :: x) ++ py ", " ++ rest) with (c :: (x ++ py ", " ++ rest)).
    cbn [split_go]. rewrite startswith_sep_app by done.
    rewrite IH by done. by rewrite <-(assoc_L (++)).
Qed.

Lemma split_go_last_sep x cur :
  sep_free x → split_go (py ", ") 0 cur x = [cur ++ x].
Proof.
  revert cur. induction x as [|c x IH]; intros cur Hx.
  - by rewrite (right_id_L [] (++)).
  - apply sep_free_cons in Hx as [Hc Hx].
    cbn [split_go]. rewrite Hc. rewrite IH by done. by rewrite <-(assoc_L (++)).
Qed.

(** [split] undoes [join] on pieces that do not hold the separator. *)
Lemma split_join_sep l :
  l ≠ [] → Forall sep_free l → split (py ", ") (join (py ", ") l) = l.
Proof.
  unfold split. induction l as [|x l IH]; [done|]. intros _ Hl.
  apply Forall_cons in Hl as [Hx Hl]. destruct l as [|y l].
  - simpl. by rewrite split_go_last_sep.
  - change (join (py ", ") (x :: y :: l))
      with (x ++ py ", " ++ join (py ", ") (y :: l)).
    rewrite split_go_piece_sep by done. simpl app. f_equal. by apply IH.
Qed.

Lemma split_go_nonempty sep skip cur s : split_go sep skip cur s ≠ [].
Proof.
  revert skip cur. induction s as [|c s IH]; intros skip cur; [done|].
  cbn [split_go]. destruct skip; [|apply IH].
  destruct (startswith (c :: s) sep); [done|apply IH].
Qed.

Lemma join_cons sep x l : l ≠ [] → join sep (x :: l) = x ++ sep ++ join sep l.
Proof. by destruct l. Qed.

(** [join] undoes [split]: the pieces and the separators between them
    make up the string again. *)
Lemma join_split_go s skip cur :
  join (py ", ") (split_go (py ", ") skip cur s) = cur ++ drop skip s.
Proof.
  revert skip cur. induction s as [|c s IH]; intros skip cur.
  - cbn [split_go join]. by rewrite drop_nil, (right_id_L [] (++)).
  - cbn [split_go]. destruct skip as [|k]; [|apply IH].
    destruct (startswith (c :: s) (py ", ")) eqn:Hsep.
    + rewrite join_cons by apply split_go_nonempty. rewrite IH.
      rewrite startswith_sep in Hsep. apply andb_true_iff in Hsep as [Hc Hd].
      destruct s as [|d s']; [done|].
      apply N.eqb_eq in Hc as <-. apply N.eqb_eq in Hd as <-. done.
    + rewrite IH. by rewrite <-(assoc_L (++)).
Qed.

Lemma sep_free_snoc cur c :
  sep_free cur → (last cur = Some 44%N → c ≠ 32%N) → sep_free (cur ++ [c]).
Proof.
  induction cur as [|a cur IH]; intros Hcur Hlast.
  - apply sep_free_cons. split; [|done]. rewrite startswith_sep.
    by rewrite andb_false_r.
  - apply sep_free_cons in Hcur as [Ha Hcur].
    change ((a :: cur) ++ [c]) with (a :: (cur ++ [c])).
    apply sep_free_cons. split.
    + rewrite startswith_sep in Ha |- *. destruct cur as [|d cur']; [|by simpl].
      cbn [app]. destruct (44 =? a)%N eqn:Ha44; [|done].
      apply N.eqb_eq in Ha44 as <-. cbn [andb].
      apply N.eqb_neq. intros <-. by apply Hlast.
    + apply IH; [done|]. intros Hl. apply Hlast.
      destruct cur; [done|]. done.
Qed.

(** No piece that [split] gives holds the separator. *)
Lemma split_go_sep_free s skip cur :
  sep_free cur →
  (last cur = Some 44%N → skip = 0 ∧ head s ≠ Some 32%N) →
  Forall sep_free (split_go (py ", ") skip cur s).
Proof.
  revert skip cur. induction s as [|c s IH]; intros skip cur Hcur Hlast.
  - by repeat constructor.
  - cbn [split_go]. destruct skip as [|k].
    + destruct (startswith (c :: s) (py ", ")) eqn:Hsep.
      * constructor; [done|]. apply IH; [done|done].
      * apply IH.
        -- apply sep_free_snoc; [done|]. intros Hl ->.
           by destruct (Hlast Hl) as [_ ?].
        -- rewrite last_snoc. intros [= ->]. split; [done|].
           rewrite startswith_sep in Hsep. destruct s as [|d s']; [done|].
           cbn [head]. intros [= ->]. done.
    + apply IH; [done|]. intros Hl. by destruct (Hlast Hl).
Qed.

Lemma split_pieces s :
  split (py ", ") s ≠ [] ∧ Forall sep_free (split (py ", ") s) ∧
  join (py ", ") (split (py ", ") s) = s.
Proof.
  unfold split. split; [apply split_go_nonempty|]. split.
  - by apply split_go_sep_free.
  - apply join_split_go.
Qed.

Lemma expected_tools_pieces expected :
  expected_tools expected
  = names_of (split (py ", ") (default [] (expected !! py "tool_calls"))).
Proof.
  unfold expected_tools, names_of.
  assert (∀ l : list pystr, filter (λ tool, truthy (strip tool) = true) l
               = filter (λ p, strip p ≠ []) l) as Hf.
  { intros l. apply list_filter_iff. intros p. by destruct (strip p). }
  rewrite Hf. destruct (default [] (expected !! py "tool_calls")) as [|c s]; done.
Qed.

(** Claim C1, as the code has it.  The string under ['tool_calls'] (the
    empty string without the key) is in exactly one way a join by
    [', '] of pieces that do not hold [', ']; the expected names are
    the pieces that are not empty or all whitespace, each stripped of
    its surrounding whitespace.  [tools_match] answers [true] exactly
    when these names and the observed names are equal once both are
    sorted, that is when they are equal as multisets (every name occurs
    equally often on both sides): the order does not matter, duplicates
    do, and one extra, missing or different name gives [false]. *)
Theorem tools_match_spec :
  (∀ expected observed,
     ∃ pieces,
       (pieces ≠ [] ∧ Forall sep_free pieces ∧
        join (py ", ") pieces = default [] (expected !! py "tool_calls")) ∧
       (∀ pieces',
          pieces' ≠ [] → Forall sep_free pieces' →
          join (py ", ") pieces' = default [] (expected !! py "tool_calls") →
          pieces' = pieces) ∧
       (tools_match expected observed = true ↔
        sorted (names_of pieces) = sorted observed) ∧
       (tools_match expected observed = true ↔ names_of pieces ≡ₚ observed) ∧
       (tools_match expected observed = true ↔
        ∀ tool, count_occ str_eq_dec (names_of pieces) tool
                = count_occ str_eq_dec observed tool) ∧
       (∀ tool, tool ∈ names_of pieces → ∃ c, c ∈ tool ∧ is_space c = false)) ∧
  (∀ l, Sorted str_le (sorted l) ∧ sorted l ≡ₚ l) ∧
  tools_match (record_of (py "a, b")) [py "b"; py "a"] = true ∧
  tools_match (record_of (py "a, a")) [py "a"] = false ∧
  tools_match (record_of (py "")) [] = true ∧
  tools_match ∅ [] = true ∧
  tools_match (record_of (py "a")) [] = false ∧
  tools_match (record_of (py "a")) [py "a"; py "b"] = false ∧
  tools_match (record_of (py "a")) [py "b"] = false ∧
  tools_match (record_of (py "a,b")) [py "a,b"] = true ∧
  tools_match (record_of (py " a ,  , b")) [py "b"; py "a"] = true.
Proof.
  split; [|split; [|repeat split; vm_compute; done]].
  2: { intros l. split; [apply sorted_Sorted|apply sorted_Permutation]. }
  intros expected observed.
  set (tool_calls := default [] (expected !! py "tool_calls")).
  destruct (split_pieces tool_calls) as (Hne & Hfree & Hjoin).
  exists (split (py ", ") tool_calls). split; [done|]. split.
  { intros pieces' Hne' Hfree' Hjoin'.
    by rewrite <-(split_join_sep pieces' Hne' Hfree'), Hjoin'. }
  assert (tools_match expected observed = true ↔
          names_of (split (py ", ") tool_calls) ≡ₚ observed) as Hperm.
  { unfold tools_match. rewrite bool_decide_eq_true, expected_tools_pieces.
    apply sorted_eq_iff. }
  split; [|split; [done|split]].
  - unfold tools_match. by rewrite bool_decide_eq_true, expected_tools_pieces.
  - rewrite Hperm. apply (Permutation_count_occ str_eq_dec).
  - unfold names_of. intros tool (p & -> & Hp)%list_elem_of_fmap.
    apply list_elem_of_filter in Hp as [Hp _]. by apply strip_has_name.
Qed.

(** Claim C1 as stated fails: the entries that are kept are stripped by
    the code.  A record that stores [" a"] is not matched by the
    observed name [" a"], but by ["a"]; with two spaces after the comma
    the record is matched by the names without the space. *)
Lemma kept_names_are_stripped :
  claimed_tools_match (record_of (py " a")) [py " a"] = true ∧
  tools_match (record_of (py " a")) [py " a"] = false ∧
  tools_match (record_of (py " a")) [py "a"] = true ∧
  claimed_tools_match (record_of (py "a,  b")) [py "a"; py "b"] = false ∧
  tools_match (record_of (py "a,  b")) [py "a"; py "b"] = true ∧
  ¬ (∀ expected observed,
       tools_match expected observed = claimed_tools_match expected observed).
Proof.
  assert (claimed_tools_match (record_of (py " a")) [py " a"] = true) as H1
    by (by vm_compute).
  assert (tools_match (record_of (py " a")) [py " a"] = false) as H2
    by (by vm_compute).
  split; [done|]. split; [done|].
  split; [by vm_compute|]. split; [by vm_compute|]. split; [by vm_compute|].
  intros H. rewrite H in H2. congruence.
Qed.

(* ===================================================================== *)
(** * Round trip with dataset creation *)
(* ===================================================================== *)

Lemma lstrip_id s :
  (∀ c, head s = Some c → is_space c = false) → lstrip s = s.
Proof. destruct s as [|c s]; simpl; [done|]. intros H. by rewrite (H c). Qed.

Lemma strip_id s :
  (∀ c, head s = Some c → is_space c = false) →
  (∀ c, last s = Some c → is_space c = false) →
  strip s = s.
Proof.
  intros Hh Hl. unfold strip, rstrip. rewrite (lstrip_id s) by done.
  rewrite lstrip_id; [apply reverse_involutive|].
  intros c. rewrite head_reverse. apply Hl.
Qed.

Lemma startswith_comma_no c s :
  c ≠ 44%N → startswith (c :: s) (py ", ") = false.
Proof.
  intros Hc. change (py ", ") with [44%N; 32%N]. cbn [startswith].
  destruct (N.eqb_spec 44 c); [congruence|done].
Qed.

(** Scanning a piece without comma: nothing is cut before its end. *)
Lemma split_go_piece x cur rest :
  44%N ∉ x →
  split_go (py ", ") 0 cur (x ++ py ", " ++ rest)
  = (cur ++ x) :: split_go (py ", ") 0 [] rest.
Proof.
  revert cur. induction x as [|c x IH]; intros cur Hx.
  - rewrite (right_id_L [] (++)). change (py ", ") with [44%N; 32%N]. by cbn.
  - apply not_elem_of_cons in Hx as [Hc Hx].
    change ((c :: x) ++ py ", " ++ rest) with (c :: (x ++ py ", " ++ rest)).
    cbn [split_go]. rewrite startswith_comma_no by done.
    rewrite IH by done. by rewrite <-(assoc_L (++)).
Qed.

Lemma split_go_last x cur :
  44%N ∉ x → split_go (py ", ") 0 cur x = [cur ++ x].
Proof.
  revert cur. induction x as [|c x IH]; intros cur Hx.
  - by rewrite (right_id_L [] (++)).
  - apply not_elem_of_cons in Hx as [Hc Hx].
    cbn [split_go]. rewrite startswith_comma_no by done.
    rewrite IH by done. by rewrite <-(assoc_L (++)).
Qed.

(** [split] undoes [join] on a non-empty list of comma-free pieces. *)
Lemma split_join l :
  l ≠ [] → Forall (λ s, 44%N ∉ s) l → split (py ", ") (join (py ", ") l) = l.
Proof.
  unfold split. induction l as [|x l IH]; [done|]. intros _ Hl.
  apply Forall_cons in Hl as [Hx Hl]. destruct l as [|y l].
  - simpl. by rewrite split_go_last.
  - change (join (py ", ") (x :: y :: l))
      with (x ++ py ", " ++ join (py ", ") (y :: l)).
    rewrite split_go_piece by done. simpl app. f_equal. by apply IH.
Qed.

Lemma join_nonempty sep x l : x ≠ [] → join sep (x :: l) ≠ [].
Proof. destruct x, l; simpl; done. Qed.

Lemma expected_tools_join expected l :
  expected !! py "tool_calls" = Some (join (py ", ") l) →
  Forall clean_name l →
  expected_tools expected = l.
Proof.
  intros Hlook Hl. unfold expected_tools. rewrite Hlook. simpl default.
  destruct l as [|x l]; [done|].
  assert (truthy (join (py ", ") (x :: l)) = true) as ->.
  { apply Forall_cons in Hl as [(Hx & _) _].
    pose proof (join_nonempty (py ", ") x l Hx).
    by destruct (join (py ", ") (x :: l)). }
  rewrite split_join; [|done|].
  2: { eapply Forall_impl; [done|]. by intros ? (_ & ? & _). }
  generalize (x :: l) Hl. clear. intros l Hl.
  induction Hl as [|s l (Hne & _ & Hh & Ht) _ IH]; [done|].
  rewrite filter_cons_True.
  - rewrite fmap_cons, strip_id by done. by f_equal.
  - rewrite strip_id by done. by destruct s.
Qed.

Lemma lookup_expected_of_row tc :
  expected_of_row (dataset_row tc) !! py "tool_calls"
  = Some (join (py ", ") (tc_expected_tools tc)).
Proof.
  unfold expected_of_row, dataset_row.
  apply map_lookup_filter_Some. split; [|done].
  rewrite lookup_insert_ne by (by vm_compute).
  by rewrite lookup_insert_eq.
Qed.

(** Claim C10.  For a test case whose expected tool names are not empty,
    have no comma and no whitespace at either end, the record built by
    dataset creation holds the names joined by [', '], the matcher parses
    that string back into the same list, and matching the record against
    that list answers [true]. *)
Theorem join_split_round_trip (tc : test_case) :
  Forall clean_name (tc_expected_tools tc) →
  join (py ", ") (tc_expected_tools tc)
    = default [] (expected_of_row (dataset_row tc) !! py "tool_calls") ∧
  expected_tools (expected_of_row (dataset_row tc)) = tc_expected_tools tc ∧
  tools_match (expected_of_row (dataset_row tc)) (tc_expected_tools tc) = true.
Proof.
  intros Hl. pose proof (lookup_expected_of_row tc) as Hlook.
  split; [by rewrite Hlook|].
  assert (expected_tools (expected_of_row (dataset_row tc)) = tc_expected_tools tc)
    as He by (by apply expected_tools_join).
  split; [done|].
  unfold tools_match. rewrite He. by apply bool_decide_eq_true.
Qed.

Lemma join_split_round_trip_witness :
  let tc := TestCase (py "find an actor")
              [py "search-actors"; py "fetch-actor-details"] (py "search") in
  Forall clean_name (tc_expected_tools tc) ∧
  tools_match (expected_of_row (dataset_row tc)) (tc_expected_tools tc) = true.
Proof.
  intros tc.
  assert (Forall clean_name (tc_expected_tools tc)) as Hclean.
  { repeat constructor; try done;
      try (intros c [= <-]; reflexivity);
      apply (bool_decide_unpack _); vm_compute; exact I. }
  split; [exact Hclean|]. apply (join_split_round_trip tc Hclean).
Defined.

(* ===================================================================== *)
(** * Threshold gate *)
(* ===================================================================== *)

Lemma all_passed_cons thr r rs :
  all_passed thr (r :: rs)
  = match error r with
    | None => Qle_bool thr (accuracy r) && all_passed thr rs
    | Some _ => all_passed thr rs
    end.
Proof.
  unfold all_passed. rewrite filter_cons.
  destruct (error r) eqn:He.
  - by rewrite decide_False.
  - by rewrite decide_True.
Qed.

Lemma all_passed_app thr rs1 rs2 :
  all_passed thr (rs1 ++ rs2) = all_passed thr rs1 && all_passed thr rs2.
Proof.
  unfold all_passed. by rewrite filter_app, forallb_app.
Qed.

Lemma all_passed_true thr rs :
  all_passed thr rs = true ↔
  ∀ r, r ∈ rs → error r = None → (thr <= accuracy r)%Q.
Proof.
  induction rs as [|r rs IH].
  - split; [|done]. intros _ r Hr. by apply elem_of_nil in Hr.
  - rewrite all_passed_cons. split.
    + intros H r' [->|Hin]%elem_of_cons Hr'.
      * rewrite Hr' in H. apply andb_true_iff in H as [H _].
        by apply Qle_bool_iff.
      * apply IH; [|done|done]. destruct (error r); [done|].
        by apply andb_true_iff in H as [_ H].
    + intros H. assert (all_passed thr rs = true) as Hrs.
      { apply IH. intros r' Hin. apply H. by right. }
      destruct (error r) eqn:He; [done|].
      apply andb_true_iff. split; [|done].
      apply Qle_bool_iff, H; [by left|done].
Qed.

Lemma all_passed_false thr rs :
  all_passed thr rs = false ↔
  ∃ r, r ∈ rs ∧ error r = None ∧ (accuracy r < thr)%Q.
Proof.
  induction rs as [|r rs IH].
  - split; [done|]. intros (r & Hr & _). by apply elem_of_nil in Hr.
  - rewrite all_passed_cons. destruct (error r) eqn:He.
    + rewrite IH. split.
      * intros (r' & ? & ? & ?). exists r'. split; [by right|done].
      * intros (r' & [->|?]%elem_of_cons & He' & ?); [congruence|by exists r'].
    + rewrite andb_false_iff, IH. split.
      * intros [Hle|(r' & ? & ? & ?)].
        -- exists r. split; [by left|]. split; [done|].
           apply Qnot_le_lt. intros Hle'%Qle_bool_iff. congruence.
        -- exists r'. split; [by right|done].
      * intros (r' & [->|?]%elem_of_cons & He' & Hlt).
        -- left. apply not_true_iff_false. intros Hle%Qle_bool_iff.
           by apply Qlt_not_le in Hlt.
        -- right. by exists r'.
Qed.



(** Claim C3.  For every threshold (in [0,1] or not) and every list of
    summaries: a model passes iff it has no error and its accuracy is at
    least the threshold; the verdict is the conjunction of "passes" over
    exactly the summaries without error; a summary with an error can be
    taken out of the list without changing the verdict. *)
Theorem threshold_gate (pass_threshold : Q) :
  (∀ r, passes pass_threshold r ↔
        error r = None ∧ Qle_bool pass_threshold (accuracy r) = true) ∧
  (∀ results,
      all_passed pass_threshold results = true ↔
      ∀ r, r ∈ results → error r = None → passes pass_threshold r) ∧
  (∀ results,
      all_passed pass_threshold results = true ↔
      Forall (passes pass_threshold) (filter (λ r, error r = None) results)) ∧
  (∀ rs1 rs2 m mn acc c t eid msg,
      all_passed pass_threshold
        (rs1 ++ ModelSummary m mn acc c t eid (Some msg) :: rs2)
      = all_passed pass_threshold (rs1 ++ rs2)) ∧
  (∀ m mn acc c t eid,
      all_passed pass_threshold [ModelSummary m mn acc c t eid None] = true ↔
      passes pass_threshold (ModelSummary m mn acc c t eid None)).
Proof.
  assert (Hall : ∀ results,
      all_passed pass_threshold results = true ↔
      ∀ r, r ∈ results → error r = None → passes pass_threshold r).
  { intros rs. rewrite all_passed_true. unfold passes. naive_solver. }
  split; [|split; [done|split; [|split]]].
  - intros r. unfold passes. by rewrite Qle_bool_iff.
  - intros rs. rewrite Hall, Forall_forall. split.
    + intros H r [Hr He]%list_elem_of_filter. by apply H.
    + intros H r Hr He. apply H. by apply list_elem_of_filter.
  - intros. by rewrite !all_passed_app, all_passed_cons.
  - intros. rewrite Hall. split.
    + intros H. apply H; [by left|done].
    + intros H r ->%list_elem_of_singleton _. done.
Qed.


(* ===================================================================== *)
(** * Aggregation *)
(* ===================================================================== *)


Lemma score_gt_half_spec e :
  score_gt_half e = true ↔ ∃ s, score e = Some s ∧ (1 # 2 < s)%Q.
Proof.
  unfold score_gt_half, Qltb. destruct (score e) as [s|].
  - rewrite negb_true_iff, <-not_true_iff_false, Qle_bool_iff. split.
    + intros H. exists s. split; [done|]. by apply Qnot_le_lt.
    + intros (? & [= <-] & H). by apply Qlt_not_le.
  - split; [done|]. by intros (? & ? & _).
Qed.

Lemma count_correct_filter rows :
  length (filter (λ e, score_gt_half e = true) rows) = count_correct rows.
Proof.
  induction rows as [|e rows IH]; [done|].
  rewrite filter_cons. simpl. pose proof (score_gt_half_spec e) as Hs.
  destruct (score e) as [s|].
  - destruct (decide (1 # 2 < s)%Q) as [Hlt|Hlt].
    + rewrite decide_True by (apply Hs; eauto). simpl. by rewrite IH.
    + rewrite decide_False; [done|].
      intros (? & [= <-] & ?)%Hs. done.
  - rewrite decide_False; [done|]. by intros (? & ? & _)%Hs.
Qed.

Lemma count_correct_le rows : count_correct rows ≤ length rows.
Proof.
  induction rows as [|e rows IH]; simpl; [done|].
  destruct (score e); [case_decide|]; lia.
Qed.

Lemma count_true_mask rows :
  count_true (score_gt_half <$> rows) = count_correct rows.
Proof.
  rewrite <-count_correct_filter. unfold count_true.
  induction rows as [|e rows IH]; [done|].
  rewrite fmap_cons, !filter_cons. destruct (score_gt_half e) eqn:He.
  - rewrite !decide_True by done. simpl. by rewrite IH.
  - rewrite !decide_False by done. done.
Qed.

(** What aggregation gives on a frame that has the score column. *)
Lemma aggregate_scored evaluations_df :
  py "score" ∈ df_columns evaluations_df →
  let total := Z.of_nat (length (df_rows evaluations_df)) in
  let correct := Z.of_nat (count_correct (df_rows evaluations_df)) in
  aggregate evaluations_df
  = Ok (if decide (total = 0)%Z then 0%Q
        else (inject_Z correct / inject_Z total)%Q, correct, total).
Proof.
  intros Hcol total correct. unfold aggregate, score_mask.
  rewrite decide_True by done. cbn [mbind result_bind].
  rewrite count_true_mask. fold total correct.
  destruct (decide (total > 0)%Z) as [Hpos|Hnpos].
  - unfold truediv. rewrite !decide_False by lia. done.
  - rewrite decide_True by lia. done.
Qed.

Lemma aggregate_unscored evaluations_df :
  py "score" ∉ df_columns evaluations_df →
  aggregate evaluations_df = Raise (KeyError (py "score")).
Proof.
  intros Hcol. unfold aggregate, score_mask. by rewrite decide_False.
Qed.

Lemma accuracy_bounds (correct total : Z) :
  (0 <= correct <= total)%Z →
  let accuracy :=
    if decide (total = 0)%Z then 0%Q
    else (inject_Z correct / inject_Z total)%Q in
  (accuracy == if decide (total = 0)%Z then 0 else correct # Z.to_pos total)%Q ∧
  (0 <= accuracy <= 1)%Q.
Proof.
  intros Hle acc. unfold acc.
  destruct (decide (total = 0)%Z) as [H0|Hn0].
  - split; [done|]. split; done.
  - assert (0 < total)%Z as Hpos by lia.
    assert (inject_Z correct / inject_Z total == correct # Z.to_pos total)%Q as Heq.
    { rewrite (Qmake_Qdiv correct (Z.to_pos total)).
      by rewrite Z2Pos.id. }
    split; [done|]. rewrite Heq. split.
    + unfold Qle. simpl. lia.
    + unfold Qle. simpl. rewrite Z2Pos.id by done. lia.
Qed.

(** Claim C5, on the code.  On a frame that has the column [score],
    aggregation returns: [correct] is the number of rows with a score
    above one half, [total] the number of rows, and [accuracy] is
    [correct / total] when there is a row and 0 when there is none.  The
    division is only reached with a non-zero divisor, so no frame makes
    aggregation raise [ZeroDivisionError].  But line 175 looks the
    column up before the guard of line 176 is reached: on a frame
    without the column aggregation raises [KeyError('score')] and gives
    no accuracy at all, also when the frame has no row; the frame
    without rows and without columns is such a frame. *)
Theorem aggregate_spec (evaluations_df : data_frame) :
  let total := Z.of_nat (length (df_rows evaluations_df)) in
  let correct := Z.of_nat (count_correct (df_rows evaluations_df)) in
  let accuracy :=
    if decide (total = 0)%Z then 0%Q
    else (inject_Z correct / inject_Z total)%Q in
  aggregate evaluations_df
  = (if decide (py "score" ∈ df_columns evaluations_df)
     then Ok (accuracy, correct, total)
     else Raise (KeyError (py "score"))) ∧
  aggregate evaluations_df ≠ Raise ZeroDivisionError ∧
  (0 <= correct <= total)%Z ∧
  (accuracy == if decide (total = 0)%Z then 0 else correct # Z.to_pos total)%Q ∧
  (0 <= accuracy <= 1)%Q ∧
  aggregate (DataFrame [] []) = Raise (KeyError (py "score")) ∧
  aggregate (DataFrame [py "score"] []) = Ok (0%Q, 0%Z, 0%Z).
Proof.
  intros total correct acc.
  assert (aggregate evaluations_df
          = (if decide (py "score" ∈ df_columns evaluations_df)
             then Ok (acc, correct, total)
             else Raise (KeyError (py "score")))) as Hagg.
  { destruct (decide (py "score" ∈ df_columns evaluations_df)) as [Hcol|Hcol].
    - by apply aggregate_scored.
    - by apply aggregate_unscored. }
  split; [done|]. split.
  { rewrite Hagg.
    by destruct (decide (py "score" ∈ df_columns evaluations_df)). }
  pose proof (count_correct_le (df_rows evaluations_df)) as Hle.
  assert (0 <= correct <= total)%Z as Hct by (unfold correct, total; lia).
  split; [done|]. destruct (accuracy_bounds correct total Hct) as [? ?].
  split; [done|]. split; [done|]. split; reflexivity.
Qed.

(* ===================================================================== *)
(** * Provider adapters *)
(* ===================================================================== *)

Lemma anthropic_loop_names contents tool_calls :
  anthropic_loop tool_calls contents = Ok (tool_calls ++ tool_use_names contents).
Proof.
  revert tool_calls. induction contents as [|c rest IH]; intros tool_calls.
  - simpl. by rewrite (right_id_L [] (++)).
  - destruct c; cbn [anthropic_loop tool_use_names block_type].
    + rewrite decide_False by (by vm_compute). apply IH.
    + rewrite decide_True by done. cbn. rewrite IH.
      by rewrite <-(assoc_L (++)).
    + rewrite decide_False by (by vm_compute). apply IH.
Qed.

Section adapters.
Context {world : Type} `{!Env world}.

(** Claim C7, as the code has it.  For an answer that has a choice, the
    OpenAI task returns the empty list when the first choice has no
    tool call ([None] or an empty list) and otherwise the one-element
    list with the name of the first tool call, however many there are.
    An answer without any choice raises [IndexError]; a failure of the
    provider is passed on. *)
Theorem openai_first_call_only model_name tools schema ex w :
  to_function_call_schema tools = Ok schema →
  let request :=
    OpenAIRequest model_name
      [ChatMessage (py "system") (Some SYSTEM_PROMPT);
       ChatMessage (py "user") (input ex !! py "question")] schema in
  create_openai_task model_name tools ex w
  = match chat_completions_create request w with
    | (Raise e, w') => (Raise e, w')
    | (Ok response, w') =>
        (match choices response with
         | [] => Raise IndexError
         | choice0 :: _ =>
             match msg_tool_calls choice0 with
             | None | Some [] => Ok []
             | Some (call0 :: _) => Ok [fn_name (call_function call0)]
             end
         end, w')
    end.
Proof.
  intros Hs request. unfold create_openai_task. rewrite Hs. fold request.
  destruct (chat_completions_create request w) as [[response|e] w']; [|done].
  f_equal. unfold openai_tool_calls.
  destruct (choices response) as [|choice0 ?]; [done|].
  by destruct (msg_tool_calls choice0) as [[|call0 ?]|].
Qed.

(** Claim C8.  The Anthropic task sends the system prompt in the
    [system] field and a single message of role [user]; it returns the
    names of all the tool-use blocks of the answer, in the order of the
    answer. *)
Theorem anthropic_all_tool_uses model_name tools schema ex w :
  to_native_tool_schema tools = Ok schema →
  let request :=
    AnthropicRequest model_name SYSTEM_PROMPT
      [ChatMessage (py "user") (input ex !! py "question")] schema 2048 10 in
  an_system request = SYSTEM_PROMPT ∧
  Forall (λ m, role m = py "user") (an_messages request) ∧
  length (an_messages request) = 1 ∧
  create_anthropic_task model_name tools ex w
  = match messages_create request w with
    | (Raise e, w') => (Raise e, w')
    | (Ok response, w') => (Ok (tool_use_names (an_content response)), w')
    end ∧
  (∀ contents,
     tool_use_names contents
     = omap (λ c, match c with
                  | ToolUseBlock _ name _ => Some name
                  | _ => None
                  end) contents ∧
     length (tool_use_names contents)
     = length (filter (λ c, block_type c = py "tool_use") contents)) ∧
  (∀ before id name args after,
     tool_use_names (before ++ ToolUseBlock id name args :: after)
     = tool_use_names before ++ name :: tool_use_names after).
Proof.
  intros Hs request. split; [done|]. split; [by repeat constructor|].
  split; [done|]. split; [|split].
  - unfold create_anthropic_task. rewrite Hs. fold request.
    destruct (messages_create request w) as [[response|e] w']; [|done].
    f_equal. apply anthropic_loop_names.
  - intros contents. induction contents as [|c rest [IH1 IH2]]; [done|].
    rewrite filter_cons.
    destruct c; cbn [tool_use_names omap list_omap block_type].
    + rewrite decide_False by (by vm_compute). done.
    + rewrite decide_True by done. split; [by f_equal|]. cbn [length]. by f_equal.
    + rewrite decide_False by (by vm_compute). done.
  - intros before. induction before as [|c before IH]; intros; [done|].
    destruct c; simpl; by rewrite ?IH.
Qed.
End adapters.

Lemma openai_first_call_only_witness :
  let E := scripted (sample_script ["gpt-4o"] (8 # 10) true) in
  ∃ schema w',
    to_function_call_schema [sample_tool] = Ok schema ∧
    create_openai_task (Env0 := E) (py "gpt-4o") [sample_tool] (sample_example "q1" "x") []
    = (Ok [py "x"], w').
Proof.
  intros E. eexists _, _. split; [reflexivity|].
  rewrite (openai_first_call_only (Env0 := E) (py "gpt-4o") [sample_tool] _
             (sample_example "q1" "x") [] eq_refl).
  reflexivity.
Defined.

(** Claim C7 as stated fails for a response without any choice: such a
    response holds no tool call, but the task does not return the empty
    list, it raises [IndexError] at [response.choices[0]]. *)
Lemma openai_no_choice_raises :
  claimed_tool_names (ChatCompletion []) = [] ∧
  openai_tool_calls (ChatCompletion []) = Raise IndexError ∧
  ¬ (∀ response, openai_tool_calls response = Ok (claimed_tool_names response)).
Proof.
  split; [done|]. split; [done|]. intros H.
  by specialize (H (ChatCompletion [])).
Qed.

Lemma anthropic_all_tool_uses_witness :
  let E := scripted (sample_script ["claude-3"] (8 # 10) true) in
  ∃ schema w',
    to_native_tool_schema [sample_tool] = Ok schema ∧
    create_anthropic_task (Env0 := E) (py "claude-3") [sample_tool] (sample_example "q1" "x") []
    = (Ok [py "x"; py "y"], w').
Proof.
  intros E. eexists _, _. split; [reflexivity|].
  destruct (anthropic_all_tool_uses (Env0 := E) (py "claude-3") [sample_tool] _
              (sample_example "q1" "x") [] eq_refl) as (_ & _ & _ & -> & _).
  reflexivity.
Defined.

(* ===================================================================== *)
(** * The loop over the models and the exit code *)
(* ===================================================================== *)

Section runner_facts.
Context {world : Type} `{!Env world}.

(** The accumulator [results] is only appended to. *)
Lemma run_models_acc ds tools models results w :
  run_models ds tools models results w
  = match run_models ds tools models [] w with
    | (Ok rs, w') => (Ok (results ++ rs), w')
    | (Raise e, w') => (Raise e, w')
    end.
Proof.
  revert results w. induction models as [|m rest IH]; intros results w.
  - simpl. by rewrite (right_id_L [] (++)).
  - cbn [run_models]. rewrite !(left_id_L [] (++)).
    assert (∀ (x : model_summary) w0,
      run_models ds tools rest (results ++ [x]) w0
      = match run_models ds tools rest [x] w0 with
        | (Ok rs, w') => (Ok (results ++ rs), w')
        | (Raise e, w') => (Raise e, w')
        end) as Hstep.
    { intros x w0. rewrite (IH (results ++ [x])), (IH [x]).
      destruct (run_models ds tools rest [] w0) as [[rs|e] w']; [|done].
      by rewrite <-(assoc_L (++)). }
    destruct (startswith m (py "gpt")).
    { destruct (evaluate_model _ _ _ _) as [[x|e] w1]; [apply Hstep|done]. }
    destruct (startswith m (py "claude")).
    { destruct (evaluate_model _ _ _ _) as [[x|e] w1]; [apply Hstep|done]. }
    apply Hstep.
Qed.

Lemma run_models_app ds tools pre post results w :
  run_models ds tools (pre ++ post) results w
  = match run_models ds tools pre results w with
    | (Ok rs, w') => run_models ds tools post rs w'
    | (Raise e, w') => (Raise e, w')
    end.
Proof.
  revert results w. induction pre as [|m pre IH]; intros results w; [done|].
  cbn [app run_models].
  destruct (startswith m (py "gpt")).
  { destruct (evaluate_model _ _ _ _) as [[x|e] w1]; [apply IH|done]. }
  destruct (startswith m (py "claude")).
  { destruct (evaluate_model _ _ _ _) as [[x|e] w1]; [apply IH|done]. }
  apply IH.
Qed.



(** Claim C2, as the code has it.  When a run reaches the gate, the
    exit code is 0 iff every entry without error has an accuracy of at
    least [PASS_THRESHOLD], and 1 otherwise, that is iff some entry
    without error is below it.  Entries with an error do not count:
    the exit code is the one of the list without them, and when every
    entry has an error it is 0. *)
Theorem exit_code_by_gate w results w' :
  collect_results w = (Next results, w') →
  (process_exit_code w = 0%Z ↔
   ∀ r, r ∈ results → error r = None → (PASS_THRESHOLD <= accuracy r)%Q) ∧
  (process_exit_code w = 1%Z ↔
   ∃ r, r ∈ results ∧ error r = None ∧ (accuracy r < PASS_THRESHOLD)%Q) ∧
  process_exit_code w
  = exit_code_of (all_passed PASS_THRESHOLD (filter (λ r, error r = None) results)) ∧
  ((∀ r, r ∈ results → error r ≠ None) → process_exit_code w = 0%Z).
Proof.
  intros Hc. unfold process_exit_code, main. rewrite Hc. cbn [fst].
  assert (∀ rs, all_passed PASS_THRESHOLD (filter (λ r, error r = None) rs)
                = all_passed PASS_THRESHOLD rs) as Hidem.
  { intros rs. unfold all_passed. by rewrite list_filter_filter_l. }
  rewrite Hidem, <-all_passed_true, <-all_passed_false.
  destruct (all_passed PASS_THRESHOLD results) eqn:Hall; simpl.
  - repeat split; done.
  - split; [done|]. split; [done|]. split; [done|].
    intros Herr. assert (all_passed PASS_THRESHOLD results = true); [|congruence].
    apply all_passed_true. intros r Hr He. by destruct (Herr r Hr).
Qed.

(** Neither task function handles a failure of its provider. *)
Lemma openai_task_propagates model_name tools schema ex w e w' :
  to_function_call_schema tools = Ok schema →
  chat_completions_create
    (OpenAIRequest model_name
       [ChatMessage (py "system") (Some SYSTEM_PROMPT);
        ChatMessage (py "user") (input ex !! py "question")] schema) w
  = (Raise e, w') →
  create_openai_task model_name tools ex w = (Raise e, w').
Proof. intros Hs Hc. unfold create_openai_task. by rewrite Hs, Hc. Qed.

Lemma anthropic_task_propagates model_name tools schema ex w e w' :
  to_native_tool_schema tools = Ok schema →
  messages_create
    (AnthropicRequest model_name SYSTEM_PROMPT
       [ChatMessage (py "user") (input ex !! py "question")] schema 2048 10) w
  = (Raise e, w') →
  create_anthropic_task model_name tools ex w = (Raise e, w').
Proof. intros Hs Hc. unfold create_anthropic_task. by rewrite Hs, Hc. Qed.

(** [main] has no handler around [run_experiment]: when the platform
    lets an exception through, the run ends there, whatever models were
    still to come. *)
Lemma evaluate_model_propagates ds task_fnc model_name w e w' :
  run_experiment ds task_fnc tools_match
    (py "MCP tool calling eval " ++ model_name)
    (py "Evaluation of " ++ model_name ++ py " on MCP tool calling") w
  = (Raise e, w') →
  evaluate_model ds task_fnc model_name w = (Raise e, w').
Proof. intros Hr. unfold evaluate_model. by rewrite Hr. Qed.
End runner_facts.

(** Claim C2 as stated fails: with one configured model, of unknown
    type, the run reaches the gate with one entry, which has an error,
    and the exit code is 0. *)
Lemma exit_code_all_errored :
  ∃ results w',
    collect_results (Env0 := only_unknown) [] = (Next results, w') ∧
    results = [unknown_model (py "llama-3")] ∧
    process_exit_code (Env0 := only_unknown) [] = 0%Z ∧
    ¬ exit_code_as_claimed (Env0 := only_unknown) [].
Proof.
  eexists _, _. split; [reflexivity|]. split; [reflexivity|]. split; [reflexivity|].
  intros Hclaim. destruct (Hclaim _ _ eq_refl) as [_ Herr].
  assert (process_exit_code (Env0 := only_unknown) [] = 1%Z) as Hone; [|done].
  apply Herr. eexists. split; [by left|done].
Qed.

Lemma exit_code_by_gate_witness :
  ∃ results w',
    collect_results (Env0 := three_models) [] = (Next results, w') ∧
    process_exit_code (Env0 := three_models) [] = 1%Z.
Proof.
  eexists _, _. split; [vm_compute; reflexivity|].
  destruct (exit_code_by_gate (Env0 := three_models) [] _ _ eq_refl)
    as (_ & _ & -> & _).
  vm_compute. reflexivity.
Defined.


(* ===================================================================== *)
(** * A provider that fails *)
(* ===================================================================== *)


(** With a platform that records a failed task as a row without score,
    an unreachable provider costs the model its accuracy and nothing else. *)
Lemma provider_down_isolating_platform :
  ∃ gpt claude w',
    collect_results (Env0 := openai_down true) [] = (Next [gpt; claude], w') ∧
    total gpt = 3%Z ∧ correct gpt = 0%Z ∧ error gpt = None ∧
    total claude = 3%Z ∧
    process_exit_code (Env0 := openai_down true) [] = 1%Z.
Proof. eexists _, _, _. repeat split; vm_compute; reflexivity. Qed.

(** With a platform that lets the exception of a task through, the same
    failure ends [main]: no entry for any model, and the second model is
    never run. *)
Lemma provider_down_propagating_platform :
  ∃ req,
    main (Env0 := openai_down false) []
    = (Uncaught (ExternalError (py "connection refused")),
       [ExperimentRun (py "MCP tool calling eval gpt-4o"); OpenAICall req]) ∧
    process_exit_code (Env0 := openai_down false) [] = 1%Z.
Proof. eexists. split; vm_compute; reflexivity. Qed.

(* ===================================================================== *)
(** * The two transforms on the heap *)
(* ===================================================================== *)

Module HeapFacts.
Import Heap.

(** ** Stepping through heap computations *)

Lemma bind_ok {A B} (m : M A) (k : A → M B) h a h' :
  m h = (Ok a, h') → (m ≫= k) h = k a h'.
Proof. intros Hm. unfold mbind, M_bind. by rewrite Hm. Qed.

Lemma bind_raise {A B} (m : M A) (k : A → M B) h e h' :
  m h = (Raise e, h') → (m ≫= k) h = (Raise e, h').
Proof. intros Hm. unfold mbind, M_bind. by rewrite Hm. Qed.

Lemma bind_ext_l {A B} (m1 m2 : M A) (k : A → M B) h :
  (∀ h0, m1 h0 = m2 h0) → (m1 ≫= k) h = (m2 ≫= k) h.
Proof. intros Hm. unfold mbind, M_bind. by rewrite Hm. Qed.

Lemma bind_ext_r {A B} (m : M A) (k1 k2 : A → M B) h :
  (∀ a h0, k1 a h0 = k2 a h0) → (m ≫= k1) h = (m ≫= k2) h.
Proof. intros Hk. unfold mbind, M_bind. by destruct (m h) as [[a|e] h']. Qed.

Lemma alloc_fresh (h : heap) : h !! fresh (dom h) = None.
Proof. apply not_elem_of_dom, is_fresh. Qed.

Lemma alloc_subseteq (h : heap) o : h ⊆ <[fresh (dom h) := o]> h.
Proof. apply insert_subseteq, alloc_fresh. Qed.

(** ** Induction on JSON values and on readings *)

Lemma json_children_ind (P : json → Prop) :
  (∀ j, Forall P (jchildren j) → P j) → ∀ j, P j.
Proof.
  intros IH. fix REC 1. intros j. apply IH. destruct j as [| | | |xs|kjs]; simpl;
    try by constructor.
  - induction xs as [|x xs IHxs]; constructor; [apply REC|apply IHxs].
  - induction kjs as [|[k x] kjs IHkjs]; constructor; [apply REC|apply IHkjs].
Qed.

Lemma tree_ind' (h : heap) (P : val → json → list loc → Prop) :
  (∀ j v, atom j = Some v → P v j []) →
  (∀ l o j Ls,
      h !! l = Some o → same_shape o j →
      Forall3 (tree h) (children o) (jchildren j) Ls →
      Forall3 P (children o) (jchildren j) Ls →
      P (VRef l) j (l :: concat Ls)) →
  ∀ v j L, tree h v j L → P v j L.
Proof.
  intros Hatom Hnode. fix REC 4. intros v j L [j' v' Ha|l o j' Ls Hl Hs Hc].
  - by apply Hatom.
  - apply (Hnode l o j' Ls Hl Hs Hc).
    induction Hc as [|c cj cL cs cjs cLs Hc1 Hcs IH]; constructor;
      [by apply REC|apply IH].
Qed.

Lemma tree_dom h v j L l : tree h v j L → l ∈ L → is_Some (h !! l).
Proof.
  intros Ht. revert l. induction Ht as [|l0 o j Ls Hl Hs Hc IH] using tree_ind';
    intros l Hin.
  - by apply elem_of_nil in Hin.
  - apply elem_of_cons in Hin as [->|Hin]; [by eexists|].
    clear Hc Hs Hl. induction IH as [|c cj cL cs cjs cLs Hc1 Hcs IH']; simpl in Hin.
    + by apply elem_of_nil in Hin.
    + apply elem_of_app in Hin as [Hin|Hin]; [by apply Hc1|by apply IH'].
Qed.

(** A reading depends on the objects it goes through only. *)
Lemma tree_frame h h' v j L :
  tree h v j L → (∀ l, l ∈ L → h' !! l = h !! l) → tree h' v j L.
Proof.
  intros Ht. induction Ht as [|l0 o j Ls Hl Hs Hc IH] using tree_ind';
    intros Hagree.
  - by constructor.
  - econstructor; [by rewrite Hagree by left|done|].
    assert (∀ l, l ∈ concat Ls → h' !! l = h !! l) as Hagree'.
    { intros l Hin. apply Hagree. by right. }
    clear Hagree Hc Hs Hl. induction IH as [|c cj cL cs cjs cLs Hc1 Hcs IH'];
      constructor.
    + apply Hc1. intros l Hin. apply Hagree'. simpl. apply elem_of_app; auto.
    + apply IH'. intros l Hin. apply Hagree'. simpl. apply elem_of_app; auto.
Qed.

Lemma tree_mono h h' v j L : tree h v j L → h ⊆ h' → tree h' v j L.
Proof.
  intros Ht Hsub. apply (tree_frame h); [done|]. intros l Hin.
  destruct (tree_dom _ _ _ _ l Ht Hin) as [o Ho].
  rewrite Ho. by apply (lookup_weaken h).
Qed.

Lemma trees_frame h h' vs js Ls :
  Forall3 (tree h) vs js Ls → (∀ l, l ∈ concat Ls → h' !! l = h !! l) →
  Forall3 (tree h') vs js Ls.
Proof.
  induction 1 as [|v j L vs js Ls Ht Hts IH]; intros Hagree; constructor.
  - apply (tree_frame h); [done|]. intros l Hin. apply Hagree. simpl.
    apply elem_of_app; auto.
  - apply IH. intros l Hin. apply Hagree. simpl. apply elem_of_app; auto.
Qed.

Lemma trees_dom h vs js Ls l :
  Forall3 (tree h) vs js Ls → l ∈ concat Ls → is_Some (h !! l).
Proof.
  induction 1 as [|v j L vs js Ls Ht Hts IH]; simpl; intros Hin.
  - by apply elem_of_nil in Hin.
  - apply elem_of_app in Hin as [Hin|Hin]; [by eapply tree_dom|by apply IH].
Qed.

Lemma trees_mono h h' vs js Ls :
  Forall3 (tree h) vs js Ls → h ⊆ h' → Forall3 (tree h') vs js Ls.
Proof.
  intros Hts Hsub. apply (trees_frame h); [done|]. intros l Hin.
  destruct (trees_dom _ _ _ _ l Hts Hin) as [o Ho].
  rewrite Ho. by apply (lookup_weaken h).
Qed.

(** ** [json.load] builds a tree of new objects *)

Lemma load_node j h :
  atom j = None →
  load j h
  = (vs ← mapH load (jchildren j); l ← alloc (build j vs); mret (VRef l)) h.
Proof.
  destruct j as [| | | |xs|kjs]; try done; intros _; cbn [load jchildren build].
  - apply bind_ext_l. clear h.
    induction xs as [|x xs IH]; intros h0; [done|].
    cbn [mapH]. apply bind_ext_r. intros v h1. by apply bind_ext_l.
  - apply bind_ext_l. clear h.
    induction kjs as [|kj kjs IH]; intros h0; [done|].
    cbn [mapH fmap list_fmap]. apply bind_ext_r. intros v h1. by apply bind_ext_l.
Qed.

Lemma atom_not_ref j l : atom j ≠ Some (VRef l).
Proof. by destruct j. Qed.

Lemma load_atom j v h : atom j = Some v → load j h = (Ok v, h).
Proof. destruct j; intros [= <-]; done. Qed.

Lemma same_shape_build j vs :
  atom j = None → length vs = length (jchildren j) →
  same_shape (build j vs) j ∧ children (build j vs) = vs.
Proof.
  destruct j as [| | | |xs|kjs]; try done; intros _ Hlen; simpl in *.
  rewrite length_fmap in Hlen. split.
  - apply fst_zip. rewrite length_fmap. lia.
  - apply snd_zip. rewrite length_fmap. lia.
Qed.


Lemma lookup_None_weaken (h h' : heap) l : h ⊆ h' → h' !! l = None → h !! l = None.
Proof.
  intros Hsub Hn. destruct (h !! l) as [o|] eqn:Ho; [|done].
  apply (lookup_weaken _ h') in Ho; [congruence|done].
Qed.

Lemma load_all_tree js :
  Forall loads_tree js →
  ∀ h, ∃ vs Ls h',
    mapH load js h = (Ok vs, h') ∧ h ⊆ h' ∧ Forall3 (tree h') vs js Ls ∧
    NoDup (concat Ls) ∧ ∀ l, l ∈ concat Ls → h !! l = None.
Proof.
  induction 1 as [|j js Hj _ IH]; intros h.
  - exists [], [], h. repeat split; try done; try constructor.
    intros l Hl. by apply elem_of_nil in Hl.
  - destruct (Hj h) as (v & L & h1 & Hload & Hsub1 & Ht & Hnd & Hfresh).
    destruct (IH h1) as (vs & Ls & h2 & Hloads & Hsub2 & Hts & Hnds & Hfreshs).
    exists (v :: vs), (L :: Ls), h2. cbn [mapH].
    rewrite (bind_ok _ _ _ _ _ Hload), (bind_ok _ _ _ _ _ Hloads).
    split; [done|]. split; [by etrans|].
    split; [constructor; [by eapply tree_mono|done]|].
    split.
    + simpl. apply NoDup_app. split; [done|]. split; [|done].
      intros l Hl Hl'. apply Hfreshs in Hl'.
      destruct (tree_dom _ _ _ _ l Ht Hl) as [o Ho]. congruence.
    + simpl. intros l [Hl|Hl]%elem_of_app; [by apply Hfresh|].
      eapply lookup_None_weaken; [done|]. by apply Hfreshs.
Qed.

Lemma load_tree j : loads_tree j.
Proof.
  induction j as [j IH] using json_children_ind. intros h.
  destruct (atom j) as [v|] eqn:Hatom.
  - exists v, [], h. rewrite (load_atom _ _ _ Hatom).
    repeat split; try done; [by constructor|constructor|].
    intros l Hl. by apply elem_of_nil in Hl.
  - destruct (load_all_tree _ IH h) as (vs & Ls & h1 & Hload & Hsub & Hts & Hnd & Hfresh).
    rewrite load_node by done. rewrite (bind_ok _ _ _ _ _ Hload).
    set (l := fresh (dom h1)).
    exists (VRef l), (l :: concat Ls), (<[l := build j vs]> h1).
    assert (h1 !! l = None) as Hl by apply alloc_fresh.
    destruct (same_shape_build j vs Hatom) as [Hshape Hch].
    { by apply Forall3_length_lm in Hts. }
    split; [done|]. split; [etrans; [done|by apply insert_subseteq]|].
    split; [|split].
    + econstructor; [apply lookup_insert_eq|done|]. rewrite Hch.
      eapply trees_mono; [done|by apply insert_subseteq].
    + constructor; [|done]. intros Hin.
      destruct (trees_dom _ _ _ _ l Hts Hin) as [o Ho]. congruence.
    + intros l' [->|Hl']%elem_of_cons; [|by apply Hfresh].
      by eapply lookup_None_weaken.
Qed.

(** ** [deepcopy] on a tree *)

Lemma deepcopy_memo_node d l memo h :
  memo !! l = None →
  deepcopy_memo (S d) (VRef l) memo h
  = (o ← deref l;
     y ← alloc (with_children o []);
     '(vs, memo') ← copy_items d (children o) (<[l := y]> memo);
     _ ← store y (with_children o vs);
     mret (VRef y, memo')) h.
Proof.
  intros Hmemo. cbn [deepcopy_memo]. rewrite Hmemo.
  apply bind_ext_r. intros o h0. apply bind_ext_r. intros y h1.
  apply bind_ext_l. generalize (<[l:=y]> memo). clear.
  induction (children o) as [|a items IH]; intros memo h; [done|].
  cbn [copy_items]. apply bind_ext_r. intros [a' memo1] h1.
  by apply bind_ext_l.
Qed.

Lemma deepcopy_memo_hit d l y memo h :
  memo !! l = Some y → deepcopy_memo d (VRef l) memo h = (Ok (VRef y, memo), h).
Proof. intros Hmemo. destruct d; cbn [deepcopy_memo]; by rewrite Hmemo. Qed.

Lemma deepcopy_memo_atom d j v memo h :
  atom j = Some v → deepcopy_memo d v memo h = (Ok (v, memo), h).
Proof. destruct j; intros [= <-]; by destruct d. Qed.

Lemma height_children j :
  Forall (λ j', height j' < height j) (jchildren j).
Proof.
  destruct j as [| | | |xs|kjs]; cbn [jchildren height]; try by constructor.
  - induction xs as [|x xs IH]; constructor; [lia|].
    eapply Forall_impl; [done|]. intros j' Hj'. simpl in *. lia.
  - induction kjs as [|kj kjs IH]; constructor; [simpl; lia|].
    eapply Forall_impl; [done|]. intros j' Hj'. simpl in *. lia.
Qed.


Lemma copy_items_tree js :
  Forall copies_tree js →
  ∀ d vs Ls memo h,
    Forall3 (tree h) vs js Ls → NoDup (concat Ls) →
    (∀ l, l ∈ concat Ls → memo !! l = None) →
    Forall (λ j, height j ≤ d) js →
    ∃ vs' memo' h' Ls',
      copy_items d vs memo h = (Ok (vs', memo'), h') ∧ h ⊆ h' ∧
      Forall3 (tree h') vs' js Ls' ∧ NoDup (concat Ls') ∧
      (∀ l, l ∈ concat Ls' → h !! l = None) ∧
      (∀ l, memo' !! l = None ↔ memo !! l = None ∧ l ∉ concat Ls).
Proof.
  induction 1 as [|j js Hj _ IH]; intros d vs Ls memo h Hts Hnd Hmemo Hd.
  - inv Hts. exists [], memo, h, [].
    split; [done|]. split; [done|]. split; [constructor|].
    split; [constructor|]. split; [intros l Hl; by apply elem_of_nil in Hl|].
    intros l. split; [intros ?; split; [done|apply not_elem_of_nil]|by intros [? _]].
  - apply Forall3_cons_inv_m in Hts as (v & vs0 & L & Ls0 & -> & -> & Ht & Hts).
    rename vs0 into vs, Ls0 into Ls.
    simpl in Hnd. apply NoDup_app in Hnd as (HndL & Hdisj & HndLs).
    apply Forall_cons in Hd as [Hdj Hdjs].
    destruct (Hj d v memo h L Ht HndL) as (v' & memo1 & h1 & L' & Hcopy & Hsub1 & Ht' & Hnd' & Hfresh' & Hmemo1); [|done|].
    { intros l Hl. apply Hmemo. simpl. apply elem_of_app; auto. }
    destruct (IH d vs Ls memo1 h1) as (vs' & memo2 & h2 & Ls' & Hcopies & Hsub2 & Hts' & Hnds' & Hfreshs' & Hmemo2); [by eapply trees_mono|done| |done|].
    { intros l Hl. apply Hmemo1. split.
      - apply Hmemo. simpl. apply elem_of_app; auto.
      - intros HlL. by apply (Hdisj l). }
    exists (v' :: vs'), memo2, h2, (L' :: Ls'). cbn [copy_items].
    rewrite (bind_ok _ _ _ _ _ Hcopy). cbn beta iota.
    rewrite (bind_ok _ _ _ _ _ Hcopies).
    split; [done|]. split; [by etrans|].
    split; [constructor; [by eapply tree_mono|done]|].
    split; [|split].
    + simpl. apply NoDup_app. split; [done|]. split; [|done].
      intros l Hl Hl'. apply Hfreshs' in Hl'.
      destruct (tree_dom _ _ _ _ l Ht' Hl) as [o Ho]. congruence.
    + simpl. intros l [Hl|Hl]%elem_of_app; [by apply Hfresh'|].
      eapply lookup_None_weaken; [done|]. by apply Hfreshs'.
    + intros l. rewrite Hmemo2, Hmemo1. simpl. rewrite elem_of_app. tauto.
Qed.

Lemma same_shape_with_children o j vs :
  same_shape o j → length vs = length (children o) →
  same_shape (with_children o vs) j ∧ children (with_children o vs) = vs.
Proof.
  destruct o as [items|entries], j as [| | | |xs|kjs]; try done; simpl.
  intros Hkeys Hlen. rewrite length_fmap in Hlen. split.
  - rewrite <-Hkeys. apply fst_zip. rewrite length_fmap. lia.
  - apply snd_zip. rewrite length_fmap. lia.
Qed.

Lemma deepcopy_tree j : copies_tree j.
Proof.
  induction j as [j IH] using json_children_ind.
  intros d v memo h L Ht Hnd Hmemo Hd.
  inv Ht.
  - exists v, memo, h, []. erewrite deepcopy_memo_atom by done.
    split; [done|]. split; [done|]. split; [by constructor|].
    split; [constructor|]. split; [intros l Hl; by apply elem_of_nil in Hl|].
    intros l. split; [intros ?; split; [done|apply not_elem_of_nil]|by intros [? _]].
  - rename select (h !! _ = Some _) into Hl.
    rename select (same_shape _ _) into Hshape.
    rename select (Forall3 _ _ _ _) into Hts.
    apply NoDup_cons in Hnd as [HlLs HndLs].
    assert (∃ d', d = S d' ∧ Forall (λ j', height j' ≤ d') (jchildren j))
      as (d' & -> & Hd').
    { pose proof (height_children j) as Hh.
      destruct d as [|d'].
      - destruct o, j; try done; simpl in Hd; lia.
      - exists d'. split; [done|]. eapply Forall_impl; [done|].
        intros j' Hj'. simpl in Hj'. lia. }
    rewrite deepcopy_memo_node by (apply Hmemo; by left).
    assert (deref l h = (Ok o, h)) as Hderef by (unfold deref; by rewrite Hl).
    rewrite (bind_ok _ _ _ _ _ Hderef).
    set (y := fresh (dom h)).
    assert (h !! y = None) as Hy by apply alloc_fresh.
    set (h1 := <[y := with_children o []]> h).
    assert (alloc (with_children o []) h = (Ok y, h1)) as Halloc by done.
    rewrite (bind_ok _ _ _ _ _ Halloc).
    assert (h ⊆ h1) as Hsub1 by (by apply insert_subseteq).
    destruct (copy_items_tree _ IH d' (children o) Ls (<[l := y]> memo) h1)
      as (vs' & memo2 & h2 & Ls' & Hcopies & Hsub2 & Hts' & Hnds' & Hfreshs' & Hmemo2);
      [by eapply trees_mono|done| |done|].
    { intros l' Hl'. rewrite lookup_insert_ne by (intros ->; done).
      apply Hmemo. by right. }
    rewrite (bind_ok _ _ _ _ _ Hcopies). cbn beta iota.
    set (h3 := <[y := with_children o vs']> h2).
    assert (store y (with_children o vs') h2 = (Ok (), h3)) as Hstore by done.
    rewrite (bind_ok _ _ _ _ _ Hstore).
    assert (y ∉ concat Ls') as HyLs'.
    { intros Hin. apply Hfreshs' in Hin. unfold h1 in Hin.
      by rewrite lookup_insert_eq in Hin. }
    destruct (same_shape_with_children o j vs' Hshape) as [Hshape' Hch'].
    { apply Forall3_length_lm in Hts'. apply Forall3_length_lm in Hts.
      congruence. }
    exists (VRef y), memo2, h3, (y :: concat Ls').
    split; [done|]. split; [|split; [|split; [|split]]].
    + unfold h3. apply insert_subseteq_r; [done|]. by etrans.
    + econstructor; [apply lookup_insert_eq|done|]. rewrite Hch'.
      apply (trees_frame h2); [done|]. intros l' Hl'.
      apply lookup_insert_ne. by intros ->.
    + by constructor.
    + intros l' [->|Hl']%elem_of_cons; [done|].
      eapply lookup_None_weaken; [done|]. by apply Hfreshs'.
    + intros l'. rewrite Hmemo2, lookup_insert_None, not_elem_of_cons.
      intuition congruence.
Qed.

(** ** What no call changes: the objects that exist already *)

Lemma bind_inv {A B} (m : M A) (k : A → M B) h r h' :
  (m ≫= k) h = (r, h') →
  (∃ a h1, m h = (Ok a, h1) ∧ k a h1 = (r, h')) ∨
  (∃ e, m h = (Raise e, h') ∧ r = Raise e).
Proof.
  unfold mbind, M_bind. destruct (m h) as [[a|e] h1]; intros Hk.
  - left. by exists a, h1.
  - right. exists e. by injection Hk as <- <-.
Qed.


Lemma keeps_ret {A} h0 (a : A) : keeps h0 (mret a).
Proof. by intros h r h' Hsub [= <- <-]. Qed.

Lemma keeps_raise {A} h0 e : keeps h0 (@raise A e).
Proof. by intros h r h' Hsub [= <- <-]. Qed.

Lemma keeps_lift {A} h0 (x : result A) : keeps h0 (lift x).
Proof. by intros h r h' Hsub [= <- <-]. Qed.

Lemma keeps_bind {A B} h0 (m : M A) (k : A → M B) :
  keeps h0 m → (∀ a, keeps h0 (k a)) → keeps h0 (m ≫= k).
Proof.
  intros Hm Hk h r h' Hsub [(a & h1 & Hm1 & Hk1)|(e & Hm1 & _)]%bind_inv.
  - eapply Hk; [|done]. by eapply Hm.
  - by eapply Hm.
Qed.

Lemma keeps_alloc h0 o : keeps h0 (alloc o).
Proof.
  intros h r h' Hsub [= <- <-]. etrans; [done|]. apply alloc_subseteq.
Qed.

Lemma keeps_deref h0 l : keeps h0 (deref l).
Proof.
  intros h r h' Hsub. unfold deref. by destruct (h !! l); intros [= <- <-].
Qed.

Lemma keeps_store h0 l o : h0 !! l = None → keeps h0 (store l o).
Proof. intros Hl h r h' Hsub [= <- <-]. by apply insert_subseteq_r. Qed.

Lemma keeps_mapM {A B} h0 (f : A → M B) l :
  Forall (λ a, keeps h0 (f a)) l → keeps h0 (mapH f l).
Proof.
  induction 1 as [|a l Ha _ IH]; cbn [mapH]; [apply keeps_ret|].
  apply keeps_bind; [done|]. intros b.
  apply keeps_bind; [done|]. intros bs. apply keeps_ret.
Qed.

Lemma keeps_getitem h0 x k : keeps h0 (getitem x k).
Proof.
  destruct x; try apply keeps_raise. cbn [getitem].
  apply keeps_bind; [apply keeps_deref|].
  intros [|]; [apply keeps_raise|apply keeps_lift].
Qed.

Lemma keeps_iter h0 x : keeps h0 (iter x).
Proof.
  destruct x; try apply keeps_raise; cbn [iter]; [apply keeps_ret|].
  apply keeps_bind; [apply keeps_deref|]. intros [|]; apply keeps_ret.
Qed.

Lemma keeps_openai_entry h0 tool : keeps h0 (openai_entry tool).
Proof.
  unfold openai_entry.
  repeat (apply keeps_bind; [first [apply keeps_getitem|apply keeps_alloc]|intros ?]).
  apply keeps_ret.
Qed.

Lemma keeps_openai h0 tools : keeps h0 (transform_tools_to_openai_format tools).
Proof.
  unfold transform_tools_to_openai_format.
  apply keeps_bind; [apply keeps_iter|]. intros items.
  apply keeps_bind.
  { apply keeps_mapM, Forall_forall. intros ? _. apply keeps_openai_entry. }
  intros entries. apply keeps_bind; [apply keeps_alloc|]. intros l.
  apply keeps_ret.
Qed.


Lemma keeps_pop h0 x k : new_val h0 x → keeps h0 (pop x k).
Proof.
  destruct x; try (intros; apply keeps_raise). cbn [pop new_val]. intros Hl.
  apply keeps_bind; [apply keeps_deref|].
  intros [|entries]; [apply keeps_raise|].
  apply keeps_bind; [apply keeps_lift|]. intros [v entries'].
  apply keeps_bind; [by apply keeps_store|]. intros _. apply keeps_ret.
Qed.

Lemma keeps_setitem h0 x k v : new_val h0 x → keeps h0 (setitem x k v).
Proof.
  destruct x; try (intros; apply keeps_raise). cbn [setitem new_val]. intros Hl.
  apply keeps_bind; [apply keeps_deref|].
  intros [|entries]; [apply keeps_raise|]. by apply keeps_store.
Qed.

Lemma keeps_rename h0 x : new_val h0 x → keeps h0 (rename_input_schema x).
Proof.
  intros Hx. unfold rename_input_schema.
  apply keeps_bind; [by apply keeps_pop|]. intros v. by apply keeps_setitem.
Qed.


Lemma memo_new_empty h0 : memo_new h0 ∅.
Proof. intros l y Hl. by rewrite lookup_empty in Hl. Qed.

Lemma memo_new_insert h0 memo l y :
  memo_new h0 memo → h0 !! y = None → memo_new h0 (<[l := y]> memo).
Proof.
  intros Hmemo Hy l' y' [[-> <-]|[_ Hl']]%lookup_insert_Some; [done|].
  by eapply Hmemo.
Qed.

Lemma deref_inv l h o h' : deref l h = (Ok o, h') → h' = h ∧ h !! l = Some o.
Proof. unfold deref. destruct (h !! l); intros [= <- <-]; done. Qed.

Lemma copy_items_sound h0 d :
  copy_sound h0 d →
  ∀ items memo h r h',
    h0 ⊆ h → memo_new h0 memo → copy_items d items memo h = (r, h') →
    h0 ⊆ h' ∧
    match r with
    | Ok (vs', memo') => memo_new h0 memo' ∧ Forall (new_val h0) vs'
    | Raise _ => True
    end.
Proof.
  intros IHd. induction items as [|a items IH]; intros memo h r h' Hsub Hmemo.
  - intros [= <- <-]. split; [done|]. split; [done|constructor].
  - cbn [copy_items].
    intros [([a' memo1] & h1 & Ha & Hk)|(e & Ha & ->)]%bind_inv.
    + destruct (IHd _ _ _ _ _ Hsub Hmemo Ha)
        as (Hsub1 & Hmemo1 & Hnew).
      cbn beta iota in Hk.
      apply bind_inv in Hk as [([vs' memo2] & h2 & Hitems & Hk)|(e & Hitems & ->)].
      * destruct (IH _ _ _ _ Hsub1 Hmemo1 Hitems) as (Hsub2 & Hmemo2 & Hnews).
        injection Hk as <- <-. split; [done|]. split; [done|]. by constructor.
      * by destruct (IH _ _ _ _ Hsub1 Hmemo1 Hitems) as (Hsub2 & _).
    + by destruct (IHd _ _ _ _ _ Hsub Hmemo Ha) as (Hsub1 & _).
Qed.

Lemma deepcopy_sound h0 d : copy_sound h0 d.
Proof.
  induction d as [|d IHd]; intros x memo h r h' Hsub Hmemo Hcopy.
  - destruct x as [| | | |l]; try (injection Hcopy as <- <-; by repeat split).
    cbn [deepcopy_memo] in Hcopy. destruct (memo !! l) as [y|] eqn:Hl.
    + injection Hcopy as <- <-. split; [done|]. split; [done|]. by eapply Hmemo.
    + by injection Hcopy as <- <-.
  - destruct x as [| | | |l]; try (injection Hcopy as <- <-; by repeat split).
    destruct (memo !! l) as [y|] eqn:Hl.
    { rewrite (deepcopy_memo_hit _ _ _ _ _ Hl) in Hcopy.
      injection Hcopy as <- <-. split; [done|]. split; [done|]. by eapply Hmemo. }
    rewrite deepcopy_memo_node in Hcopy by done.
    apply bind_inv in Hcopy as [(o & h1 & Hderef & Hk)|(e & Hderef & ->)].
    2: { split; [|done]. by eapply keeps_deref. }
    apply deref_inv in Hderef as [-> Hlo].
    apply bind_inv in Hk as [(y & h2 & Halloc & Hk)|(e & Halloc & ->)]; [|done].
    injection Halloc as <- <-.
    set (y := fresh (dom h)) in *.
    assert (h !! y = None) as Hy by apply alloc_fresh.
    assert (h0 !! y = None) as Hy0 by (by eapply lookup_None_weaken).
    assert (h0 ⊆ <[y:=with_children o []]> h) as Hsub2.
    { by apply insert_subseteq_r. }
    assert (memo_new h0 (<[l:=y]> memo)) as Hmemo2 by (by apply memo_new_insert).
    apply bind_inv in Hk as [([vs' memo3] & h3 & Hitems & Hk)|(e & Hitems & ->)].
    2: { by destruct (copy_items_sound h0 d IHd _ _ _ _ _ Hsub2 Hmemo2 Hitems)
           as (Hsub3 & _). }
    destruct (copy_items_sound h0 d IHd _ _ _ _ _ Hsub2 Hmemo2 Hitems)
      as (Hsub3 & Hmemo3 & _).
    cbn beta iota in Hk.
    apply bind_inv in Hk as [(u & h4 & Hstore & Hk)|(e & Hstore & ->)]; [|done].
    unfold store in Hstore. injection Hstore as _ <-. injection Hk as <- <-.
    split; [by apply insert_subseteq_r|]. split; done.
Qed.

(** The items of a fresh deep copy do not point into the old heap. *)
Lemma deepcopy_items_new d x h t h1 :
  deepcopy d x h = (Ok t, h1) →
  h ⊆ h1 ∧
  ∀ r h2, iter t h1 = (r, h2) →
    h2 = h1 ∧ match r with Ok items => Forall (new_val h) items | Raise _ => True end.
Proof.
  unfold deepcopy.
  intros [([t' memo'] & h' & Hcopy & Hk)|(e & _ & [=])]%bind_inv.
  injection Hk as <- <-.
  destruct (deepcopy_sound h d _ _ _ _ _ (reflexivity h) (memo_new_empty h) Hcopy)
    as (Hsub & _ & _).
  split; [done|]. intros r h2 Hiter.
  destruct x as [| | |s|l].
  1-3: destruct d; injection Hcopy as <- <- <-; by injection Hiter as <- <-.
  { destruct d; injection Hcopy as <- <- <-; injection Hiter as <- <-;
      (split; [done|]); apply Forall_fmap, Forall_forall; done. }
  destruct d as [|d]; [done|].
  rewrite deepcopy_memo_node in Hcopy by apply lookup_empty.
  apply bind_inv in Hcopy as [(o & h3 & Hderef & Hk)|(e & _ & [=])].
  apply deref_inv in Hderef as [-> Hlo].
  apply bind_inv in Hk as [(y & h4 & Halloc & Hk)|(e & _ & [=])].
  injection Halloc as <- <-.
  assert (h !! fresh (dom h) = None) as Hy by apply alloc_fresh.
  apply bind_inv in Hk as [([vs' memo3] & h5 & Hitems & Hk)|(e & _ & [=])].
  cbn beta iota in Hk.
  apply bind_inv in Hk as [(u & h6 & Hstore & Hk)|(e & _ & [=])].
  unfold store in Hstore. injection Hstore as _ <-. injection Hk as <- <- <-.
  destruct (copy_items_sound h d (deepcopy_sound h d) _ _ _ _ _
              (insert_subseteq _ _ _ Hy)
              (memo_new_insert _ _ l _ (memo_new_empty h) Hy) Hitems)
    as (_ & _ & Hnews).
  cbn [iter] in Hiter. unfold mbind, M_bind, deref in Hiter.
  rewrite lookup_insert_eq in Hiter.
  destruct o as [items|entries]; cbn in Hiter; injection Hiter as <- <-.
  - done.
  - split; [done|]. apply Forall_fmap, Forall_forall. done.
Qed.

Lemma keeps_anthropic d tools h r h' :
  transform_tools_to_antrophic_format d tools h = (r, h') → h ⊆ h'.
Proof.
  unfold transform_tools_to_antrophic_format.
  intros [(t & h1 & Hcopy & Hk)|(e & Hcopy & ->)]%bind_inv.
  - destruct (deepcopy_items_new _ _ _ _ _ Hcopy) as [Hsub Hiter].
    apply bind_inv in Hk as [(items & h2 & Hitems & Hk)|(e & Hitems & ->)].
    + destruct (Hiter _ _ Hitems) as [-> Hnew].
      eapply (keeps_bind h); [| |done|done].
      * apply keeps_mapM. eapply Forall_impl; [done|]. apply keeps_rename.
      * intros ?. apply keeps_ret.
    + by destruct (Hiter _ _ Hitems) as [-> _].
  - unfold deepcopy in Hcopy.
    apply bind_inv in Hcopy as [([t' memo'] & h1 & Hcopy & [=])|(e' & Hcopy & _)].
    eapply (deepcopy_sound h d); [done|apply memo_new_empty|done].
Qed.

(** ** Dictionaries on the heap and in JSON, side by side *)

Section entries.
Context (T : val → json → list loc → Prop).


Lemma entries_rel_intro entries kjs Ls :
  entries.*1 = kjs.*1 → Forall3 T entries.*2 kjs.*2 Ls →
  entries_rel T entries kjs Ls.
Proof.
  revert kjs Ls. induction entries as [|[k v] entries IH];
    intros [|[k' j] kjs] Ls Hkeys Hts; try done.
  - inv Hts. constructor.
  - apply Forall3_cons_inv_l in Hts as (? & ? & L & Ls' & [= <- <-] & -> & Ht & Hts).
    injection Hkeys as <- Hkeys. constructor; [done|by apply IH].
Qed.

Lemma entries_rel_elim entries kjs Ls :
  entries_rel T entries kjs Ls →
  entries.*1 = kjs.*1 ∧ Forall3 T entries.*2 kjs.*2 Ls.
Proof.
  induction 1 as [|[k v] [k' j] L entries kjs Ls [Hk Ht] _ [IH1 IH2]].
  - split; [done|constructor].
  - simpl in *. subst. split; [by f_equal|by constructor].
Qed.

Lemma entries_rel_get entries kjs Ls k jv :
  entries_rel T entries kjs Ls → dict_get kjs k = Some jv →
  ∃ v Lv, dict_get entries k = Some v ∧ T v jv Lv ∧ Lv ∈ Ls.
Proof.
  induction 1 as [|[k1 v] [k2 j] L entries kjs Ls [Hk Ht] _ IH]; [done|].
  simpl in *. subst k2. destruct (decide (k1 = k)) as [->|Hne].
  - intros [= <-]. exists v, L. split; [done|]. split; [done|by left].
  - intros Hget. destruct (IH Hget) as (v' & Lv & ? & ? & ?).
    exists v', Lv. split; [done|]. split; [done|by right].
Qed.

Lemma entries_rel_remove entries kjs Ls k :
  entries_rel T entries kjs Ls →
  ∃ Ls', entries_rel T (dict_remove entries k) (dict_remove kjs k) Ls' ∧ Ls' ⊆ Ls.
Proof.
  induction 1 as [|[k1 v] [k2 j] L entries kjs Ls [Hk Ht] Hrest IH].
  - exists []. split; [constructor|done].
  - simpl in *. subst k2. destruct (decide (k1 = k)) as [->|Hne].
    + exists Ls. split; [done|]. by apply list_subseteq_cons.
    + destruct IH as (Ls' & Hrel & Hsub). exists (L :: Ls').
      split; [by constructor|]. intros x [->|Hx]%elem_of_cons; [by left|].
      right. by apply Hsub.
Qed.

Lemma entries_rel_set entries kjs Ls k v jv Lv :
  entries_rel T entries kjs Ls → T v jv Lv →
  ∃ Ls', entries_rel T (dict_set entries k v) (dict_set kjs k jv) Ls' ∧
         Ls' ⊆ Lv :: Ls.
Proof.
  intros Hrel Hv.
  induction Hrel as [|[k1 v1] [k2 j] L entries kjs Ls [Hk Ht] Hrest IH].
  - exists [Lv]. split; [by repeat constructor|done].
  - simpl in *. subst k2. destruct (decide (k1 = k)) as [->|Hne].
    + exists (Lv :: Ls). split; [by constructor|].
      intros x [->|Hx]%elem_of_cons; [by left|]. by do 2 right.
    + destruct IH as (Ls' & Hrel' & Hsub). exists (L :: Ls').
      split; [by constructor|]. intros x [->|Hx]%elem_of_cons.
      * right. by left.
      * apply Hsub in Hx. apply elem_of_cons in Hx as [->|Hx]; [by left|].
        by do 2 right.
Qed.
End entries.

Lemma elem_of_concat_subseteq (Ls' Ls : list (list loc)) l :
  Ls' ⊆ Ls → l ∈ concat Ls' → l ∈ concat Ls.
Proof.
  intros Hsub. rewrite !list_elem_of_In, !in_concat.
  intros (L & HL & Hl). exists L. split; [|done].
  apply list_elem_of_In, Hsub, list_elem_of_In, HL.
Qed.

Lemma elem_of_concat_elem (Ls : list (list loc)) L l :
  L ∈ Ls → l ∈ L → l ∈ concat Ls.
Proof.
  intros HL Hl. rewrite list_elem_of_In, in_concat. exists L.
  by rewrite <-!list_elem_of_In.
Qed.

(** A dictionary tree, opened up. *)
Lemma tree_dict_inv h v kjs L :
  tree h v (JDict kjs) L →
  ∃ l entries Ls,
    v = VRef l ∧ L = l :: concat Ls ∧ h !! l = Some (ODict entries) ∧
    entries_rel (tree h) entries kjs Ls.
Proof.
  inversion 1 as [|l o j Ls Hl Hshape Hts]; [done|]. subst.
  destruct o as [|entries]; [done|]. exists l, entries, Ls.
  repeat split; try done. by apply entries_rel_intro.
Qed.

Lemma tree_list_inv h v js L :
  tree h v (JList js) L →
  ∃ l items Ls,
    v = VRef l ∧ L = l :: concat Ls ∧ h !! l = Some (OList items) ∧
    Forall3 (tree h) items js Ls.
Proof.
  inversion 1 as [|l o j Ls Hl Hshape Hts]; [done|]. subst.
  destruct o as [items|]; [|done]. by exists l, items, Ls.
Qed.

Lemma tree_dict_intro h l entries kjs Ls :
  h !! l = Some (ODict entries) → entries_rel (tree h) entries kjs Ls →
  tree h (VRef l) (JDict kjs) (l :: concat Ls).
Proof.
  intros Hl [Hkeys Hts]%entries_rel_elim. by econstructor.
Qed.

Lemma tree_list_intro h l items js Ls :
  h !! l = Some (OList items) → Forall3 (tree h) items js Ls →
  tree h (VRef l) (JList js) (l :: concat Ls).
Proof. intros Hl Hts. by econstructor. Qed.

(** ** The function-call transform on a catalog *)

Lemma json_item_inv j k jv :
  json_item j k = Ok jv → ∃ kjs, j = JDict kjs ∧ dict_get kjs k = Some jv.
Proof.
  destruct j as [| | | | |kjs]; try done. unfold json_item, dict_item.
  destruct (dict_get kjs k) eqn:Hget; intros [= <-]. by exists kjs.
Qed.

Lemma getitem_tree h tool j L k jv :
  tree h tool j L → json_item j k = Ok jv →
  ∃ v Lv, getitem tool k h = (Ok v, h) ∧ tree h v jv Lv.
Proof.
  intros Ht (kjs & -> & Hget)%json_item_inv.
  apply tree_dict_inv in Ht as (l & entries & Ls & -> & -> & Hl & Hrel).
  destruct (entries_rel_get _ _ _ _ _ _ Hrel Hget) as (v & Lv & Hv & Htv & _).
  exists v, Lv. split; [|done]. cbn [getitem]. unfold mbind, M_bind, deref.
  rewrite Hl. unfold lift, dict_item. by rewrite Hv.
Qed.


Lemma getitem_field h x k v h' :
  getitem x k h = (Ok v, h') → field h x k = Some v.
Proof.
  destruct x; try done. cbn [getitem field]. unfold mbind, M_bind, deref.
  destruct (h !! l) as [[|entries]|]; try done. unfold lift, dict_item.
  by destruct (dict_get entries k); intros [= <- <-].
Qed.


Lemma function_call_tool_inv j s :
  function_call_tool j = Ok s →
  ∃ jn jd jp,
    json_item j (py "name") = Ok jn ∧
    json_item j (py "description") = Ok jd ∧
    json_item j (py "inputSchema") = Ok jp ∧
    s = JDict [(py "type", JStr (py "function"));
               (py "function",
                JDict [(py "name", jn); (py "description", jd);
                       (py "parameters", jp)])].
Proof.
  unfold function_call_tool.
  destruct (json_item j (py "name")) as [jn|]; [|done].
  destruct (json_item j (py "description")) as [jd|]; [|done].
  destruct (json_item j (py "inputSchema")) as [jp|]; [|done].
  intros [= <-]. by exists jn, jd, jp.
Qed.

Lemma field_mono h h' x k v :
  h ⊆ h' → field h x k = Some v → field h' x k = Some v.
Proof.
  intros Hsub. destruct x; try done. cbn [field].
  destruct (h !! l) as [o|] eqn:Hl; [|done].
  by rewrite (lookup_weaken _ _ _ _ Hl Hsub).
Qed.

Lemma wraps_mono h0 h1 h2 tool entry :
  h1 ⊆ h2 → wraps h0 h1 tool entry → wraps h0 h2 tool entry.
Proof.
  intros Hsub (Hnew & f & p & Hf & Hfnew & Hp & Hs). split; [done|].
  exists f, p. split; [by eapply field_mono|]. split; [done|].
  split; [by eapply field_mono|done].
Qed.

Lemma new_val_weaken h0 h v : h0 ⊆ h → new_val h v → new_val h0 v.
Proof. destruct v; try done. simpl. apply lookup_None_weaken. Qed.

Lemma openai_entry_tree h0 h tool j L s :
  h0 ⊆ h → tree h0 tool j L → function_call_tool j = Ok s →
  ∃ entry h',
    openai_entry tool h = (Ok entry, h') ∧ h ⊆ h' ∧
    repr h' entry s ∧ wraps h0 h' tool entry.
Proof.
  intros Hsub0 Ht0 (jn & jd & jp & Hn & Hd & Hp & ->)%function_call_tool_inv.
  assert (tree h tool j L) as Ht by (by eapply tree_mono).
  destruct (getitem_tree _ _ _ _ _ _ Ht Hn) as (vn & Ln & Hgn & Htn).
  destruct (getitem_tree _ _ _ _ _ _ Ht Hd) as (vd & Ld & Hgd & Htd).
  destruct (getitem_tree _ _ _ _ _ _ Ht Hp) as (vp & Lp & Hgp & Htp).
  destruct (getitem_tree _ _ _ _ _ _ Ht0 Hp) as (vp0 & Lp0 & Hgp0 & _).
  assert (vp0 = vp) as ->.
  { apply getitem_field in Hgp0, Hgp.
    apply (field_mono _ _ _ _ _ Hsub0) in Hgp0. congruence. }
  unfold openai_entry.
  rewrite (bind_ok _ _ _ _ _ Hgn), (bind_ok _ _ _ _ _ Hgd), (bind_ok _ _ _ _ _ Hgp).
  set (f := fresh (dom h)).
  set (fo := ODict [(py "name", vn); (py "description", vd); (py "parameters", vp)]).
  set (h1 := <[f := fo]> h).
  assert (alloc fo h = (Ok f, h1)) as Hf by done.
  rewrite (bind_ok _ _ _ _ _ Hf).
  set (e := fresh (dom h1)).
  set (eo := ODict [(py "type", VStr (py "function")); (py "function", VRef f)]).
  set (h2 := <[e := eo]> h1).
  assert (alloc eo h1 = (Ok e, h2)) as He by done.
  rewrite (bind_ok _ _ _ _ _ He).
  assert (h !! f = None) as Hfh by apply alloc_fresh.
  assert (h1 !! e = None) as Heh1 by apply alloc_fresh.
  assert (h ⊆ h1) as Hsub1 by (by apply insert_subseteq).
  assert (h1 ⊆ h2) as Hsub2 by (by apply insert_subseteq).
  assert (h ⊆ h2) as Hsub by (by etrans).
  assert (e ≠ f) as Hef.
  { intros Heq. rewrite Heq in Heh1. unfold h1 in Heh1.
    by rewrite lookup_insert_eq in Heh1. }
  assert (h2 !! e = Some eo) as Hle by apply lookup_insert_eq.
  assert (h2 !! f = Some fo) as Hlf.
  { unfold h2. rewrite lookup_insert_ne by done. apply lookup_insert_eq. }
  exists (VRef e), h2. split; [done|]. split; [done|]. split.
  - eexists. eapply tree_dict_intro; [done|].
    constructor; [split; [done|by constructor]|].
    constructor; [split; [done|]|constructor].
    eapply tree_dict_intro; [done|].
    repeat (constructor; [split; [done|by eapply tree_mono]|]). constructor.
  - split.
    { simpl. eapply lookup_None_weaken; [|done]. by etrans. }
    exists (VRef f), vp. cbn [field]. rewrite Hle, Hlf.
    split; [done|]. split; [by eapply lookup_None_weaken|].
    split; [done|]. by eapply getitem_field.
Qed.

Lemma openai_entries_tree h0 items js Ls ss :
  Forall3 (tree h0) items js Ls → mapM function_call_tool js = Ok ss →
  ∀ h, h0 ⊆ h →
  ∃ entries h',
    mapH openai_entry items h = (Ok entries, h') ∧ h ⊆ h' ∧
    Forall2 (repr h') entries ss ∧ Forall2 (wraps h0 h') items entries.
Proof.
  intros Hts. revert ss.
  induction Hts as [|tool j L items js Ls Ht Hts IH]; intros ss Hss h Hsub.
  - injection Hss as <-. exists [], h. by repeat split; try constructor.
  - cbn [mapM] in Hss.
    destruct (function_call_tool j) as [s|] eqn:Hs; [|done].
    destruct (mapM function_call_tool js) as [ss'|] eqn:Hss'; [|done].
    injection Hss as <-.
    destruct (openai_entry_tree _ _ _ _ _ _ Hsub Ht Hs)
      as (entry & h1 & Hentry & Hsub1 & Hrepr & Hwraps).
    destruct (IH _ eq_refl h1) as (entries & h2 & Hentries & Hsub2 & Hreprs & Hwrapss).
    { by etrans. }
    exists (entry :: entries), h2. cbn [mapH].
    rewrite (bind_ok _ _ _ _ _ Hentry), (bind_ok _ _ _ _ _ Hentries).
    split; [done|]. split; [by etrans|]. split.
    + constructor; [|done]. destruct Hrepr as [L' Ht']. exists L'.
      by eapply tree_mono.
    + constructor; [|done]. by eapply wraps_mono.
Qed.

Lemma reprs_trees h vs js :
  Forall2 (repr h) vs js → ∃ Ls, Forall3 (tree h) vs js Ls.
Proof.
  induction 1 as [|v j vs js [L Ht] _ [Ls Hts]].
  - exists []. constructor.
  - exists (L :: Ls). by constructor.
Qed.


Lemma openai_tree h tools js L ss :
  tree h tools (JList js) L → to_function_call_schema js = Ok ss →
  ∃ r h',
    transform_tools_to_openai_format tools h = (Ok r, h') ∧ h ⊆ h' ∧
    repr h' r (JList ss) ∧ new_val h r ∧
    Forall2 (wraps h h') (items_of h tools) (items_of h' r).
Proof.
  intros (l & items & Ls & -> & -> & Hl & Hts)%tree_list_inv Hss.
  destruct (openai_entries_tree _ _ _ _ _ Hts Hss h (reflexivity h))
    as (entries & h1 & Hentries & Hsub1 & Hreprs & Hwraps).
  unfold transform_tools_to_openai_format.
  assert (iter (VRef l) h = (Ok items, h)) as Hiter.
  { cbn [iter]. unfold mbind, M_bind, deref. by rewrite Hl. }
  rewrite (bind_ok _ _ _ _ _ Hiter), (bind_ok _ _ _ _ _ Hentries).
  set (r := fresh (dom h1)). set (h2 := <[r := OList entries]> h1).
  assert (alloc (OList entries) h1 = (Ok r, h2)) as Hr by done.
  rewrite (bind_ok _ _ _ _ _ Hr).
  assert (h1 !! r = None) as Hrh1 by apply alloc_fresh.
  assert (h1 ⊆ h2) as Hsub2 by (by apply insert_subseteq).
  exists (VRef r), h2. split; [done|]. split; [by etrans|].
  destruct (reprs_trees _ _ _ Hreprs) as [Ls' Hts'].
  split; [|split].
  - eexists. eapply tree_list_intro; [apply lookup_insert_eq|].
    by eapply trees_mono.
  - by eapply lookup_None_weaken.
  - cbn [items_of]. rewrite Hl. unfold h2. rewrite lookup_insert_eq.
    eapply Forall2_impl; [done|]. intros tool entry. by apply wraps_mono.
Qed.

(** ** The native-tool transform on a catalog *)

Lemma native_tool_inv j s :
  native_tool j = Ok s →
  ∃ kjs jv,
    j = JDict kjs ∧ dict_get kjs (py "inputSchema") = Some jv ∧
    s = JDict (dict_set (dict_remove kjs (py "inputSchema"))
                        (py "input_schema") jv).
Proof.
  destruct j as [| | | | |kjs]; try done. cbn [native_tool]. unfold dict_pop.
  destruct (dict_get kjs (py "inputSchema")) as [jv|] eqn:Hget; [|done].
  intros [= <-]. by exists kjs, jv.
Qed.

Lemma entries_rel_frame h h' entries kjs Ls :
  entries_rel (tree h) entries kjs Ls →
  (∀ l, l ∈ concat Ls → h' !! l = h !! l) →
  entries_rel (tree h') entries kjs Ls.
Proof.
  intros [Hkeys Hts]%entries_rel_elim Hagree.
  apply entries_rel_intro; [done|]. by eapply trees_frame.
Qed.

Lemma rename_tree h v j L s :
  tree h v j L → NoDup L → native_tool j = Ok s →
  ∃ h' L2,
    rename_input_schema v h = (Ok (), h') ∧ tree h' v s L2 ∧
    (∀ l, l ∉ L → h' !! l = h !! l) ∧ (∀ l, l ∈ L2 → l ∈ L).
Proof.
  intros Ht Hnd (kjs & jv & -> & Hget & ->)%native_tool_inv.
  apply tree_dict_inv in Ht as (l & entries & Ls & -> & -> & Hl & Hrel).
  apply NoDup_cons in Hnd as [HlLs _].
  destruct (entries_rel_get _ _ _ _ _ _ Hrel Hget) as (vv & Lv & Hvv & Htv & HLv).
  set (k := py "inputSchema") in *. set (k2 := py "input_schema").
  set (h1 := <[l := ODict (dict_remove entries k)]> h).
  set (h2 := <[l := ODict (dict_set (dict_remove entries k) k2 vv)]> h1).
  assert (pop (VRef l) k h = (Ok vv, h1)) as Hpop.
  { cbn [pop]. unfold mbind, M_bind, deref. rewrite Hl.
    unfold lift, dict_pop. by rewrite Hvv. }
  assert (setitem (VRef l) k2 vv h1 = (Ok (), h2)) as Hset.
  { cbn [setitem]. unfold mbind, M_bind, deref, h1.
    by rewrite lookup_insert_eq. }
  assert (∀ l', l' ≠ l → h2 !! l' = h !! l') as Hagree.
  { intros l' Hne. unfold h2, h1. by rewrite !lookup_insert_ne. }
  assert (∀ l', l' ∈ concat Ls → h2 !! l' = h !! l') as Hagree'.
  { intros l' Hin. apply Hagree. by intros ->. }
  apply (entries_rel_frame _ h2) in Hrel; [|done].
  assert (tree h2 vv jv Lv) as Htv2.
  { apply (tree_frame h); [done|]. intros l' Hin. apply Hagree'.
    by eapply elem_of_concat_elem. }
  destruct (entries_rel_remove _ _ _ _ k Hrel) as (Ls1 & Hrel1 & Hsub1).
  destruct (entries_rel_set _ _ _ _ k2 _ _ _ Hrel1 Htv2) as (Ls2 & Hrel2 & Hsub2).
  exists h2, (l :: concat Ls2). unfold rename_input_schema.
  rewrite (bind_ok _ _ _ _ _ Hpop). split; [done|]. split; [|split].
  - eapply tree_dict_intro; [apply lookup_insert_eq|done].
  - intros l' Hl'. apply Hagree. intros ->. apply Hl'. by left.
  - intros l' [->|Hl']%elem_of_cons; [by left|]. right.
    apply (elem_of_concat_subseteq Ls2); [|done].
    intros X HX. apply Hsub2 in HX. apply elem_of_cons in HX as [->|HX]; [done|].
    by apply Hsub1.
Qed.

Lemma rename_all_tree js ss :
  mapM native_tool js = Ok ss →
  ∀ h vs Ls,
    Forall3 (tree h) vs js Ls → NoDup (concat Ls) →
    ∃ us h' Ls2,
      mapH rename_input_schema vs h = (Ok us, h') ∧
      Forall3 (tree h') vs ss Ls2 ∧
      (∀ l, l ∉ concat Ls → h' !! l = h !! l) ∧
      (∀ l, l ∈ concat Ls2 → l ∈ concat Ls).
Proof.
  revert ss. induction js as [|j js IH]; intros ss Hss h vs Ls Hts Hnd.
  - injection Hss as <-. inv Hts. exists [], h, [].
    split; [done|]. split; [constructor|]. split; done.
  - cbn [mapM] in Hss.
    destruct (native_tool j) as [s|] eqn:Hs; [|done].
    destruct (mapM native_tool js) as [ss'|] eqn:Hss'; [|done].
    injection Hss as <-.
    apply Forall3_cons_inv_m in Hts as (v & vs' & L & Ls' & -> & -> & Ht & Hts).
    simpl in Hnd. apply NoDup_app in Hnd as (HndL & Hdisj & HndLs).
    destruct (rename_tree _ _ _ _ _ Ht HndL Hs) as (h1 & L2 & Hren & Ht1 & Hagree1 & HL2).
    destruct (IH _ eq_refl h1 vs' Ls') as (us & h2 & Ls2 & Hrens & Hts2 & Hagree2 & HLs2);
      [|done|].
    { apply (trees_frame h); [done|]. intros l Hl. apply Hagree1.
      intros HlL. by apply (Hdisj l). }
    exists (() :: us), h2, (L2 :: Ls2). cbn [mapH].
    rewrite (bind_ok _ _ _ _ _ Hren), (bind_ok _ _ _ _ _ Hrens).
    split; [done|]. split; [|split].
    + constructor; [|done]. apply (tree_frame h1); [done|].
      intros l Hl. apply Hagree2. intros Hl'. apply (Hdisj l); [by apply HL2|done].
    + intros l Hl. simpl in Hl. rewrite elem_of_app in Hl.
      rewrite Hagree2 by tauto. apply Hagree1. tauto.
    + simpl. intros l [Hl|Hl]%elem_of_app; apply elem_of_app; auto.
Qed.

Lemma anthropic_tree h tools js L ss d :
  tree h tools (JList js) L → NoDup L →
  to_native_tool_schema js = Ok ss → height (JList js) ≤ d →
  ∃ r h',
    transform_tools_to_antrophic_format d tools h = (Ok r, h') ∧ h ⊆ h' ∧
    repr_outside h h' r (JList ss).
Proof.
  intros Ht Hnd Hss Hd.
  destruct (deepcopy_tree (JList js) d tools ∅ h L Ht Hnd)
    as (t & memo' & h1 & L' & Hcopy & Hsub1 & Ht' & Hnd' & Hfresh' & _); [|done|].
  { intros l _. apply lookup_empty. }
  apply tree_list_inv in Ht' as (y & items & Ls' & -> & -> & Hy & Hts').
  apply NoDup_cons in Hnd' as [HyLs' HndLs'].
  destruct (rename_all_tree _ _ Hss h1 items Ls' Hts' HndLs')
    as (us & h2 & Ls2 & Hrens & Hts2 & Hagree & HLs2).
  assert (transform_tools_to_antrophic_format d tools h = (Ok (VRef y), h2)) as Hrun.
  { unfold transform_tools_to_antrophic_format, deepcopy.
    assert (('(y0, _) ← deepcopy_memo d tools ∅; mret y0) h = (Ok (VRef y), h1))
      as Hdc by (by rewrite (bind_ok _ _ _ _ _ Hcopy)).
    rewrite (bind_ok _ _ _ _ _ Hdc).
    assert (iter (VRef y) h1 = (Ok items, h1)) as Hiter.
    { cbn [iter]. unfold mbind, M_bind, deref. by rewrite Hy. }
    by rewrite (bind_ok _ _ _ _ _ Hiter), (bind_ok _ _ _ _ _ Hrens). }
  exists (VRef y), h2. split; [done|]. split; [by eapply keeps_anthropic|].
  exists (y :: concat Ls2). split.
  - eapply tree_list_intro; [|done]. by rewrite Hagree.
  - intros l [->|Hl]%elem_of_cons; apply Hfresh'; [by left|].
    right. by apply HLs2.
Qed.

Lemma repr_mono h h' v j : repr h v j → h ⊆ h' → repr h' v j.
Proof. intros [L Ht] Hsub. exists L. by eapply tree_mono. Qed.

Lemma repr_list_length h v js :
  repr h v (JList js) → length (items_of h v) = length js.
Proof.
  intros [L (l & items & Ls & -> & -> & Hl & Hts)%tree_list_inv].
  cbn [items_of]. rewrite Hl. by apply Forall3_length_lm in Hts.
Qed.

Lemma mapM_length {A B} (f : A → result B) l bs :
  mapM f l = Ok bs → length bs = length l.
Proof.
  revert bs. induction l as [|a l IH]; intros bs; [by intros [= <-]|].
  cbn [mapM]. destruct (f a) as [b|]; [|done].
  destruct (mapM f l) as [bs'|]; [|done]. intros [= <-].
  simpl. f_equal. by apply IH.
Qed.

(** Claim C9, as the code has it.  Neither transform changes an object
    that exists when it is called, whatever it is given and whether it
    returns or raises.  For a catalog loaded from JSON whose tools have
    the keys both transforms read, and a recursion limit above its
    nesting depth: the function-call transform returns a new list of
    new wrappers that reads as the function-call schema, and the
    [parameters] of each wrapper is the very value the tool has under
    [inputSchema] (shared with the catalog, not copied); the native-tool
    transform returns a value that reads as the native-tool schema and
    is made of new objects only; after both calls, and after a second
    native-tool call, every earlier result and the catalog still read
    as before; each schema list is as long as the catalog, so an empty
    catalog gives an empty list. *)
Theorem transforms_keep_catalog (catalog : list json) (depth : nat) (h0 : heap)
    (fc nt : list json) :
  to_function_call_schema catalog = Ok fc →
  to_native_tool_schema catalog = Ok nt →
  height (JList catalog) ≤ depth →
  (∀ x h r h', transform_tools_to_openai_format x h = (r, h') → h ⊆ h') ∧
  (∀ d x h r h', transform_tools_to_antrophic_format d x h = (r, h') → h ⊆ h') ∧
  ∃ tools h,
    load (JList catalog) h0 = (Ok tools, h) ∧ repr h tools (JList catalog) ∧
    ∃ r1 h1,
      transform_tools_to_openai_format tools h = (Ok r1, h1) ∧
      repr h1 r1 (JList fc) ∧ new_val h r1 ∧
      Forall2 (wraps h h1) (items_of h tools) (items_of h1 r1) ∧
      length (items_of h1 r1) = length catalog ∧
      repr h1 tools (JList catalog) ∧
      ∃ r2 h2,
        transform_tools_to_antrophic_format depth tools h1 = (Ok r2, h2) ∧
        repr_outside h1 h2 r2 (JList nt) ∧
        length (items_of h2 r2) = length catalog ∧
        repr h2 r1 (JList fc) ∧ repr h2 tools (JList catalog) ∧
        ∃ r3 h3,
          transform_tools_to_antrophic_format depth tools h2 = (Ok r3, h3) ∧
          repr_outside h2 h3 r3 (JList nt) ∧
          repr h3 r2 (JList nt) ∧ repr h3 r1 (JList fc) ∧
          repr h3 tools (JList catalog) ∧ h ⊆ h3.
Proof.
  intros Hfc Hnt Hd.
  split; [intros x h r h'; by apply (keeps_openai h)|].
  split; [apply keeps_anthropic|].
  destruct (load_tree (JList catalog) h0)
    as (tools & L & h & Hload & _ & Ht & Hnd & _).
  exists tools, h. split; [done|]. split; [by exists L|].
  destruct (openai_tree _ _ _ _ _ Ht Hfc) as (r1 & h1 & Hrun1 & Hsub1 & Hr1 & Hnew1 & Hwraps).
  exists r1, h1. split; [done|]. split; [done|]. split; [done|]. split; [done|].
  split; [by rewrite (repr_list_length _ _ _ Hr1), (mapM_length _ _ _ Hfc)|].
  assert (tree h1 tools (JList catalog) L) as Ht1 by (by eapply tree_mono).
  split; [by exists L|].
  destruct (anthropic_tree _ _ _ _ _ depth Ht1 Hnd Hnt Hd)
    as (r2 & h2 & Hrun2 & Hsub2 & Hr2).
  exists r2, h2. split; [done|]. split; [done|].
  assert (repr h2 r2 (JList nt)) as Hr2' by (destruct Hr2 as (? & ? & _); by eexists).
  split; [by rewrite (repr_list_length _ _ _ Hr2'), (mapM_length _ _ _ Hnt)|].
  split; [by eapply repr_mono|].
  assert (tree h2 tools (JList catalog) L) as Ht2 by (by eapply tree_mono).
  split; [by exists L|].
  destruct (anthropic_tree _ _ _ _ _ depth Ht2 Hnd Hnt Hd)
    as (r3 & h3 & Hrun3 & Hsub3 & Hr3).
  exists r3, h3. split; [done|]. split; [done|].
  split; [by eapply repr_mono|]. split; [eapply repr_mono; [done|by etrans]|].
  split; [exists L; by eapply tree_mono|]. by repeat (etrans; [done|]).
Qed.

Lemma transforms_keep_catalog_witness :
  height (JList [sample_tool]) ≤ 3 ∧
  ∃ fc nt tools h r1 h1 r2 h2,
    to_function_call_schema [sample_tool] = Ok fc ∧
    to_native_tool_schema [sample_tool] = Ok nt ∧
    load (JList [sample_tool]) ∅ = (Ok tools, h) ∧
    transform_tools_to_openai_format tools h = (Ok r1, h1) ∧
    transform_tools_to_antrophic_format 3 tools h1 = (Ok r2, h2) ∧
    repr h2 r1 (JList fc) ∧ repr_outside h1 h2 r2 (JList nt) ∧
    repr h2 tools (JList [sample_tool]).
Proof.
  assert (height (JList [sample_tool]) ≤ 3) as Hd by (vm_compute; lia).
  split; [exact Hd|].
  destruct (transforms_keep_catalog [sample_tool] 3 ∅ _ _ eq_refl eq_refl Hd)
    as (_ & _ & tools & h & Hload & _ & r1 & h1 & Hrun1 & _ & _ & _ & _ & _ &
        r2 & h2 & Hrun2 & Hr2 & _ & Hr1 & Ht & _).
  eexists _, _, tools, h, r1, h1, r2, h2.
  split; [reflexivity|]. split; [reflexivity|]. auto 10.
Defined.

(** ** Following a reading through the heap *)

Lemma entries_rel_get_l T entries kjs Ls k v :
  entries_rel T entries kjs Ls → dict_get entries k = Some v →
  ∃ jv Lv, dict_get kjs k = Some jv ∧ T v jv Lv ∧ Lv ∈ Ls.
Proof.
  induction 1 as [|[k1 v1] [k2 j] L entries kjs Ls [Hk Ht] _ IH]; [done|].
  simpl in *. subst k2. destruct (decide (k1 = k)) as [->|Hne].
  - intros [= <-]. exists j, L. split; [done|]. split; [done|by left].
  - intros Hget. destruct (IH Hget) as (jv & Lv & ? & ? & ?).
    exists jv, Lv. split; [done|]. split; [done|by right].
Qed.

Lemma tree_root h l j L : tree h (VRef l) j L → l ∈ L.
Proof.
  inversion 1 as [j' v Ha|]; subst; [by apply atom_not_ref in Ha|by left].
Qed.

Lemma tree_field h x j L k v :
  tree h x j L → field h x k = Some v →
  ∃ jv Lv, tree h v jv Lv ∧ ∀ l, l ∈ Lv → l ∈ L.
Proof.
  intros Ht Hf. destruct x as [| | | |l]; try done. cbn [field] in Hf.
  inversion Ht as [j' v' Ha|l' o j' Ls Hl Hshape Hts]; subst;
    [by apply atom_not_ref in Ha|].
  rewrite Hl in Hf. destruct o as [|entries]; [done|].
  destruct j as [| | | | |kjs]; try done.
  pose proof (entries_rel_intro _ _ _ _ Hshape Hts) as Hrel.
  destruct (entries_rel_get_l _ _ _ _ _ _ Hrel Hf) as (jv & Lv & _ & Htv & HLv).
  exists jv, Lv. split; [done|]. intros l0 Hl0. right.
  by eapply elem_of_concat_elem.
Qed.

Lemma trees_item h items js Ls v :
  Forall3 (tree h) items js Ls → v ∈ items →
  ∃ jv Lv, tree h v jv Lv ∧ Lv ∈ Ls.
Proof.
  induction 1 as [|v0 j0 L0 items js Ls Ht0 _ IH]; intros Hv.
  - by apply elem_of_nil in Hv.
  - apply elem_of_cons in Hv as [->|Hv].
    + exists j0, L0. split; [done|by left].
    + destruct (IH Hv) as (jv & Lv & ? & ?). exists jv, Lv.
      split; [done|by right].
Qed.

Lemma tree_item h x j L v :
  tree h x j L → v ∈ items_of h x →
  ∃ jv Lv, tree h v jv Lv ∧ ∀ l, l ∈ Lv → l ∈ L.
Proof.
  intros Ht Hv. destruct x as [| | | |l]; try by apply elem_of_nil in Hv.
  cbn [items_of] in Hv.
  inversion Ht as [j' v' Ha|l' o j' Ls Hl Hshape Hts]; subst;
    [by apply atom_not_ref in Ha|].
  rewrite Hl in Hv. destruct o as [items|]; [|by apply elem_of_nil in Hv].
  destruct (trees_item _ _ _ _ _ Hts Hv) as (jv & Lv & Htv & HLv).
  exists jv, Lv. split; [done|]. intros l0 Hl0. right.
  by eapply elem_of_concat_elem.
Qed.

(** What [wraps] shares cannot be outside the old heap. *)
Lemma wraps_not_outside h h' r j tool entry lp :
  entry ∈ items_of h' r → wraps h h' tool entry →
  field h tool (py "inputSchema") = Some (VRef lp) → is_Some (h !! lp) →
  ¬ repr_outside h h' r j.
Proof.
  intros Hentry (_ & f & p & Hf & _ & Hp & Hs) Htool Hlp (L & Ht & Hout).
  assert (p = VRef lp) as -> by congruence.
  destruct (tree_item _ _ _ _ _ Ht Hentry) as (je & Le & Hte & HLe).
  destruct (tree_field _ _ _ _ _ _ Hte Hf) as (jf & Lf & Htf & HLf).
  destruct (tree_field _ _ _ _ _ _ Htf Hp) as (jp & Lp & Htp & HLp).
  apply tree_root in Htp.
  assert (h !! lp = None) as Hnone by (apply Hout, HLe, HLf, HLp, Htp).
  rewrite Hnone in Hlp. by destruct Hlp.
Qed.

(** Claim C9 as stated fails for the function-call transform: on the
    one-tool catalog its result is not an independent copy, the
    [parameters] of the entry is the object the tool has under
    [inputSchema]. *)
Lemma function_call_schema_shares_catalog :
  ∃ tools h fc r1 h1,
    load (JList [sample_tool]) ∅ = (Ok tools, h) ∧
    to_function_call_schema [sample_tool] = Ok fc ∧
    transform_tools_to_openai_format tools h = (Ok r1, h1) ∧
    (∃ tool entry function schema,
        items_of h tools = [tool] ∧ items_of h1 r1 = [entry] ∧
        field h tool (py "inputSchema") = Some (VRef schema) ∧
        is_Some (h !! schema) ∧
        field h1 entry (py "function") = Some function ∧
        field h1 function (py "parameters") = Some (VRef schema)) ∧
    ¬ repr_outside h h1 r1 (JList fc).
Proof.
  eexists _, _, _, _, _.
  split; [vm_compute; reflexivity|]. split; [reflexivity|].
  split; [vm_compute; reflexivity|]. split.
  - exists (VRef 2%positive), (VRef 5%positive), (VRef 4%positive), 1%positive.
    repeat split; try (vm_compute; reflexivity). by eexists.
  - eapply (wraps_not_outside _ _ _ _ (VRef 2%positive) (VRef 5%positive) 1%positive).
    + vm_compute. by left.
    + split; [by vm_compute|]. exists (VRef 4%positive), (VRef 1%positive).
      repeat split; by vm_compute.
    + by vm_compute.
    + by eexists.
Qed.
End HeapFacts.

(* ===================================================================== *)
(** * Further properties of [main] and of the matcher *)
(* ===================================================================== *)

Lemma aggregate_value evaluations_df acc c t :
  aggregate evaluations_df = Ok (acc, c, t) →
  py "score" ∈ df_columns evaluations_df ∧
  t = Z.of_nat (length (df_rows evaluations_df)) ∧
  c = Z.of_nat (count_correct (df_rows evaluations_df)) ∧
  (0 <= c <= t)%Z ∧
  (acc == if decide (t = 0)%Z then 0 else c # Z.to_pos t)%Q ∧
  (0 <= acc <= 1)%Q.
Proof.
  destruct (decide (py "score" ∈ df_columns evaluations_df)) as [Hcol|Hcol].
  - rewrite (aggregate_scored _ Hcol). intros [= <- <- <-].
    pose proof (count_correct_le (df_rows evaluations_df)) as Hle.
    split; [done|]. split; [done|]. split; [done|]. split; [lia|].
    apply accuracy_bounds. lia.
  - by rewrite (aggregate_unscored _ Hcol).
Qed.

Section results.
Context {world : Type} `{!Env world}.

Lemma evaluate_model_entry ds task_fnc name w r w' :
  evaluate_model ds task_fnc name w = (Ok r, w') → evaluated_entry name r.
Proof.
  unfold evaluate_model.
  destruct (run_experiment _ _ _ _ _ _) as [[experiment|e] w1]; [|done].
  destruct (aggregate _) as [[[acc c] t]|e] eqn:Hagg; [|done].
  destruct (print_sample _) as [[]|e]; [|done].
  intros [= <- <-]. apply aggregate_value in Hagg as (_ & _ & _ & ? & ? & ?).
  unfold evaluated_entry. simpl. do 3 (split; [done|]).
  split; [by eexists|]. auto.
Qed.

Lemma run_models_entries ds tools models results w rs w' :
  run_models ds tools models results w = (Ok rs, w') →
  ∃ rs', rs = results ++ rs' ∧ Forall2 entry_for models rs'.
Proof.
  revert results w. induction models as [|m models IH]; intros results w.
  - intros [= <- <-]. exists []. by rewrite (right_id_L [] (++)).
  - cbn [run_models]. unfold entry_for, known_model.
    destruct (startswith m (py "gpt")) eqn:Hgpt.
    { destruct (evaluate_model _ _ _ _) as [[r|e] w1] eqn:Hr; [|done].
      intros (rs' & -> & Hrs')%IH. exists (r :: rs').
      rewrite <-(assoc_L (++)). split; [done|]. constructor; [|done].
      rewrite Hgpt. by eapply evaluate_model_entry. }
    destruct (startswith m (py "claude")) eqn:Hclaude.
    { destruct (evaluate_model _ _ _ _) as [[r|e] w1] eqn:Hr; [|done].
      intros (rs' & -> & Hrs')%IH. exists (r :: rs').
      rewrite <-(assoc_L (++)). split; [done|]. constructor; [|done].
      rewrite Hgpt, Hclaude. by eapply evaluate_model_entry. }
    intros (rs' & -> & Hrs')%IH. exists (unknown_model m :: rs').
    rewrite <-(assoc_L (++)). split; [done|]. constructor; [|done].
    by rewrite Hgpt, Hclaude.
Qed.

(** Once the loop is reached, [collect_results] is the loop. *)
Lemma collect_results_loop w tools ds w0 :
  reaches_loop w tools ds w0 →
  collect_results w
  = match run_models ds (catalog_items tools) MODELS_TO_EVALUATE [] w0 with
    | (Ok results, w') => (Next results, w')
    | (Raise e, w') => (Stop (Uncaught e), w')
    end.
Proof.
  intros (wc & wd & n & (wa & wb & Hv & Hp & Hj) & Hn & Hc & Hd).
  unfold collect_results, load_tools. rewrite Hv. cbn [negb]. rewrite Hp.
  cbn [negb]. rewrite Hj, Hn, Hc, Hd.
  by destruct (run_models _ _ _ _ _) as [[rs|e] w'].
Qed.

(** Every way [collect_results] can go, with what has happened. *)
Lemma collect_results_inv w s w' :
  collect_results w = (s, w') ↔
  match s with
  | Next results =>
      ∃ tools ds w0,
        reaches_loop w tools ds w0 ∧
        run_models ds (catalog_items tools) MODELS_TO_EVALUATE [] w0
        = (Ok results, w')
  | Stop o =>
      stops_early w o w' ∨
      ∃ e tools ds w0,
        o = Uncaught e ∧ reaches_loop w tools ds w0 ∧
        run_models ds (catalog_items tools) MODELS_TO_EVALUATE [] w0
        = (Raise e, w')
  end.
Proof.
  split.
  - unfold collect_results, load_tools.
    destruct (validate_env_vars w) as [[] wa] eqn:Hv; cbn [negb].
    2: { intros [= <- <-]. left. split; [done|]. by left. }
    destruct (tools_path_exists wa) as [[] wb] eqn:Hp; cbn [negb].
    2: { intros [= <- <-]. left. split; [done|]. right. left. by exists wa. }
    destruct (json_load wb) as [[tools|e] wc] eqn:Hj.
    2: { intros [= <- <-]. left. left. by exists wa, wb. }
    assert (has_loaded w tools wc) as Hl by (by exists wa, wb).
    destruct (json_len tools) as [n|e] eqn:Hn.
    2: { intros [= <- <-]. left. right. left. by exists tools. }
    destruct (phoenix_client wc) as [[[]|e] wd] eqn:Hc.
    2: { intros [= <- <-]. left. right. right. by exists tools, wc, n. }
    destruct (get_dataset DATASET_NAME wd) as [[ds|e] w0] eqn:Hd.
    2: { intros [= <- <-]. left. split; [done|]. right. right.
         by exists tools, wc, n, wd, e. }
    assert (reaches_loop w tools ds w0) as Hr by (by exists wc, wd, n).
    destruct (run_models _ _ _ _ _) as [[rs|e] w2] eqn:Hrun; intros [= <- <-].
    + by exists tools, ds, w0.
    + right. by exists e, tools, ds, w0.
  - destruct s as [results|o].
    { intros (tools & ds & w0 & Hr & Hrun).
      by rewrite (collect_results_loop _ _ _ _ Hr), Hrun. }
    intros [Hearly|(e & tools & ds & w0 & -> & Hr & Hrun)].
    2: { by rewrite (collect_results_loop _ _ _ _ Hr), Hrun. }
    unfold collect_results, load_tools.
    destruct o as [code|code|e]; [done| |].
    + destruct Hearly as [-> [Hv|[(wa & Hv & Hp)|Hd]]].
      * by rewrite Hv.
      * rewrite Hv. cbn [negb]. by rewrite Hp.
      * destruct Hd as (tools & wc & n & wd & e & (wa & wb & Hv & Hp & Hj)
                        & Hn & Hc & Hd).
        rewrite Hv. cbn [negb]. rewrite Hp. cbn [negb].
        by rewrite Hj, Hn, Hc, Hd.
    + destruct Hearly as [(wa & wb & Hv & Hp & Hj)|[Hn|Hc]].
      * rewrite Hv. cbn [negb]. rewrite Hp. cbn [negb]. by rewrite Hj.
      * destruct Hn as (tools & (wa & wb & Hv & Hp & Hj) & Hn).
        rewrite Hv. cbn [negb]. rewrite Hp. cbn [negb]. by rewrite Hj, Hn.
      * destruct Hc as (tools & wc & n & (wa & wb & Hv & Hp & Hj) & Hn & Hc).
        rewrite Hv. cbn [negb]. rewrite Hp. cbn [negb]. by rewrite Hj, Hn, Hc.
Qed.

(** What [collect_results] has done when it reaches the gate. *)
Lemma collect_results_next w results w' :
  collect_results w = (Next results, w') →
  ∃ tools ds w0,
    reaches_loop w tools ds w0 ∧
    run_models ds (catalog_items tools) MODELS_TO_EVALUATE [] w0
    = (Ok results, w').
Proof. intros Hc. by apply collect_results_inv in Hc. Qed.

(** Property X1.  When [main] reaches the gate, [results] has one entry per
    configured name, in the order of [MODELS_TO_EVALUATE]: for a name
    that starts with [gpt] or [claude] an entry under the key [model]
    with no error, an experiment id, [0 <= correct <= total] and the
    accuracy [correct / total] (0 when [total] is 0), which lies
    between 0 and 1; for any other name the entry of an unknown model
    under the key [model_name].  So an entry has an error exactly when
    it has no key [model], and then it is that of an unknown model. *)
Theorem results_follow_models w results w' :
  collect_results w = (Next results, w') →
  Forall2 entry_for MODELS_TO_EVALUATE results ∧
  length results = length MODELS_TO_EVALUATE ∧
  (∀ r, r ∈ results →
     (error r = None ↔ is_Some (model r)) ∧
     (error r ≠ None → r = unknown_model (default [] (model_name r))) ∧
     (0 <= correct r <= total r)%Z ∧ (0 <= accuracy r <= 1)%Q).
Proof.
  intros (tools & ds & w0 & _ & Hrun)%collect_results_next.
  apply run_models_entries in Hrun as (rs' & -> & Hrs). simpl.
  split; [done|]. split; [symmetry; by eapply Forall2_length|].
  intros r Hr. apply list_elem_of_lookup in Hr as [i Hi].
  destruct (Forall2_lookup_r _ _ _ _ _ Hrs Hi) as (m & _ & Hm).
  unfold entry_for in Hm. destruct (known_model m).
  - destruct Hm as (Hmodel & _ & Herr & _ & ? & _ & ?).
    rewrite Hmodel, Herr. split; [split; [by eexists|done]|].
    split; [done|]. auto.
  - subst r. simpl. split; [split; [done|by intros [? ?]]|].
    split; [done|]. split; done.
Qed.
End results.

Lemma results_follow_models_witness :
  ∃ results w',
    collect_results (Env0 := three_models) [] = (Next results, w') ∧
    Forall2 entry_for (MODELS_TO_EVALUATE (Env := three_models)) results.
Proof.
  eexists _, _. split; [vm_compute; reflexivity|].
  destruct (results_follow_models (Env0 := three_models) [] _ _ eq_refl) as [H _].
  exact H.
Defined.

Section outcomes.
Context {world : Type} `{!Env world}.

(** Property X2.  An exception out of the loop is not caught: [main] ends with it at
    the first model whose evaluation raises, and no later model is
    looked at. *)
Theorem first_failure_ends_main w wa wb tools wc n wd ds w0 pre m post rs w1
    e w2 :
  validate_env_vars w = (true, wa) →
  tools_path_exists wa = (true, wb) →
  json_load wb = (Ok tools, wc) →
  json_len tools = Ok n →
  phoenix_client wc = (Ok (), wd) →
  get_dataset DATASET_NAME wd = (Ok ds, w0) →
  MODELS_TO_EVALUATE = pre ++ m :: post →
  run_models ds (catalog_items tools) pre [] w0 = (Ok rs, w1) →
  run_models ds (catalog_items tools) [m] rs w1 = (Raise e, w2) →
  main w = (Uncaught e, w2) ∧ process_exit_code w = 1%Z ∧
  known_model m = true.
Proof.
  intros Hv Hp Hj Hn Hc Hd Hmodels Hpre Hm.
  assert (run_models ds (catalog_items tools) MODELS_TO_EVALUATE [] w0
          = (Raise e, w2)) as Hrun.
  { rewrite Hmodels, run_models_app, Hpre.
    change (m :: post) with ([m] ++ post). by rewrite run_models_app, Hm. }
  assert (main w = (Uncaught e, w2)) as Hmain.
  { unfold main.
    rewrite (collect_results_loop w tools ds w0), Hrun; [done|].
    exists wc, wd, n. split; [by exists wa, wb|done]. }
  split; [done|]. split; [unfold process_exit_code; by rewrite Hmain|].
  unfold known_model. cbn [run_models] in Hm.
  destruct (startswith m (py "gpt")); [done|].
  by destruct (startswith m (py "claude")).
Qed.

(** Property X3.  The ways a run of [main] can end, each with what has
    happened, and nothing else: it returns the verdict of the gate after
    the loop has gone through every model; it leaves with [sys.exit(1)]
    exactly when the environment is not valid, when tools.json is
    missing, or when the dataset cannot be fetched; it ends with an
    exception, which nothing catches, exactly when [json.load] raises,
    when [len(tools)] raises, when [PhoenixClient()] raises, or when the
    loop over the models raises. *)
Theorem main_outcomes w o w' :
  main w = (o, w') ↔
  match o with
  | Returned code =>
      ∃ tools ds w0 results,
        reaches_loop w tools ds w0 ∧
        run_models ds (catalog_items tools) MODELS_TO_EVALUATE [] w0
        = (Ok results, w') ∧
        code = exit_code_of (all_passed PASS_THRESHOLD results)
  | SysExit code =>
      code = 1%Z ∧
      (validate_env_vars w = (false, w') ∨
       (∃ wa, validate_env_vars w = (true, wa) ∧
              tools_path_exists wa = (false, w')) ∨
       (∃ tools wc n wd e,
          has_loaded w tools wc ∧ json_len tools = Ok n ∧
          phoenix_client wc = (Ok (), wd) ∧
          get_dataset DATASET_NAME wd = (Raise e, w')))
  | Uncaught e =>
      (∃ wa wb,
         validate_env_vars w = (true, wa) ∧
         tools_path_exists wa = (true, wb) ∧
         json_load wb = (Raise e, w')) ∨
      (∃ tools, has_loaded w tools w' ∧ json_len tools = Raise e) ∨
      (∃ tools wc n,
         has_loaded w tools wc ∧ json_len tools = Ok n ∧
         phoenix_client wc = (Raise e, w')) ∨
      (∃ tools ds w0,
         reaches_loop w tools ds w0 ∧
         run_models ds (catalog_items tools) MODELS_TO_EVALUATE [] w0
         = (Raise e, w'))
  end.
Proof.
  unfold main. split.
  - destruct (collect_results w) as [[results|o'] w1] eqn:Hc;
      intros [= <- <-]; apply collect_results_inv in Hc.
    + destruct Hc as (tools & ds & w0 & Hr & Hrun).
      by exists tools, ds, w0, results.
    + destruct Hc as [Hearly|(e & tools & ds & w0 & -> & Hr & Hrun)].
      * destruct o' as [code|code|e]; [done|done|].
        destruct Hearly as [?|[?|?]]; auto.
      * do 3 right. by exists tools, ds, w0.
  - destruct o as [code|code|e].
    + intros (tools & ds & w0 & results & Hr & Hrun & ->).
      assert (collect_results w = (Next results, w')) as ->; [|done].
      apply collect_results_inv. by exists tools, ds, w0.
    + intros Hearly.
      assert (collect_results w = (Stop (SysExit code), w')) as ->; [|done].
      apply collect_results_inv. by left.
    + intros Hcases.
      assert (collect_results w = (Stop (Uncaught e), w')) as ->; [|done].
      apply collect_results_inv.
      destruct Hcases as [?|[?|[?|(tools & ds & w0 & Hr & Hrun)]]].
      * left. by left.
      * left. right. by left.
      * left. right. by right.
      * right. by exists e, tools, ds, w0.
Qed.

(** Property X4.  The process ends with status 0 or 1, and with 0 only through the
    gate: every model has been handled and [all_passed] holds. *)
Theorem exit_status_zero_or_one w :
  (process_exit_code w = 0%Z ∨ process_exit_code w = 1%Z) ∧
  (process_exit_code w = 0%Z ↔
   ∃ results w',
     collect_results w = (Next results, w') ∧
     all_passed PASS_THRESHOLD results = true).
Proof.
  unfold process_exit_code, main.
  destruct (collect_results w) as [[results|o] w'] eqn:Hc; cbn [fst].
  - destruct (all_passed PASS_THRESHOLD results) eqn:Hall; simpl.
    + split; [by left|]. split; [|done]. intros _. by exists results, w'.
    + split; [by right|]. split; [done|].
      intros (results' & w'' & [= <- <-] & Hall'). congruence.
  - apply collect_results_inv in Hc. destruct o as [code|code|e].
    + by destruct Hc as [?|(? & ? & ? & ? & ? & _)].
    + destruct Hc as [[-> _]|(? & ? & ? & ? & ? & _)]; [|done].
      split; [by right|]. split; [done|].
      by intros (results & w'' & [=] & _).
    + split; [by right|]. split; [done|].
      by intros (results & w'' & [=] & _).
Qed.

(** ** The gate and the threshold *)

Lemma all_passed_mono thr thr' rs :
  (thr' <= thr)%Q → all_passed thr rs = true → all_passed thr' rs = true.
Proof.
  intros Hle. rewrite !all_passed_true. intros H r Hr He.
  eapply Qle_trans; [done|]. by apply H.
Qed.

(** Property X5.  The gate is monotone in the threshold: results that pass a
    threshold pass every lower one. *)
Theorem lower_threshold_keeps_pass thr thr' rs :
  (thr' <= thr)%Q →
  exit_code_of (all_passed thr rs) = 0%Z →
  exit_code_of (all_passed thr' rs) = 0%Z.
Proof.
  intros Hle. destruct (all_passed thr rs) eqn:Hall; [|done]. intros _.
  by rewrite (all_passed_mono _ _ _ Hle Hall).
Qed.

(** Property X6.  With a threshold of zero or less the gate cannot fail: a run that
    reaches it ends with status 0, whatever the models answered. *)
Theorem threshold_not_positive w results w' :
  (PASS_THRESHOLD <= 0)%Q →
  collect_results w = (Next results, w') →
  process_exit_code w = 0%Z.
Proof.
  intros Hthr Hc.
  destruct (collect_results_next _ _ _ Hc) as (tools & ds & w0 & _ & Hrun).
  apply run_models_entries in Hrun as (rs' & -> & Hrs). simpl in *.
  unfold process_exit_code, main. rewrite Hc. cbn [fst].
  assert (all_passed PASS_THRESHOLD rs' = true) as ->; [|done].
  apply all_passed_true. intros r Hr He.
  apply list_elem_of_lookup in Hr as [i Hi].
  destruct (Forall2_lookup_r _ _ _ _ _ Hrs Hi) as (m & _ & Hm).
  unfold entry_for in Hm. destruct (known_model m).
  - destruct Hm as (_ & _ & _ & _ & _ & _ & Hacc & _). by eapply Qle_trans.
  - by subst r.
Qed.

(** Property X7.  With a threshold above one no evaluated model can pass: a run that
    reaches the gate ends with status 1 exactly when a configured name
    starts with [gpt] or [claude]; names of unknown type alone still
    give status 0. *)
Theorem threshold_above_one w results w' :
  (1 < PASS_THRESHOLD)%Q →
  collect_results w = (Next results, w') →
  (process_exit_code w = 1%Z ↔
   ∃ m, m ∈ MODELS_TO_EVALUATE ∧ known_model m = true).
Proof.
  intros Hthr Hc.
  destruct (collect_results_next _ _ _ Hc) as (tools & ds & w0 & _ & Hrun).
  apply run_models_entries in Hrun as (rs' & -> & Hrs). simpl in *.
  unfold process_exit_code, main. rewrite Hc. cbn [fst].
  destruct (all_passed PASS_THRESHOLD rs') eqn:Hall; simpl.
  - split; [done|]. intros (m & Hm & Hknown).
    apply list_elem_of_lookup in Hm as [i Hi].
    destruct (Forall2_lookup_l _ _ _ _ _ Hrs Hi) as (r & Hr & Hentry).
    unfold entry_for in Hentry. rewrite Hknown in Hentry.
    destruct Hentry as (_ & _ & Herr & _ & _ & _ & _ & Hacc).
    rewrite all_passed_true in Hall.
    assert (PASS_THRESHOLD <= accuracy r)%Q as Hle.
    { apply Hall; [|done]. apply list_elem_of_lookup. eauto. }
    exfalso. apply (Qlt_not_le _ _ Hthr). by eapply Qle_trans.
  - split; [|done]. intros _.
    apply all_passed_false in Hall as (r & Hr & Herr & _).
    apply list_elem_of_lookup in Hr as [i Hi].
    destruct (Forall2_lookup_r _ _ _ _ _ Hrs Hi) as (m & Hm & Hentry).
    exists m. split; [apply list_elem_of_lookup; eauto|].
    unfold entry_for in Hentry. destruct (known_model m); [done|].
    by subst r.
Qed.

(** ** A model without evaluations *)

Lemma run_models_known ds tools m rest results w :
  known_model m = true →
  run_models ds tools (m :: rest) results w
  = match evaluate_model ds (task_fnc_of m tools) m w with
    | (Ok summary, w') => run_models ds tools rest (results ++ [summary]) w'
    | (Raise e, w') => (Raise e, w')
    end.
Proof.
  unfold known_model, task_fnc_of. cbn [run_models].
  destruct (startswith m (py "gpt")).
  { intros _. by destruct (evaluate_model _ _ _ _) as [[r|e] w']. }
  destruct (startswith m (py "claude")); [|done].
  intros _. by destruct (evaluate_model _ _ _ _) as [[r|e] w'].
Qed.

(** What [main] stores, or raises, for an experiment without rows. *)
Lemma evaluate_model_no_rows ds tools m w experiment w' :
  run_experiment_for ds tools m w = (Ok experiment, w') →
  df_rows (exp_evaluations experiment) = [] →
  evaluate_model ds (task_fnc_of m tools) m w
  = (if decide (py "score" ∈ df_columns (exp_evaluations experiment))
     then Ok (empty_entry m experiment)
     else Raise (KeyError (py "score")), w').
Proof.
  unfold run_experiment_for, evaluate_model. intros -> Hrows.
  destruct (decide (py "score" ∈ df_columns (exp_evaluations experiment)))
    as [Hcol|Hcol].
  - rewrite (aggregate_scored _ Hcol), Hrows. cbn [length count_correct].
    rewrite decide_True by done. unfold print_sample. rewrite Hrows.
    by rewrite decide_False by (cbn [length]; lia).
  - by rewrite (aggregate_unscored _ Hcol).
Qed.

(** Property X8.  A model [main] knows whose experiment comes back without any
    evaluation row ends the run with status 1 under a positive
    threshold, whatever the other models do.  When the frame has the
    column [score] the model is stored with total 0 and accuracy 0 and
    fails the gate; when the frame has no such column, line 175 raises
    [KeyError('score')] before the guard for an empty frame is reached,
    and [main] ends with that exception. *)
Theorem no_evaluations_fail_gate w tools ds w0 pre m post rs w1 experiment w2 :
  reaches_loop w tools ds w0 →
  MODELS_TO_EVALUATE = pre ++ m :: post →
  run_models ds (catalog_items tools) pre [] w0 = (Ok rs, w1) →
  known_model m = true →
  run_experiment_for ds (catalog_items tools) m w1 = (Ok experiment, w2) →
  df_rows (exp_evaluations experiment) = [] →
  (0 < PASS_THRESHOLD)%Q →
  process_exit_code w = 1%Z ∧
  if decide (py "score" ∈ df_columns (exp_evaluations experiment))
  then
    evaluate_model ds (task_fnc_of m (catalog_items tools)) m w1
    = (Ok (empty_entry m experiment), w2) ∧
    ∀ results w',
      collect_results w = (Next results, w') →
      empty_entry m experiment ∈ results ∧
      all_passed PASS_THRESHOLD results = false
  else main w = (Uncaught (KeyError (py "score")), w2).
Proof.
  intros Hr Hmodels Hpre Hknown Hexp Hrows Hthr.
  pose proof (evaluate_model_no_rows _ _ _ _ _ _ Hexp Hrows) as Heval.
  pose proof (collect_results_loop _ _ _ _ Hr) as Hc.
  rewrite Hmodels, run_models_app, Hpre, (run_models_known _ _ _ _ _ _ Hknown),
    Heval in Hc.
  destruct (decide (py "score" ∈ df_columns (exp_evaluations experiment)))
    as [Hcol|Hcol].
  - rewrite run_models_acc in Hc.
    assert (∀ results w',
              collect_results w = (Next results, w') →
              empty_entry m experiment ∈ results ∧
              all_passed PASS_THRESHOLD results = false) as Hgate.
    { intros results w'. rewrite Hc.
      destruct (run_models _ _ post [] w2) as [[rs'|e] w3]; [|done].
      intros [= <- <-].
      assert (empty_entry m experiment ∈ (rs ++ [empty_entry m experiment]) ++ rs')
        as Hin.
      { apply elem_of_app. left. apply elem_of_app. right. by left. }
      split; [done|]. apply all_passed_false.
      exists (empty_entry m experiment). split; [done|]. by split. }
    split; [|by split].
    unfold process_exit_code, main.
    destruct (collect_results w) as [[results|o] w'] eqn:Hcr; cbn [fst].
    + destruct (Hgate _ _ eq_refl) as [_ ->]. done.
    + rewrite Hc in Hcr.
      destruct (run_models _ _ post [] w2) as [[rs'|e] w3];
        cbv beta iota in Hc; [done|].
      by injection Hc as -> _.
  - assert (main w = (Uncaught (KeyError (py "score")), w2)) as Hmain.
    { unfold main. by rewrite Hc. }
    split; [|done]. unfold process_exit_code. by rewrite Hmain.
Qed.
End outcomes.

Lemma first_failure_ends_main_witness :
  ∃ e w2,
    main (Env0 := openai_down false) [] = (Uncaught e, w2) ∧
    process_exit_code (Env0 := openai_down false) [] = 1%Z.
Proof.
  eexists _, _.
  destruct (first_failure_ends_main (Env0 := openai_down false)
              [] [] [] (JList [sample_tool]) [] 1 [] sample_dataset []
              [] (py "gpt-4o") [py "claude-3"] [] []
              (ExternalError (py "connection refused"))
              (run_models (Env0 := openai_down false) sample_dataset
                 [sample_tool] [py "gpt-4o"] [] []).2
              eq_refl eq_refl eq_refl eq_refl eq_refl eq_refl eq_refl eq_refl)
    as (Hmain & Hcode & _).
  - vm_compute. reflexivity.
  - split; [exact Hmain|exact Hcode].
Defined.

Lemma main_outcomes_witness :
  ∃ code w',
    main (Env0 := three_models) [] = (Returned code, w') ∧
    ∃ tools ds w0 results,
      reaches_loop (Env0 := three_models) [] tools ds w0 ∧
      run_models (Env0 := three_models) ds (catalog_items tools)
        (MODELS_TO_EVALUATE (Env := three_models)) [] w0
      = (Ok results, w') ∧
      code = exit_code_of
               (all_passed (PASS_THRESHOLD (Env := three_models)) results).
Proof.
  eexists _, _. split; [vm_compute; reflexivity|].
  exact (proj1 (main_outcomes (Env0 := three_models) [] (Returned _) _) eq_refl).
Defined.

Lemma lower_threshold_keeps_pass_witness :
  (5 # 10 <= 6 # 10)%Q ∧
  all_passed (6 # 10) [two_of_three; unknown_model (py "llama-3")] = true ∧
  all_passed (7 # 10) [two_of_three; unknown_model (py "llama-3")] = false ∧
  exit_code_of
    (all_passed (5 # 10) [two_of_three; unknown_model (py "llama-3")]) = 0%Z.
Proof.
  assert (5 # 10 <= 6 # 10)%Q as Hle by (by vm_compute).
  split; [exact Hle|]. split; [reflexivity|]. split; [reflexivity|].
  apply (lower_threshold_keeps_pass (6 # 10) (5 # 10)); [exact Hle|reflexivity].
Defined.

Lemma threshold_not_positive_witness :
  (PASS_THRESHOLD (Env := threshold_zero) <= 0)%Q ∧
  process_exit_code (Env0 := threshold_zero) [] = 0%Z.
Proof.
  assert (PASS_THRESHOLD (Env := threshold_zero) <= 0)%Q as Hthr by (by vm_compute).
  split; [exact Hthr|].
  exact (threshold_not_positive (Env0 := threshold_zero) [] _ _ Hthr eq_refl).
Defined.

Lemma threshold_above_one_witness :
  (1 < PASS_THRESHOLD (Env := threshold_two))%Q ∧
  process_exit_code (Env0 := threshold_two) [] = 1%Z.
Proof.
  assert (1 < PASS_THRESHOLD (Env := threshold_two))%Q as Hthr by (by vm_compute).
  split; [exact Hthr|].
  apply (threshold_above_one (Env0 := threshold_two) [] _ _ Hthr eq_refl).
  exists (py "gpt-4o"). split; [by left|reflexivity].
Defined.

Lemma no_evaluations_fail_gate_witness :
  (0 < PASS_THRESHOLD (Env := empty_dataset_run))%Q ∧
  process_exit_code (Env0 := empty_dataset_run) [] = 1%Z ∧
  ∃ w2, main (Env0 := empty_dataset_run) []
        = (Uncaught (KeyError (py "score")), w2).
Proof.
  assert (0 < PASS_THRESHOLD (Env := empty_dataset_run))%Q as Hthr
    by (by vm_compute).
  split; [exact Hthr|].
  assert (reaches_loop (Env0 := empty_dataset_run) [] (JList [sample_tool])
            (Dataset (py "ds-0") []) []) as Hr.
  { exists [], [], 1. split; [by exists [], []|]. by repeat split. }
  destruct (no_evaluations_fail_gate (Env0 := empty_dataset_run)
              [] (JList [sample_tool]) (Dataset (py "ds-0") []) []
              [] (py "gpt-4o") [] [] []
              (Experiment (py "MCP tool calling eval gpt-4o") (DataFrame [] []))
              [ExperimentRun (py "MCP tool calling eval gpt-4o")]
              Hr eq_refl eq_refl eq_refl eq_refl eq_refl Hthr)
    as [Hcode Hmain].
  split; [exact Hcode|]. eexists. exact Hmain.
Defined.

(** ** What the matcher can and cannot answer *)

Lemma tools_match_length expected observed :
  tools_match expected observed = true →
  length observed = length (expected_tools expected).
Proof.
  unfold tools_match. rewrite bool_decide_eq_true, sorted_eq_iff.
  intros Hp. by rewrite Hp.
Qed.

Lemma openai_tool_calls_length response names :
  openai_tool_calls response = Ok names → length names ≤ 1.
Proof.
  unfold openai_tool_calls. destruct (choices response) as [|choice0 ?]; [done|].
  destruct (msg_tool_calls choice0) as [[|call0 ?]|]; simpl; intros [= <-];
    simpl; lia.
Qed.

(** Property X9.  The OpenAI adapter returns at most one name, so an example that
    expects two tools or more is never matched by what it returns. *)
Theorem openai_never_matches_two expected response names :
  openai_tool_calls response = Ok names →
  2 ≤ length (expected_tools expected) →
  tools_match expected names = false.
Proof.
  intros Hnames%openai_tool_calls_length Hlen.
  apply not_true_iff_false. intros Hm%tools_match_length. lia.
Qed.

Lemma openai_never_matches_two_witness :
  openai_tool_calls
    (ChatCompletion
       [CompletionMessage None
          (Some [ToolCall (py "c1") (FunctionCall (py "x") (py "{}"));
                 ToolCall (py "c2") (FunctionCall (py "y") (py "{}"))])])
  = Ok [py "x"] ∧
  2 ≤ length (expected_tools (record_of (py "x, y"))) ∧
  tools_match (record_of (py "x, y")) [py "x"] = false.
Proof.
  assert (2 ≤ length (expected_tools (record_of (py "x, y")))) as Hlen
    by (vm_compute; lia).
  split; [reflexivity|]. split; [exact Hlen|].
  apply (openai_never_matches_two (record_of (py "x, y"))
    (ChatCompletion
       [CompletionMessage None
          (Some [ToolCall (py "c1") (FunctionCall (py "x") (py "{}"));
                 ToolCall (py "c2") (FunctionCall (py "y") (py "{}"))])])
    [py "x"]); [reflexivity|exact Hlen].
Defined.

(** ** What the stored record gives back *)

Lemma join_empty_inv l :
  join (py ", ") l = [] → l = [] ∨ l = [[]].
Proof.
  destruct l as [|x [|y l]]; simpl; [by left| |].
  - intros ->. by right.
  - intros Hnil. apply app_eq_nil in Hnil as [_ Hnil]. done.
Qed.

(** Property X10.  Whatever the names are, as long as none has a comma: the matcher
    reads from the stored string the names stripped of surrounding
    whitespace, without those that are empty or all whitespace. *)
Theorem stored_names_normalised (tc : test_case) :
  Forall (λ s, 44%N ∉ s) (tc_expected_tools tc) →
  expected_tools (expected_of_row (dataset_row tc))
  = strip <$> filter (λ tool, truthy (strip tool) = true) (tc_expected_tools tc) ∧
  ∀ observed,
    tools_match (expected_of_row (dataset_row tc)) observed = true ↔
    observed ≡ₚ strip <$> filter (λ tool, truthy (strip tool) = true)
                            (tc_expected_tools tc).
Proof.
  intros Hl.
  assert (expected_tools (expected_of_row (dataset_row tc))
    = strip <$> filter (λ tool, truthy (strip tool) = true) (tc_expected_tools tc))
    as Heq.
  { unfold expected_tools. rewrite lookup_expected_of_row. simpl default.
    destruct (truthy (join (py ", ") (tc_expected_tools tc))) eqn:Ht.
    - rewrite split_join; [done| |done]. by intros Hnil; rewrite Hnil in Ht.
    - assert (join (py ", ") (tc_expected_tools tc) = []) as Hnil
        by (by destruct (join _ _)).
      by destruct (join_empty_inv _ Hnil) as [->| ->]. }
  split; [done|]. intros observed. unfold tools_match.
  rewrite bool_decide_eq_true, sorted_eq_iff, Heq. split; intros Hp; by symmetry.
Qed.

Lemma stored_names_normalised_witness :
  let tc := TestCase (py "q") [py " search-actors "; py "  "; py "call-actor"]
              (py "c") in
  Forall (λ s, 44%N ∉ s) (tc_expected_tools tc) ∧
  expected_tools (expected_of_row (dataset_row tc))
  = [py "search-actors"; py "call-actor"].
Proof.
  intros tc.
  assert (Forall (λ s, 44%N ∉ s) (tc_expected_tools tc)) as Hl.
  { repeat constructor; apply (bool_decide_unpack _); vm_compute; exact I. }
  split; [exact Hl|].
  destruct (stored_names_normalised tc Hl) as [-> _]. reflexivity.
Defined.

(** ** A record that names no tool *)

Lemma lstrip_nil s : lstrip s = [] → Forall (λ c, is_space c = true) s.
Proof.
  induction s as [|c s IH]; [constructor|]. simpl.
  destruct (is_space c) eqn:Hc; [|done]. intros Hs. constructor; auto.
Qed.

Lemma strip_nil s : strip s = [] → Forall (λ c, is_space c = true) s.
Proof.
  unfold strip, rstrip. intros Hs.
  assert (lstrip (reverse (lstrip s)) = []) as Hl.
  { apply (f_equal reverse) in Hs. by rewrite reverse_involutive in Hs. }
  apply lstrip_nil in Hl. destruct (lstrip s) as [|c u] eqn:Hu.
  - by apply lstrip_nil.
  - apply lstrip_head in Hu as Hc. rewrite Forall_forall in Hl.
    rewrite Hl in Hc; [done|]. rewrite elem_of_reverse. by left.
Qed.

(** Property X11.  A record whose [tool_calls] is missing, empty or all whitespace
    names no tool: it is matched by the empty output and by nothing
    else. *)
Theorem blank_record_expects_nothing expected :
  truthy (strip (default [] (expected !! py "tool_calls"))) = false →
  expected_tools expected = [] ∧
  ∀ output, tools_match expected output = true ↔ output = [].
Proof.
  intros Hblank.
  assert (expected_tools expected = []) as Hnone.
  { unfold expected_tools.
    destruct (default [] (expected !! py "tool_calls")) as [|c s] eqn:Hs; [done|].
    cbn [truthy]. unfold split. rewrite split_go_last.
    - cbn [app filter list_filter]. rewrite decide_False; [done|].
      by rewrite Hblank.
    - assert (strip (c :: s) = []) as Hnil by (by destruct (strip (c :: s))).
      apply strip_nil in Hnil. rewrite Forall_forall in Hnil.
      intros Hin. by apply Hnil in Hin. }
  split; [done|]. intros output. unfold tools_match.
  rewrite bool_decide_eq_true, sorted_eq_iff, Hnone. split.
  - intros Hp. by apply Permutation_nil.
  - by intros ->.
Qed.

Lemma blank_record_expects_nothing_witness :
  expected_tools (record_of (py "  ")) = [] ∧
  tools_match (record_of (py "  ")) [] = true.
Proof.
  destruct (blank_record_expects_nothing (record_of (py "  ")) eq_refl)
    as [Hnone Hmatch].
  split; [exact Hnone|]. by apply Hmatch.
Defined.

(* ===================================================================== *)
(** * The outcome of the two transforms *)
(* ===================================================================== *)

Module HeapOutcomes.
Import Heap HeapFacts.


(** ** Dictionary operations: what a lookup finds afterwards *)

Lemma dict_get_set {V} (d : list (pystr * V)) k v k' :
  dict_get (dict_set d k v) k' = if decide (k = k') then Some v else dict_get d k'.
Proof.
  induction d as [|[k1 v1] d IH]; simpl.
  - by destruct (decide (k = k')).
  - destruct (decide (k1 = k)) as [->|Hne]; simpl.
    + by destruct (decide (k = k')).
    + destruct (decide (k1 = k')) as [->|Hne'].
      * by rewrite decide_False by done.
      * done.
Qed.

Lemma dict_get_remove_ne {V} (d : list (pystr * V)) k k' :
  k ≠ k' → dict_get (dict_remove d k) k' = dict_get d k'.
Proof.
  intros Hne. induction d as [|[k1 v1] d IH]; simpl; [done|].
  destruct (decide (k1 = k)) as [->|Hne1]; simpl.
  - by rewrite decide_False by done.
  - by destruct (decide (k1 = k')).
Qed.

Lemma dict_get_None_keys {V} (d : list (pystr * V)) k :
  k ∉ d.*1 → dict_get d k = None.
Proof.
  induction d as [|[k1 v1] d IH]; simpl; [done|].
  intros [Hne Hnin]%not_elem_of_cons. rewrite decide_False by done. auto.
Qed.

Lemma dict_get_remove {V} (d : list (pystr * V)) k :
  NoDup d.*1 → dict_get (dict_remove d k) k = None.
Proof.
  induction d as [|[k1 v1] d IH]; simpl; [done|].
  intros [Hnin Hnd]%NoDup_cons. destruct (decide (k1 = k)) as [->|Hne]; simpl.
  - by apply dict_get_None_keys.
  - rewrite decide_False by done. auto.
Qed.

Lemma dict_remove_length {V} (d : list (pystr * V)) k v :
  dict_get d k = Some v → S (length (dict_remove d k)) = length d.
Proof.
  induction d as [|[k1 v1] d IH]; simpl; [done|].
  destruct (decide (k1 = k)); simpl; [done|]. intros Hget. f_equal. auto.
Qed.

Lemma dict_set_length {V} (d : list (pystr * V)) k v :
  length (dict_set d k v) ≤ S (length d).
Proof.
  induction d as [|[k1 v1] d IH]; simpl; [done|].
  destruct (decide (k1 = k)); simpl; lia.
Qed.

(** ** The two transforms on JSON values *)

Lemma native_tool_renamed tool s : native_tool tool = Ok s → renamed tool s.
Proof.
  intros (kvs & v & -> & Hget & ->)%native_tool_inv.
  exists kvs, (dict_set (dict_remove kvs (py "inputSchema")) (py "input_schema") v), v.
  split; [done|]. split; [done|]. split; [done|].
  split; [by rewrite dict_get_set, decide_True|]. split; [|split].
  - intros k Hk1 Hk2. rewrite dict_get_set, decide_False by done.
    by apply dict_get_remove_ne.
  - intros Hnd. rewrite dict_get_set, decide_False by (by vm_compute).
    by apply dict_get_remove.
  - pose proof (dict_remove_length _ _ _ Hget).
    pose proof (dict_set_length (dict_remove kvs (py "inputSchema"))
                  (py "input_schema") v). lia.
Qed.

Lemma function_call_tool_wrapped tool s :
  function_call_tool tool = Ok s → wrapped tool s.
Proof.
  intros (jn & jd & jp & ? & ? & ? & ->)%function_call_tool_inv.
  by exists jn, jd, jp.
Qed.

Lemma mapM_Forall2 {A B} (f : A → result B) (R : A → B → Prop) l bs :
  (∀ a b, f a = Ok b → R a b) → mapM f l = Ok bs → Forall2 R l bs.
Proof.
  intros HR. revert bs. induction l as [|a l IH]; intros bs.
  - intros [= <-]. constructor.
  - cbn [mapM]. destruct (f a) as [b|] eqn:Hb; [|done].
    destruct (mapM f l) as [bs'|]; [|done]. intros [= <-].
    constructor; [by apply HR|by apply IH].
Qed.

Lemma mapM_Ok_iff {A B} (f : A → result B) l :
  (∃ bs, mapM f l = Ok bs) ↔ Forall (λ a, ∃ b, f a = Ok b) l.
Proof.
  induction l as [|a l IH].
  - split; [constructor|]. intros _. by exists [].
  - cbn [mapM]. split.
    + intros [bs Hbs]. destruct (f a) as [b|] eqn:Hb; [|done].
      destruct (mapM f l) as [bs'|] eqn:Hbs'; [|done].
      constructor; [by exists b|]. apply IH. by exists bs'.
    + intros [[b Hb] [bs Hbs]%IH]%Forall_cons. rewrite Hb, Hbs. by eexists.
Qed.

Lemma function_call_tool_Ok_iff tool :
  (∃ s, function_call_tool tool = Ok s) ↔
  has_keys [py "name"; py "description"; py "inputSchema"] tool.
Proof.
  split.
  - intros [s (jn & jd & jp & Hn & Hd & Hp & _)%function_call_tool_inv].
    apply json_item_inv in Hn as (kvs & -> & Hn).
    apply json_item_inv in Hd as (? & [= <-] & Hd).
    apply json_item_inv in Hp as (? & [= <-] & Hp).
    exists kvs. split; [done|]. repeat constructor; by eexists.
  - intros (kvs & -> & Hkeys).
    apply Forall_cons in Hkeys as [[jn Hn] Hkeys].
    apply Forall_cons in Hkeys as [[jd Hd] Hkeys].
    apply Forall_cons in Hkeys as [[jp Hp] _].
    unfold function_call_tool, json_item, dict_item. rewrite Hn, Hd, Hp.
    by eexists.
Qed.

Lemma native_tool_Ok_iff tool :
  (∃ s, native_tool tool = Ok s) ↔ has_keys [py "inputSchema"] tool.
Proof.
  split.
  - intros [s (kvs & v & -> & Hget & _)%native_tool_inv].
    exists kvs. split; [done|]. repeat constructor. by eexists.
  - intros (kvs & -> & [[v Hv] _]%Forall_cons).
    cbn [native_tool]. unfold dict_pop. rewrite Hv. by eexists.
Qed.



Lemma mapM_first_raise {A} (f : json → result A) l e :
  mapM f l = Raise e →
  ∃ pre tool post,
    l = pre ++ tool :: post ∧ Forall (λ t, ∃ a, f t = Ok a) pre ∧
    f tool = Raise e.
Proof.
  induction l as [|a l IH]; [done|]. cbn [mapM].
  destruct (f a) as [b|e'] eqn:Hb.
  - destruct (mapM f l) as [bs|e''] eqn:Hbs; [done|]. intros [= ->].
    destruct (IH eq_refl) as (pre & tool & post & -> & Hpre & Htool).
    exists (a :: pre), tool, post. split; [done|].
    split; [constructor; [by exists b|done]|done].
  - intros [= ->]. exists [], a, l. split; [done|]. split; [constructor|done].
Qed.

Lemma function_call_tool_error tool e :
  function_call_tool tool = Raise e → function_call_error tool e.
Proof.
  destruct tool as [| | | | |kvs]; try (by intros [= <-]).
  unfold function_call_tool, json_item, dict_item, function_call_error.
  destruct (dict_get kvs (py "name")) as [jn|] eqn:Hn.
  2: { intros [= <-]. exists (py "name"). split; [done|].
       exists [], [py "description"; py "inputSchema"]. by repeat split. }
  destruct (dict_get kvs (py "description")) as [jd|] eqn:Hd.
  2: { intros [= <-]. exists (py "description"). split; [done|].
       exists [py "name"], [py "inputSchema"].
       split; [done|]. split; [|done]. repeat constructor. by rewrite Hn. }
  destruct (dict_get kvs (py "inputSchema")) as [jp|] eqn:Hp; [done|].
  intros [= <-]. exists (py "inputSchema"). split; [done|].
  exists [py "name"; py "description"], [].
  split; [done|]. split; [|done]. repeat constructor; by rewrite ?Hn, ?Hd.
Qed.

Lemma native_tool_error tool e : native_tool tool = Raise e → native_error tool e.
Proof.
  destruct tool as [| | | |xs|kvs]; try (by intros [= <-]).
  cbn [native_tool native_error]. unfold dict_pop.
  by destruct (dict_get kvs (py "inputSchema")) eqn:Hget; [|intros [= <-]].
Qed.

Lemma function_call_error_no_keys tool e :
  function_call_error tool e →
  ¬ has_keys [py "name"; py "description"; py "inputSchema"] tool.
Proof.
  intros Herr (kvs & -> & Hkeys).
  destruct Herr as (k & _ & pre & post & Hks & _ & Hnone).
  assert (k ∈ [py "name"; py "description"; py "inputSchema"]) as Hin.
  { rewrite Hks. apply elem_of_app. right. by left. }
  rewrite Forall_forall in Hkeys. destruct (Hkeys k Hin) as [v Hv]. congruence.
Qed.

Lemma native_error_no_keys tool e :
  native_error tool e → ¬ has_keys [py "inputSchema"] tool.
Proof.
  intros Herr (kvs & -> & [[v Hv] _]%Forall_cons). destruct Herr as [_ Hnone].
  congruence.
Qed.

Lemma first_bad_not_all ks bad catalog e :
  (∀ tool e, bad tool e → ¬ has_keys ks tool) →
  first_bad ks bad catalog e → ¬ Forall (has_keys ks) catalog.
Proof.
  intros Hbad (pre & tool & post & -> & _ & Htool) Hall.
  apply Forall_app in Hall as [_ [Hk _]%Forall_cons]. by eapply Hbad.
Qed.

(** ** A tool the transforms cannot read, on the heap *)

Lemma entries_rel_get_None T entries kjs Ls k :
  entries_rel T entries kjs Ls → dict_get kjs k = None →
  dict_get entries k = None.
Proof.
  induction 1 as [|[k1 v] [k2 j] L entries kjs Ls [Hk Ht] _ IH]; [done|].
  simpl in *. subst k2. by destruct (decide (k1 = k)).
Qed.

Lemma tree_atom_inv h v j L :
  tree h v j L → atom j ≠ None → atom j = Some v ∧ L = [].
Proof.
  inversion 1 as [j' v' Ha|l o j' Ls Hl Hshape Hts]; subst; [done|].
  intros Hj. destruct o, j; done.
Qed.

Lemma getitem_tree_raise h tool j L k e :
  tree h tool j L → json_item j k = Raise e →
  getitem tool k h = (Raise e, h).
Proof.
  intros Ht Hitem. destruct j as [| | | |xs|kjs].
  1-4: apply tree_atom_inv in Ht as [[= <-] _]; [|done];
       by injection Hitem as <-.
  - apply tree_list_inv in Ht as (l & items & Ls & -> & -> & Hl & _).
    injection Hitem as <-. cbn [getitem]. unfold mbind, M_bind, deref.
    by rewrite Hl.
  - apply tree_dict_inv in Ht as (l & entries & Ls & -> & -> & Hl & Hrel).
    unfold json_item, dict_item in Hitem.
    destruct (dict_get kjs k) eqn:Hget; [done|]. injection Hitem as <-.
    cbn [getitem]. unfold mbind, M_bind, deref. rewrite Hl.
    unfold lift, dict_item.
    by rewrite (entries_rel_get_None _ _ _ _ _ Hrel Hget).
Qed.

Lemma openai_entry_raise h tool j L e :
  tree h tool j L → function_call_tool j = Raise e →
  openai_entry tool h = (Raise e, h).
Proof.
  intros Ht. unfold function_call_tool, openai_entry.
  destruct (json_item j (py "name")) as [jn|e1] eqn:Hn.
  2: { intros [= <-]. apply bind_raise. by eapply getitem_tree_raise. }
  destruct (getitem_tree _ _ _ _ _ _ Ht Hn) as (vn & Ln & Hgn & _).
  rewrite (bind_ok _ _ _ _ _ Hgn).
  destruct (json_item j (py "description")) as [jd|e1] eqn:Hd.
  2: { intros [= <-]. apply bind_raise. by eapply getitem_tree_raise. }
  destruct (getitem_tree _ _ _ _ _ _ Ht Hd) as (vd & Ld & Hgd & _).
  rewrite (bind_ok _ _ _ _ _ Hgd).
  destruct (json_item j (py "inputSchema")) as [jp|e1] eqn:Hp; [done|].
  intros [= <-]. apply bind_raise. by eapply getitem_tree_raise.
Qed.

Lemma openai_entries_raise h0 items js Ls e :
  Forall3 (tree h0) items js Ls → mapM function_call_tool js = Raise e →
  ∀ h, h0 ⊆ h → ∃ h', mapH openai_entry items h = (Raise e, h').
Proof.
  induction 1 as [|tool j L items js Ls Ht Hts IH]; intros Hss h Hsub; [done|].
  cbn [mapM] in Hss. cbn [mapH].
  destruct (function_call_tool j) as [s|e1] eqn:Hs.
  - destruct (mapM function_call_tool js) as [ss'|e2] eqn:Hss'; [done|].
    injection Hss as ->.
    destruct (openai_entry_tree _ _ _ _ _ _ Hsub Ht Hs)
      as (entry & h1 & Hentry & Hsub1 & _).
    destruct (IH eq_refl h1) as (h2 & Hrun); [by etrans|].
    exists h2. rewrite (bind_ok _ _ _ _ _ Hentry). by apply bind_raise.
  - injection Hss as ->. exists h. apply bind_raise.
    eapply openai_entry_raise; [by eapply tree_mono|done].
Qed.

Lemma openai_tree_raise h tools js L e :
  tree h tools (JList js) L → to_function_call_schema js = Raise e →
  ∃ h', transform_tools_to_openai_format tools h = (Raise e, h').
Proof.
  intros (l & items & Ls & -> & -> & Hl & Hts)%tree_list_inv Hss.
  destruct (openai_entries_raise _ _ _ _ _ Hts Hss h (reflexivity h)) as (h' & Hrun).
  exists h'. unfold transform_tools_to_openai_format.
  assert (iter (VRef l) h = (Ok items, h)) as Hiter.
  { cbn [iter]. unfold mbind, M_bind, deref. by rewrite Hl. }
  rewrite (bind_ok _ _ _ _ _ Hiter). by apply bind_raise.
Qed.

Lemma rename_tree_raise h v j L e :
  tree h v j L → native_tool j = Raise e →
  rename_input_schema v h = (Raise e, h).
Proof.
  intros Ht Hs. unfold rename_input_schema. apply bind_raise.
  destruct j as [| | | |xs|kjs].
  1-4: apply tree_atom_inv in Ht as [[= <-] _]; [|done];
       by injection Hs as <-.
  - apply tree_list_inv in Ht as (l & items & Ls & -> & -> & Hl & _).
    injection Hs as <-. cbn [pop]. unfold mbind, M_bind, deref. by rewrite Hl.
  - apply tree_dict_inv in Ht as (l & entries & Ls & -> & -> & Hl & Hrel).
    cbn [native_tool] in Hs. unfold dict_pop in Hs.
    destruct (dict_get kjs (py "inputSchema")) eqn:Hget; [done|].
    injection Hs as <-. cbn [pop]. unfold mbind, M_bind, deref. rewrite Hl.
    unfold lift, dict_pop.
    by rewrite (entries_rel_get_None _ _ _ _ _ Hrel Hget).
Qed.

Lemma rename_all_raise js e :
  mapM native_tool js = Raise e →
  ∀ h vs Ls,
    Forall3 (tree h) vs js Ls → NoDup (concat Ls) →
    ∃ h', mapH rename_input_schema vs h = (Raise e, h').
Proof.
  induction js as [|j js IH]; intros Hss h vs Ls Hts Hnd; [done|].
  cbn [mapM] in Hss.
  apply Forall3_cons_inv_m in Hts as (v & vs' & L & Ls' & -> & -> & Ht & Hts).
  simpl in Hnd. apply NoDup_app in Hnd as (HndL & Hdisj & HndLs).
  cbn [mapH]. destruct (native_tool j) as [s|e1] eqn:Hs.
  - destruct (mapM native_tool js) as [ss'|e2] eqn:Hss'; [done|].
    injection Hss as ->.
    destruct (rename_tree _ _ _ _ _ Ht HndL Hs) as (h1 & L2 & Hren & _ & Hagree1 & _).
    destruct (IH eq_refl h1 vs' Ls') as (h2 & Hrun); [|done|].
    { apply (trees_frame h); [done|]. intros l Hl. apply Hagree1.
      intros HlL. by apply (Hdisj l). }
    exists h2. rewrite (bind_ok _ _ _ _ _ Hren). by apply bind_raise.
  - injection Hss as ->. exists h. apply bind_raise.
    by eapply rename_tree_raise.
Qed.

Lemma anthropic_tree_raise h tools js L e d :
  tree h tools (JList js) L → NoDup L →
  to_native_tool_schema js = Raise e → height (JList js) ≤ d →
  ∃ h', transform_tools_to_antrophic_format d tools h = (Raise e, h').
Proof.
  intros Ht Hnd Hss Hd.
  destruct (deepcopy_tree (JList js) d tools ∅ h L Ht Hnd)
    as (t & memo' & h1 & L' & Hcopy & Hsub1 & Ht' & Hnd' & Hfresh' & _); [|done|].
  { intros l _. apply lookup_empty. }
  apply tree_list_inv in Ht' as (y & items & Ls' & -> & -> & Hy & Hts').
  apply NoDup_cons in Hnd' as [HyLs' HndLs'].
  destruct (rename_all_raise _ _ Hss h1 items Ls' Hts' HndLs') as (h2 & Hrens).
  exists h2. unfold transform_tools_to_antrophic_format, deepcopy.
  assert (('(y0, _) ← deepcopy_memo d tools ∅; mret y0) h = (Ok (VRef y), h1))
    as Hdc by (by rewrite (bind_ok _ _ _ _ _ Hcopy)).
  rewrite (bind_ok _ _ _ _ _ Hdc).
  assert (iter (VRef y) h1 = (Ok items, h1)) as Hiter.
  { cbn [iter]. unfold mbind, M_bind, deref. by rewrite Hy. }
  rewrite (bind_ok _ _ _ _ _ Hiter). by apply bind_raise.
Qed.

Lemma load_unshared j h0 v h :
  load j h0 = (Ok v, h) → unshared h v j.
Proof.
  intros Hload.
  destruct (load_tree j h0) as (v' & L & h' & Hload' & _ & Ht & Hnd & _).
  rewrite Hload in Hload'. injection Hload' as <- <-. by exists L.
Qed.

Lemma first_bad_intro {A} (f : json → result A) ks bad catalog e :
  (∀ tool, (∃ s, f tool = Ok s) → has_keys ks tool) →
  (∀ tool e, f tool = Raise e → bad tool e) →
  mapM f catalog = Raise e → first_bad ks bad catalog e.
Proof.
  intros Hok Hbad (pre & tool & post & -> & Hpre & Htool)%mapM_first_raise.
  exists pre, tool, post. split; [done|]. split; [|by apply Hbad].
  eapply Forall_impl; [done|]. intros t Ht. by apply Hok.
Qed.

(** ** Deeper than the recursion limit *)

Lemma height_Exists j d :
  S d < height j → Exists (λ j', d < height j') (jchildren j).
Proof.
  destruct j as [| | | |xs|kjs]; cbn [height jchildren]; try lia.
  - induction xs as [|x xs IH]; [lia|]. intros Hh.
    destruct (decide (d < height x)); [by left|]. right. apply IH. lia.
  - induction kjs as [|[k x] kjs IH]; [simpl; lia|]. intros Hh. simpl in *.
    destruct (decide (d < height x)); [by left|]. right. apply IH. lia.
Qed.

Lemma copy_items_too_deep js :
  Forall too_deep js →
  ∀ d vs Ls memo h,
    Forall3 (tree h) vs js Ls → NoDup (concat Ls) →
    (∀ l, l ∈ concat Ls → memo !! l = None) →
    Exists (λ j, d < height j) js →
    ∃ h', copy_items d vs memo h = (Raise RecursionError, h').
Proof.
  induction 1 as [|j js Hj _ IH]; intros d vs Ls memo h Hts Hnd Hmemo Hex.
  { by apply Exists_nil in Hex. }
  apply Forall3_cons_inv_m in Hts as (v & vs0 & L & Ls0 & -> & -> & Ht & Hts).
  simpl in Hnd. apply NoDup_app in Hnd as (HndL & Hdisj & HndLs).
  assert (∀ l, l ∈ L → memo !! l = None) as HmemoL.
  { intros l Hl. apply Hmemo. simpl. apply elem_of_app; auto. }
  cbn [copy_items]. destruct (decide (d < height j)) as [Hdeep|Hfit].
  - destruct (Hj d v memo h L Ht HndL HmemoL Hdeep) as (h' & Hrun).
    exists h'. by apply bind_raise.
  - apply Exists_cons in Hex as [?|Hex]; [done|].
    destruct (deepcopy_tree j d v memo h L Ht HndL HmemoL)
      as (v' & memo1 & h1 & L' & Hcopy & Hsub1 & _ & _ & _ & Hmemo1); [lia|].
    destruct (IH d vs0 Ls0 memo1 h1) as (h2 & Hrun);
      [by eapply trees_mono|done| |done|].
    { intros l Hl. apply Hmemo1. split.
      - apply Hmemo. simpl. apply elem_of_app; auto.
      - intros HlL. by apply (Hdisj l). }
    exists h2. rewrite (bind_ok _ _ _ _ _ Hcopy). cbn beta iota.
    by apply bind_raise.
Qed.

Lemma deepcopy_too_deep j : too_deep j.
Proof.
  induction j as [j IH] using json_children_ind.
  intros d v memo h L Ht Hnd Hmemo Hd.
  inversion Ht as [j' v' Ha|l o j' Ls Hl Hshape Hts]; subst.
  { destruct j; try done; simpl in Hd; lia. }
  apply NoDup_cons in Hnd as [HlLs HndLs].
  assert (memo !! l = None) as Hml by (apply Hmemo; by left).
  destruct d as [|d].
  { exists h. cbn [deepcopy_memo]. by rewrite Hml. }
  rewrite deepcopy_memo_node by done.
  assert (deref l h = (Ok o, h)) as Hderef by (unfold deref; by rewrite Hl).
  rewrite (bind_ok _ _ _ _ _ Hderef).
  set (y := fresh (dom h)).
  set (h1 := <[y := with_children o []]> h).
  assert (alloc (with_children o []) h = (Ok y, h1)) as Halloc by done.
  rewrite (bind_ok _ _ _ _ _ Halloc).
  assert (h ⊆ h1) as Hsub1 by (apply insert_subseteq, alloc_fresh).
  destruct (copy_items_too_deep _ IH d (children o) Ls (<[l := y]> memo) h1)
    as (h2 & Hrun); [by eapply trees_mono|done| |by apply height_Exists|].
  { intros l' Hl'. rewrite lookup_insert_ne by (intros ->; done).
    apply Hmemo. by right. }
  exists h2. by apply bind_raise.
Qed.

(** ** The outcome of the two transforms *)

(** Property X12.  [transform_tools_to_openai_format] on a catalog loaded from JSON:
    it returns iff every tool is an object with the keys [name],
    [description] and [inputSchema]; the result then reads as one
    entry per tool, in catalog order, each with the two keys [type]
    and [function] and under [function] the three values of the tool
    and nothing else.  Otherwise it raises at the first tool that is
    not so: [TypeError] for a tool that is not an object, else
    [KeyError] of the first of the three keys the tool does not have.
    In both cases the catalog reads as before. *)
Theorem function_call_transform_outcome catalog h0 tools h :
  load (JList catalog) h0 = (Ok tools, h) →
  ∃ r h',
    transform_tools_to_openai_format tools h = (r, h') ∧
    h ⊆ h' ∧ repr h' tools (JList catalog) ∧
    match r with
    | Ok v =>
        Forall (has_keys [py "name"; py "description"; py "inputSchema"])
               catalog ∧
        ∃ fc, Forall2 wrapped catalog fc ∧ repr h' v (JList fc)
    | Raise e =>
        ¬ Forall (has_keys [py "name"; py "description"; py "inputSchema"])
                 catalog ∧
        first_bad [py "name"; py "description"; py "inputSchema"]
                  function_call_error catalog e
    end.
Proof.
  intros (L & Ht & _)%load_unshared.
  destruct (to_function_call_schema catalog) as [fc|e] eqn:Hfc.
  - destruct (openai_tree _ _ _ _ _ Ht Hfc) as (r & h' & Hrun & Hsub & Hr & _).
    exists (Ok r), h'. split; [done|]. split; [done|].
    split; [exists L; by eapply tree_mono|]. split.
    + eapply Forall_impl;
        [apply (mapM_Ok_iff function_call_tool catalog); by exists fc|].
      intros tool. apply function_call_tool_Ok_iff.
    + exists fc. split; [|done].
      eapply mapM_Forall2; [|done]. apply function_call_tool_wrapped.
  - destruct (openai_tree_raise _ _ _ _ _ Ht Hfc) as (h' & Hrun).
    exists (Raise e), h'. split; [done|].
    assert (h ⊆ h') as Hsub by (by eapply (keeps_openai h)).
    split; [done|]. split; [exists L; by eapply tree_mono|].
    assert (first_bad [py "name"; py "description"; py "inputSchema"]
              function_call_error catalog e) as Hbad.
    { eapply first_bad_intro; [| |done].
      - intros tool. apply function_call_tool_Ok_iff.
      - apply function_call_tool_error. }
    split; [|done]. eapply first_bad_not_all; [|done].
    apply function_call_error_no_keys.
Qed.

(** Property X13.  [transform_tools_to_antrophic_format] on a catalog loaded from
    JSON, with a recursion limit above its nesting depth: it returns
    iff every tool is an object with the key [inputSchema]; the result
    is then made of new objects only and reads as one entry per tool,
    in catalog order, where the schema has moved from [inputSchema] to
    [input_schema] and every other key has kept its value.  Otherwise
    it raises at the first tool that is not so: [AttributeError] for a
    tool that is no container, [TypeError] for a list,
    [KeyError('inputSchema')] for an object without the key.  In both
    cases the catalog reads as before. *)
Theorem native_transform_outcome catalog depth h0 tools h :
  load (JList catalog) h0 = (Ok tools, h) →
  height (JList catalog) ≤ depth →
  ∃ r h',
    transform_tools_to_antrophic_format depth tools h = (r, h') ∧
    h ⊆ h' ∧ repr h' tools (JList catalog) ∧
    match r with
    | Ok v =>
        Forall (has_keys [py "inputSchema"]) catalog ∧
        ∃ nt, Forall2 renamed catalog nt ∧ repr_outside h h' v (JList nt)
    | Raise e =>
        ¬ Forall (has_keys [py "inputSchema"]) catalog ∧
        first_bad [py "inputSchema"] native_error catalog e
    end.
Proof.
  intros (L & Ht & Hnd)%load_unshared Hd.
  destruct (to_native_tool_schema catalog) as [nt|e] eqn:Hnt.
  - destruct (anthropic_tree _ _ _ _ _ depth Ht Hnd Hnt Hd)
      as (r & h' & Hrun & Hsub & Hr).
    exists (Ok r), h'. split; [done|]. split; [done|].
    split; [exists L; by eapply tree_mono|]. split.
    + eapply Forall_impl;
        [apply (mapM_Ok_iff native_tool catalog); by exists nt|].
      intros tool. apply native_tool_Ok_iff.
    + exists nt. split; [|done].
      eapply mapM_Forall2; [|done]. apply native_tool_renamed.
  - destruct (anthropic_tree_raise _ _ _ _ _ depth Ht Hnd Hnt Hd) as (h' & Hrun).
    exists (Raise e), h'. split; [done|].
    assert (h ⊆ h') as Hsub by (by eapply keeps_anthropic).
    split; [done|]. split; [exists L; by eapply tree_mono|].
    assert (first_bad [py "inputSchema"] native_error catalog e) as Hbad.
    { eapply first_bad_intro; [| |done].
      - intros tool. apply native_tool_Ok_iff.
      - apply native_tool_error. }
    split; [|done]. eapply first_bad_not_all; [|done].
    apply native_error_no_keys.
Qed.

(** Property X14.  A catalog nested deeper than the recursion limit allows:
    [deepcopy] raises [RecursionError], so
    [transform_tools_to_antrophic_format] raises it too, whatever the
    tools look like, and the catalog reads as before. *)
Theorem native_transform_recursion_limit catalog depth h0 tools h :
  load (JList catalog) h0 = (Ok tools, h) →
  depth < height (JList catalog) →
  ∃ h',
    transform_tools_to_antrophic_format depth tools h
    = (Raise RecursionError, h') ∧
    h ⊆ h' ∧ repr h' tools (JList catalog).
Proof.
  intros (L & Ht & Hnd)%load_unshared Hd.
  destruct (deepcopy_too_deep (JList catalog) depth tools ∅ h L Ht Hnd)
    as (h' & Hcopy); [|done|].
  { intros l _. apply lookup_empty. }
  assert (transform_tools_to_antrophic_format depth tools h
          = (Raise RecursionError, h')) as Hrun.
  { unfold transform_tools_to_antrophic_format, deepcopy.
    apply bind_raise. by apply bind_raise. }
  exists h'. split; [done|].
  assert (h ⊆ h') as Hsub by (by eapply keeps_anthropic).
  split; [done|]. exists L. by eapply tree_mono.
Qed.

Lemma function_call_transform_outcome_witness :
  ∃ tools h,
    load (JList [sample_tool; tool_without_description]) ∅ = (Ok tools, h) ∧
    ∃ r h',
      transform_tools_to_openai_format tools h = (r, h') ∧
      repr h' tools (JList [sample_tool; tool_without_description]).
Proof.
  assert (∃ tools h,
            load (JList [sample_tool; tool_without_description]) ∅
            = (Ok tools, h)) as (tools & h & Hload).
  { eexists _, _. vm_compute. reflexivity. }
  exists tools, h. split; [exact Hload|].
  destruct (function_call_transform_outcome _ _ _ _ Hload)
    as (r & h' & Hrun & _ & Hrepr & _).
  exists r, h'. split; [exact Hrun|exact Hrepr].
Defined.

Lemma native_transform_outcome_witness :
  height (JList [sample_tool; tool_without_schema]) ≤ 3 ∧
  ∃ tools h,
    load (JList [sample_tool; tool_without_schema]) ∅ = (Ok tools, h) ∧
    ∃ r h',
      transform_tools_to_antrophic_format 3 tools h = (r, h') ∧
      repr h' tools (JList [sample_tool; tool_without_schema]).
Proof.
  assert (height (JList [sample_tool; tool_without_schema]) ≤ 3) as Hd.
  { vm_compute. lia. }
  split; [exact Hd|].
  assert (∃ tools h,
            load (JList [sample_tool; tool_without_schema]) ∅
            = (Ok tools, h)) as (tools & h & Hload).
  { eexists _, _. vm_compute. reflexivity. }
  exists tools, h. split; [exact Hload|].
  destruct (native_transform_outcome _ 3 _ _ _ Hload Hd)
    as (r & h' & Hrun & _ & Hrepr & _).
  exists r, h'. split; [exact Hrun|exact Hrepr].
Defined.

Lemma native_transform_recursion_limit_witness :
  2 < height (JList [sample_tool]) ∧
  ∃ tools h h',
    load (JList [sample_tool]) ∅ = (Ok tools, h) ∧
    transform_tools_to_antrophic_format 2 tools h
    = (Raise RecursionError, h').
Proof.
  assert (2 < height (JList [sample_tool])) as Hd by (vm_compute; lia).
  split; [exact Hd|].
  assert (∃ tools h, load (JList [sample_tool]) ∅ = (Ok tools, h))
    as (tools & h & Hload).
  { eexists _, _. vm_compute. reflexivity. }
  destruct (native_transform_recursion_limit _ 2 _ _ _ Hload Hd)
    as (h' & Hrun & _).
  exists tools, h, h'. split; [exact Hload|exact Hrun].
Defined.
End HeapOutcomes.

(* ===================================================================== *)
(** * The dataset script *)
(* ===================================================================== *)

Module CreateDatasetFacts.
Import CreateDataset.

Lemma mapM_as_str items strs :
mapM as_str items = Ok strs ↔ items = JStr <$> strs.
Proof.
revert strs. induction items as [|x items IH]; intros strs; cbn [mapM].
- split; [intros [= <-]; done|]. by destruct strs.
- destruct x as [| | |s| |]; cbn [as_str mbind result_bind];
    try (split; [done|]; by destruct strs).
  destruct (mapM as_str items) as [strs'|e] eqn:Hrest; cbn [mbind result_bind].
  + split.
    * intros [= <-]. simpl. f_equal. by apply IH.
    * destruct strs as [|s0 strs0]; [done|]. intros [= -> Hitems].
      apply IH in Hitems. by injection Hitems as ->.
  + split; [done|]. destruct strs as [|s0 strs0]; [done|].
    intros [= -> Hitems]. by apply IH in Hitems.
Qed.

Lemma fmap_JStr_inj (l1 l2 : list pystr) : JStr <$> l1 = JStr <$> l2 → l1 = l2.
Proof.
revert l2. induction l1 as [|x l1 IH]; intros [|y l2]; try done.
intros [= -> Hrest]. f_equal. by apply IH.
Qed.

Lemma json_iter_strings x strs :
json_iter x = Ok (JStr <$> strs) ↔ strings_of x strs.
Proof.
destruct x as [| | |s|xs|kvs]; cbn [json_iter strings_of]; try done.
- split.
  + intros [= Heq]. apply fmap_JStr_inj. by rewrite <-Heq, <-list_fmap_compose.
  + intros ->. by rewrite <-list_fmap_compose.
- split; [by intros [= ->]|by intros ->].
- split; [intros [= Heq]; symmetry; by apply fmap_JStr_inj|by intros ->].
Qed.

Lemma str_join_Ok sep x s :
str_join sep x = Ok s ↔ ∃ strs, strings_of x strs ∧ s = join sep strs.
Proof.
unfold str_join. split.
- destruct (json_iter x) as [items|] eqn:Hiter; [|done]. cbn [mbind result_bind].
  destruct (mapM as_str items) as [strs|] eqn:Hstrs; [|done].
  intros [= <-]. exists strs. split; [|done].
  apply mapM_as_str in Hstrs as ->. by apply json_iter_strings.
- intros (strs & Hx & ->). apply json_iter_strings in Hx. rewrite Hx.
  cbn [mbind result_bind].
  by rewrite (proj2 (mapM_as_str (JStr <$> strs) strs) eq_refl).
Qed.

Lemma str_join_raise sep x e : str_join sep x = Raise e → e = TypeError.
Proof.
unfold str_join. destruct (json_iter x) as [items|e1] eqn:Hiter.
- cbn [mbind result_bind].
  destruct (mapM as_str items) as [strs|e2] eqn:Hstrs; [done|].
  intros [= <-]. clear Hiter. induction items as [|i items IH]; [done|].
  cbn [mapM] in Hstrs.
  destruct i as [| | |s| |]; cbn [as_str mbind result_bind] in Hstrs;
    try congruence.
  destruct (mapM as_str items) as [strs|e3];
    cbn [mbind result_bind] in Hstrs; [done|].
  apply IH. congruence.
- intros [= <-]. destruct x; simpl in Hiter; congruence.
Qed.

(** Property X15.  Which test cases give a row: those with the three keys whose
  [expected_tools] can be iterated and yields strings only.  A list of
  strings is what the file is meant to have, but a string is taken
  too, character by character, and so are the keys of an object; the
  joined string is stored, and [question] and [category] go into the
  row as they are, whatever they are. *)
Theorem row_of_accepts test_case row :
row_of test_case = Ok row ↔
∃ question expected strs category,
  json_item test_case (py "question") = Ok question ∧
  json_item test_case (py "expected_tools") = Ok expected ∧
  strings_of expected strs ∧
  json_item test_case (py "category") = Ok category ∧
  row = JDict [(py "question", question);
               (py "tool_calls", JStr (join (py ", ") strs));
               (py "category", category)].
Proof.
unfold row_of. split.
- destruct (json_item test_case (py "question")) as [q|] eqn:Hq; [|done].
  destruct (json_item test_case (py "expected_tools")) as [x|] eqn:Hx; [|done].
  cbn [mbind result_bind].
  destruct (str_join (py ", ") x) as [s|] eqn:Hs; [|done].
  destruct (json_item test_case (py "category")) as [c|] eqn:Hc; [|done].
  cbn [mbind result_bind]. intros [= <-].
  apply str_join_Ok in Hs as (strs & Hstrs & ->). by exists q, x, strs, c.
- intros (q & x & strs & c & -> & -> & Hstrs & -> & ->).
  cbn [mbind result_bind].
  assert (str_join (py ", ") x = Ok (join (py ", ") strs)) as ->; [|done].
  apply str_join_Ok. by exists strs.
Qed.

Lemma row_of_case tc j :
case_of tc j →
row_of j = Ok (JDict [(py "question", JStr (tc_question tc));
                      (py "tool_calls",
                       JStr (join (py ", ") (tc_expected_tools tc)));
                      (py "category", JStr (tc_category tc))]).
Proof.
intros (Hq & Hx & Hc). unfold row_of. rewrite Hq, Hx, Hc.
cbn [mbind result_bind].
assert (str_join (py ", ") (JList (JStr <$> tc_expected_tools tc))
        = Ok (join (py ", ") (tc_expected_tools tc))) as ->; [|done].
apply str_join_Ok. by exists (tc_expected_tools tc).
Qed.

Lemma row_holds_dataset_row tc :
row_holds (dataset_row tc)
  (JDict [(py "question", JStr (tc_question tc));
          (py "tool_calls", JStr (join (py ", ") (tc_expected_tools tc)));
          (py "category", JStr (tc_category tc))]).
Proof.
eexists. split; [done|]. intros k. unfold dataset_row. cbn [dict_get].
destruct (decide (py "question" = k)) as [<-|Hq].
{ by rewrite lookup_insert_eq. }
rewrite lookup_insert_ne by done.
destruct (decide (py "tool_calls" = k)) as [<-|Ht].
{ by rewrite lookup_insert_eq. }
rewrite lookup_insert_ne by done.
destruct (decide (py "category" = k)) as [<-|Hc].
{ by rewrite lookup_singleton_eq. }
by rewrite lookup_singleton_ne.
Qed.

Lemma rows_of_cases tcs cases :
Forall2 case_of tcs cases →
∃ rows,
  mapM row_of cases = Ok rows ∧
  Forall2 (λ tc row, row_holds (dataset_row tc) row) tcs rows.
Proof.
induction 1 as [|tc j tcs cases Hj _ (rows & Hrows & Hholds)].
- exists []. split; [done|constructor].
- eexists. cbn [mapM]. rewrite (row_of_case _ _ Hj), Hrows.
  split; [done|]. constructor; [apply row_holds_dataset_row|done].
Qed.

Section script.
Context {world : Type} `{!UploadEnv world}.

(** Property X16.  A file as it is meant to be: a list of test cases with a question,
a list of tool names and a category each, and a version string.
Once the file is read and the client is there, the script uploads,
in one call, one row per test case in file order, each holding what
[dataset_row] holds, under the name made of the prefix and the
version, with [question] as input key and [tool_calls] as output
key; it returns if the upload does, and leaves with status 1 if the
upload raises. *)
Theorem well_formed_upload w test_data wc cases tcs wd version :
has_read w test_data wc →
json_item test_data (py "test_cases") = Ok (JList cases) →
Forall2 case_of tcs cases →
phoenix_client wc = (Ok (), wd) →
json_item test_data (py "version") = Ok (JStr version) →
∃ rows,
Forall2 (λ tc row, row_holds (dataset_row tc) row) tcs rows ∧
let request :=
  UploadRequest rows (py "mcp_tool_calling_ground_truth_v" ++ version)
                [py "question"] [py "tool_calls"] in
create_dataset w
= (match (upload_dataset request wd).1 with
   | Ok _ => Next ()
   | Raise _ => Stop (SysExit 1)
   end, (upload_dataset request wd).2).
Proof.
intros (wa & wb & Hv & Hp & Hj) Hcases Htcs Hclient Hversion.
destruct (rows_of_cases _ _ Htcs) as (rows & Hrows & Hholds).
exists rows. split; [done|]. intros request.
unfold create_dataset, load_test_cases. rewrite Hv. cbn [negb]. rewrite Hp. cbn [negb].
rewrite Hj. unfold dataset_rows. rewrite Hcases. cbn [mbind result_bind json_iter].
rewrite Hrows, Hclient, Hversion. cbn [fstring]. fold request.
by destruct (upload_dataset request wd) as [[id|e] w'].
Qed.

Lemma create_dataset_next w test_data wc rows wd version r w' :
has_read w test_data wc → dataset_rows test_data = Ok rows →
phoenix_client wc = (Ok (), wd) →
json_item test_data (py "version") = Ok version →
upload_dataset (upload_of rows version) wd = (r, w') →
create_dataset w
= (match r with Ok _ => Next () | Raise _ => Stop (SysExit 1) end, w').
Proof.
intros (wa & wb & Hv & Hp & Hj) Hrows Hc Hver Hu.
unfold create_dataset, load_test_cases. rewrite Hv. cbn [negb]. rewrite Hp.
cbn [negb]. rewrite Hj, Hrows, Hc, Hver. fold (upload_of rows version).
rewrite Hu. by destruct r.
Qed.

(** Property X17.  How a run of the script can end, and what has happened then.  It
returns only after an upload that returned; the request of that one
upload holds the rows of all test cases.  It leaves with
[sys.exit(1)] when the environment is not valid, when the file is
missing, or when the upload raises.  Nothing catches an exception
of [json.load], of building the rows, of making the client, or of
reading [version]: the last is looked at only once all rows are
built and the client is there, and none of these runs has called
[upload_dataset]. *)
Theorem create_dataset_outcomes w s w' :
create_dataset w = (s, w') →
match s with
| Next _ =>
  ∃ test_data wc rows wd version id,
    has_read w test_data wc ∧ dataset_rows test_data = Ok rows ∧
    phoenix_client wc = (Ok (), wd) ∧
    json_item test_data (py "version") = Ok version ∧
    upload_dataset (upload_of rows version) wd = (Ok id, w')
| Stop (Returned _) => False
| Stop (SysExit code) =>
  code = 1%Z ∧
  (validate_env_vars w = (false, w') ∨
   (∃ wa, validate_env_vars w = (true, wa) ∧
          test_cases_path_exists wa = (false, w')) ∨
   (∃ test_data wc rows wd version e,
      has_read w test_data wc ∧ dataset_rows test_data = Ok rows ∧
      phoenix_client wc = (Ok (), wd) ∧
      json_item test_data (py "version") = Ok version ∧
      upload_dataset (upload_of rows version) wd = (Raise e, w')))
| Stop (Uncaught e) =>
  (∃ wa wb, validate_env_vars w = (true, wa) ∧
            test_cases_path_exists wa = (true, wb) ∧
            json_load wb = (Raise e, w')) ∨
  (∃ test_data, has_read w test_data w' ∧ dataset_rows test_data = Raise e) ∨
  (∃ test_data wc rows,
     has_read w test_data wc ∧ dataset_rows test_data = Ok rows ∧
     (phoenix_client wc = (Raise e, w') ∨
      phoenix_client wc = (Ok (), w') ∧
      json_item test_data (py "version") = Raise e))
end.
Proof.
unfold create_dataset, load_test_cases.
destruct (validate_env_vars w) as [[] wa] eqn:Hv; cbn [negb].
2: { intros [= <- <-]. split; [done|]. by left. }
destruct (test_cases_path_exists wa) as [[] wb] eqn:Hp; cbn [negb].
2: { intros [= <- <-]. split; [done|]. right. left. by exists wa. }
destruct (json_load wb) as [[test_data|e] wc] eqn:Hj.
2: { intros [= <- <-]. left. by exists wa, wb. }
assert (has_read w test_data wc) as Hread by (by exists wa, wb).
destruct (dataset_rows test_data) as [rows|e] eqn:Hrows.
2: { intros [= <- <-]. right. left. by exists test_data. }
destruct (phoenix_client wc) as [[[]|e] wd] eqn:Hc.
2: { intros [= <- <-]. right. right. exists test_data, wc, rows. auto. }
destruct (json_item test_data (py "version")) as [version|e] eqn:Hversion.
2: { intros [= <- <-]. right. right. exists test_data, wc, rows. auto. }
fold (upload_of rows version).
destruct (upload_dataset (upload_of rows version) wd) as [[id|e] we] eqn:Hu;
intros [= <- <-].
- by exists test_data, wc, rows, wd, version, id.
- split; [done|]. right. right. by exists test_data, wc, rows, wd, version, e.
Qed.

(** Property X18.  The script ends with status 0 or 1, and with 0 only after an upload
that returned. *)
Theorem script_status_zero_or_one w :
(script_exit_code w = 0%Z ∨ script_exit_code w = 1%Z) ∧
(script_exit_code w = 0%Z ↔
∃ test_data wc rows wd version id w',
 has_read w test_data wc ∧ dataset_rows test_data = Ok rows ∧
 phoenix_client wc = (Ok (), wd) ∧
 json_item test_data (py "version") = Ok version ∧
 upload_dataset (upload_of rows version) wd = (Ok id, w')).
Proof.
assert ((∃ test_data wc rows wd version id w',
        has_read w test_data wc ∧ dataset_rows test_data = Ok rows ∧
        phoenix_client wc = (Ok (), wd) ∧
        json_item test_data (py "version") = Ok version ∧
        upload_dataset (upload_of rows version) wd = (Ok id, w')) →
      script_exit_code w = 0%Z) as Hback.
{ intros (td & wc & rows & wd & version & id & w' & H1 & H2 & H3 & H4 & H5).
unfold script_exit_code.
by rewrite (create_dataset_next _ _ _ _ _ _ _ _ H1 H2 H3 H4 H5). }
unfold script_exit_code in *. unfold create_dataset, load_test_cases in *.
destruct (validate_env_vars w) as [[] wa] eqn:Hv; cbn [negb fst] in *.
2: { split; [by right|]. split; [done|]. intros H. by apply Hback in H. }
destruct (test_cases_path_exists wa) as [[] wb] eqn:Hp; cbn [negb fst] in *.
2: { split; [by right|]. split; [done|]. intros H. by apply Hback in H. }
destruct (json_load wb) as [[test_data|e] wc] eqn:Hj; cbn [fst] in *.
2: { split; [by right|]. split; [done|]. intros H. by apply Hback in H. }
assert (has_read w test_data wc) as Hread.
{ exists wa, wb. unfold has_read. by rewrite Hv, Hp, Hj. }
destruct (dataset_rows test_data) as [rows|e] eqn:Hrows; cbn [fst] in *.
2: { split; [by right|]. split; [done|]. intros H. by apply Hback in H. }
destruct (phoenix_client wc) as [[[]|e] wd] eqn:Hc; cbn [fst] in *.
2: { split; [by right|]. split; [done|]. intros H. by apply Hback in H. }
destruct (json_item test_data (py "version")) as [version|e] eqn:Hversion;
cbn [fst] in *.
2: { split; [by right|]. split; [done|]. intros H. by apply Hback in H. }
fold (upload_of rows version) in *.
destruct (upload_dataset (upload_of rows version) wd) as [[id|e] we] eqn:Hu;
cbn [fst] in *.
- split; [by left|]. split; [|done]. intros _.
by exists test_data, wc, rows, wd, version, id, we.
- split; [by right|]. split; [done|]. intros H. by apply Hback in H.
Qed.

(** Property X19.  The first test case that gives no row ends the script with the
exception of that test case: the cases after it are not looked at,
no client is made, [version] is not read and nothing is uploaded.
The exception is the [KeyError] of the first of [question],
[expected_tools], [category] the case does not have, or a
[TypeError]. *)
Theorem first_bad_case_ends_script w test_data wc pre bad post e :
has_read w test_data wc →
json_item test_data (py "test_cases") = Ok (JList (pre ++ bad :: post)) →
Forall (λ c, ∃ row, row_of c = Ok row) pre →
row_of bad = Raise e →
create_dataset w = (Stop (Uncaught e), wc) ∧ script_exit_code w = 1%Z ∧
(e = TypeError ∨
∃ kvs k,
 bad = JDict kvs ∧ e = KeyError k ∧
 first_missing [py "question"; py "expected_tools"; py "category"] kvs k).
Proof.
intros (wa & wb & Hv & Hp & Hj) Hcases Hpre Hbad.
assert (mapM row_of (pre ++ bad :: post) = Raise e) as Hrows.
{ clear Hcases. induction Hpre as [|c pre [row Hrow] _ IH]; cbn [mapM app].
- by rewrite Hbad.
- by rewrite Hrow, IH. }
assert (create_dataset w = (Stop (Uncaught e), wc)) as Hrun.
{ unfold create_dataset, load_test_cases. rewrite Hv. cbn [negb]. rewrite Hp. cbn [negb].
rewrite Hj. unfold dataset_rows. rewrite Hcases.
cbn [mbind result_bind json_iter]. by rewrite Hrows. }
split; [done|]. split; [unfold script_exit_code; by rewrite Hrun|].
clear -Hbad. unfold row_of in Hbad.
destruct bad as [| | | | |kvs]; try (injection Hbad as <-; by left).
unfold json_item, dict_item in Hbad.
destruct (dict_get kvs (py "question")) as [q|] eqn:Hq.
2: { injection Hbad as <-. right. exists kvs, (py "question").
   split; [done|]. split; [done|].
   exists [], [py "expected_tools"; py "category"]. by repeat split. }
destruct (dict_get kvs (py "expected_tools")) as [x|] eqn:Hx.
2: { injection Hbad as <-. right. exists kvs, (py "expected_tools").
   split; [done|]. split; [done|]. exists [py "question"], [py "category"].
   split; [done|]. split; [|done]. repeat constructor. by rewrite Hq. }
cbn [mbind result_bind] in Hbad.
destruct (str_join (py ", ") x) as [s|e'] eqn:Hs.
2: { injection Hbad as <-. left. by eapply str_join_raise. }
destruct (dict_get kvs (py "category")) as [c|] eqn:Hc; [done|].
injection Hbad as <-. right. exists kvs, (py "category").
split; [done|]. split; [done|]. exists [py "question"; py "expected_tools"], [].
split; [done|]. split; [|done]. repeat constructor; by rewrite ?Hq, ?Hx.
Qed.
End script.

Lemma well_formed_upload_witness :
∃ rows,
  Forall2 (λ tc row, row_holds (dataset_row tc) row) [sample_case] rows ∧
  create_dataset (UploadEnv0 := logged sample_test_data true) []
  = (Next (),
     [UploadRequest rows (py "mcp_tool_calling_ground_truth_v1.0")
        [py "question"] [py "tool_calls"]]).
Proof.
destruct (well_formed_upload (UploadEnv0 := logged sample_test_data true)
            [] sample_test_data [] [case_json sample_case] [sample_case] []
            (py "1.0"))
  as (rows & Hholds & Hrun).
- exists [], []. repeat split; reflexivity.
- reflexivity.
- constructor; [repeat split; reflexivity|constructor].
- reflexivity.
- reflexivity.
- exists rows. split; [exact Hholds|exact Hrun].
Defined.

Lemma create_dataset_outcomes_witness :
∃ test_data wc rows wd version e w',
  has_read (UploadEnv0 := logged sample_test_data false) [] test_data wc ∧
  dataset_rows test_data = Ok rows ∧
  phoenix_client (UploadEnv := logged sample_test_data false) wc = (Ok (), wd) ∧
  json_item test_data (py "version") = Ok version ∧
  upload_dataset (UploadEnv := logged sample_test_data false)
    (upload_of (UploadEnv0 := logged sample_test_data false) rows version) wd
  = (Raise e, w').
Proof.
pose proof (create_dataset_outcomes (UploadEnv0 := logged sample_test_data false)
              [] (Stop (SysExit 1)) _ eq_refl) as [_ [H|[H|H]]].
- discriminate H.
- destruct H as (wa & _ & H). discriminate H.
- destruct H as (td & wc & rows & wd & version & e & H).
  exists td, wc, rows, wd, version, e. eexists. exact H.
Defined.

Lemma first_bad_case_ends_script_witness :
create_dataset (UploadEnv0 := logged broken_test_data true) []
= (Stop (Uncaught (KeyError (py "category"))), []) ∧
script_exit_code (UploadEnv0 := logged broken_test_data true) [] = 1%Z.
Proof.
destruct (first_bad_case_ends_script (UploadEnv0 := logged broken_test_data true)
            [] broken_test_data [] [case_json sample_case]
            (JDict [(py "question", JStr (py "q2"));
                    (py "expected_tools", JList [])])
            [] (KeyError (py "category")))
  as (Hrun & Hcode & _).
- exists [], []. repeat split; reflexivity.
- reflexivity.
- constructor; [eexists; reflexivity|constructor].
- reflexivity.
- split; [exact Hrun|exact Hcode].
Defined.

End CreateDatasetFacts.
